(** * jiujiu-obsidian-calendar: task filter engine, task extraction and
      calendar arithmetic

    A shallow embedding of [src/services/taskService.ts],
    [src/utils/regexUtils.ts], [src/utils/dateUtils.ts] and of the
    range filter of [src/views/CalendarView.ts], followed by the
    properties of the specification that were checked against it. *)

From Stdlib Require Import ZArith NArith Bool String Ascii List Lia.
Import ListNotations.

Set Warnings "-register-all".

(* ================================================================== *)
(** * JavaScript strings *)
(* ================================================================== *)

(** A JavaScript string is a sequence of UTF-16 code units.  The
    source never uses the [u] flag or code-point iteration, so every
    string operation below works on code units. *)
Module JsString.

Definition jsstring := list N.

(** An ASCII literal of the source. *)
Definition lit (s : string) : jsstring :=
  map N_of_ascii (list_ascii_of_string s).

Fixpoint eqb (a b : jsstring) : bool :=
  match a, b with
  | [], [] => true
  | x :: a', y :: b' => N.eqb x y && eqb a' b'
  | _, _ => false
  end.

(** Truthiness of a string value: only [""] is falsy. *)
Definition truthy (s : jsstring) : bool :=
  match s with [] => false | _ :: _ => true end.

(** The code units matched by [\s], which are also the ones that
    [String.prototype.trim] strips (WhiteSpace and LineTerminator). *)
Definition isWhiteSpace (c : N) : bool :=
  ((9 <=? c) && (c <=? 13) || (c =? 32) || (c =? 160) || (c =? 5760)
   || (8192 <=? c) && (c <=? 8202) || (c =? 8232) || (c =? 8233)
   || (c =? 8239) || (c =? 8287) || (c =? 12288) || (c =? 65279))%N.

(** LineTerminator: LF, CR, LS, PS. *)
Definition isLineTerminator (c : N) : bool :=
  ((c =? 10) || (c =? 13) || (c =? 8232) || (c =? 8233))%N.

Fixpoint trimStart (s : jsstring) : jsstring :=
  match s with
  | c :: s' => if isWhiteSpace c then trimStart s' else s
  | [] => []
  end.

Definition trimEnd (s : jsstring) : jsstring := rev (trimStart (rev s)).

Definition trim (s : jsstring) : jsstring := trimEnd (trimStart s).

(** [s.startsWith(p)] *)
Fixpoint startsWith (s p : jsstring) : bool :=
  match p, s with
  | [], _ => true
  | c :: p', d :: s' => N.eqb d c && startsWith s' p'
  | _ :: _, [] => false
  end.

(** [s.includes(p)] *)
Fixpoint includes (s p : jsstring) : bool :=
  startsWith s p ||
  match s with
  | [] => false
  | _ :: s' => includes s' p
  end.

(** [s.substring(1)] *)
Definition substring1 (s : jsstring) : jsstring := tl s.

(** [s.replace(/c/g, r)] for a one-character pattern. *)
Definition replaceAllChar (c : N) (r : jsstring) (s : jsstring) : jsstring :=
  flat_map (fun x => if N.eqb x c then r else [x]) s.

(** [s.split(/\s+/)]: the pieces between the maximal runs of white
    space; a run at either end leaves an empty piece there.  [cur] is
    the piece being read, reversed; [inRun] says that the previous
    code unit was white space. *)
Fixpoint splitWsFrom (cur : jsstring) (inRun : bool) (s : jsstring)
  : list jsstring :=
  match s with
  | [] => [rev cur]
  | c :: s' =>
      if isWhiteSpace c
      then if inRun then splitWsFrom cur true s'
           else rev cur :: splitWsFrom [] true s'
      else splitWsFrom (c :: cur) false s'
  end.

Definition splitWs (s : jsstring) : list jsstring := splitWsFrom [] false s.

(** [s.replace(pat, rep)] with a string pattern and a replacement
    that holds no [$]: only the first occurrence is replaced. *)
Fixpoint replaceFirst (pat rep s : jsstring) : jsstring :=
  if startsWith s pat then rep ++ skipn (length pat) s
  else match s with
       | [] => []
       | c :: s' => c :: replaceFirst pat rep s'
       end.

(** [String(n)] for an integer [n]. *)
Fixpoint digitsOfPos (fuel : nat) (n : Z) (acc : jsstring) : jsstring :=
  match fuel with
  | O => acc
  | S fuel' =>
      let acc' := Z.to_N (48 + n mod 10) :: acc in
      if (n <? 10)%Z then acc' else digitsOfPos fuel' (n / 10)%Z acc'
  end.

Definition ofZ (n : Z) : jsstring :=
  if (n <? 0)%Z
  then 45%N :: digitsOfPos (S (Z.to_nat (Z.log2 (- n)))) (- n)%Z []
  else digitsOfPos (S (Z.to_nat (Z.log2 n))) n [].

(** [s.padStart(n, "0")] *)
Definition padStart0 (n : nat) (s : jsstring) : jsstring :=
  repeat 48%N (n - length s) ++ s.

(** [s.toLowerCase()] on code units.  Only the ASCII letters are
    mapped; the source compares the result with the ASCII literal
    ['x'], and no other character lower-cases to an ASCII letter
    except the Kelvin sign (to [k]), so that comparison is exact. *)
Definition toLowerCase (s : jsstring) : jsstring :=
  map (fun c => if ((65 <=? c) && (c <=? 90))%N then (c + 32)%N else c) s.

End JsString.

Import JsString.

(* ================================================================== *)
(** * Regular expressions *)
(* ================================================================== *)

(** A backtracking matcher with the priorities of ECMAScript: the left
    alternative first, greedy repetition, the leftmost start position.
    The matcher is written in continuation-passing style over the input
    split into the code units already read ([pre], reversed) and those
    still to read ([rest]). *)
Module RegExp.

Inductive regex :=
| Eps
| Chr (p : N -> bool)            (* one code unit that satisfies [p] *)
| Seq (a b : regex)
| Alt (a b : regex)
| Star (a : regex)               (* greedy [a*] *)
| LineStart                      (* [^] under the [m] flag *)
| LineEnd                        (* [$] under the [m] flag *)
| Capture (n : nat) (a : regex).

Definition Plus (a : regex) : regex := Seq a (Star a).
Definition Opt (a : regex) : regex := Alt a Eps.

Fixpoint cat (l : list regex) : regex :=
  match l with
  | [] => Eps
  | [a] => a
  | a :: l' => Seq a (cat l')
  end.

(** A literal character, [.], [\s], [\d], a character class, and a
    literal character under the [i] flag.  Without the [u] flag a
    character of the [i] flag is compared after upper-casing, and a
    code unit above 127 never folds onto an ASCII one. *)
Definition chr (c : string) : regex :=
  Chr (fun x => match lit c with [y] => N.eqb x y | _ => false end).
Definition unit (c : N) : regex := Chr (N.eqb c).
Definition dot : regex := Chr (fun x => negb (isLineTerminator x)).
Definition space : regex := Chr isWhiteSpace.
Definition digit : regex := Chr (fun x => (48 <=? x) && (x <=? 57))%N.
Definition oneOf (cs : string) : regex :=
  Chr (fun x => existsb (N.eqb x) (lit cs)).
Definition upper (c : N) : N :=
  if ((97 <=? c) && (c <=? 122))%N then (c - 32)%N else c.
Definition chrI (c : string) : regex :=
  Chr (fun x => match lit c with
                | [y] => N.eqb (upper x) (upper y)
                | _ => false
                end).

Definition captures := list (nat * jsstring).

Fixpoint capture (n : nat) (c : captures) : option jsstring :=
  match c with
  | [] => None
  | (m, s) :: c' => if Nat.eqb m n then Some s else capture n c'
  end.

Section Run.
Context {A : Type}.

(** An iteration of [Star] that reads nothing is rejected, as in
    ECMAScript, so a loop makes at most [length rest] rounds. *)
Fixpoint run (r : regex) (pre rest : jsstring) (c : captures)
  (k : jsstring -> jsstring -> captures -> option A) {struct r}
  : option A :=
  match r with
  | Eps => k pre rest c
  | Chr p =>
      match rest with
      | x :: rest' => if p x then k (x :: pre) rest' c else None
      | [] => None
      end
  | Seq a b =>
      run a pre rest c (fun pre' rest' c' => run b pre' rest' c' k)
  | Alt a b =>
      match run a pre rest c k with
      | Some x => Some x
      | None => run b pre rest c k
      end
  | Star a =>
      (fix loop (n : nat) (pre rest : jsstring) (c : captures)
         {struct n} : option A :=
         match n with
         | O => k pre rest c
         | S n' =>
             match run a pre rest c
                     (fun pre' rest' c' =>
                        if (length rest' <? length rest)%nat
                        then loop n' pre' rest' c' else None) with
             | Some x => Some x
             | None => k pre rest c
             end
         end) (length rest) pre rest c
  | LineStart =>
      match pre with
      | [] => k pre rest c
      | x :: _ => if isLineTerminator x then k pre rest c else None
      end
  | LineEnd =>
      match rest with
      | [] => k pre rest c
      | x :: _ => if isLineTerminator x then k pre rest c else None
      end
  | Capture n a =>
      run a pre rest c
        (fun pre' rest' c' =>
           k pre' rest'
             ((n, firstn (length rest - length rest') rest) :: c'))
  end.
End Run.

(** A successful match: where it starts, what it covers, its capture
    groups, and the input around its end. *)
Record MatchResult := mkMatch {
  matchIndex : nat;
  matchText : jsstring;
  matchGroups : captures;
  matchPre : jsstring;
  matchRest : jsstring
}.

(** The leftmost match at or after the current position. *)
Fixpoint searchFrom (r : regex) (pre rest : jsstring) : option MatchResult :=
  match run r pre rest []
          (fun pre' rest' c' =>
             Some (mkMatch (length pre)
                     (firstn (length rest - length rest') rest)
                     c' pre' rest')) with
  | Some m => Some m
  | None =>
      match rest with
      | [] => None
      | x :: rest' => searchFrom r (x :: pre) rest'
      end
  end.

(** [s.match(r)] and [r.exec(s)] for a regular expression without the
    [g] flag. *)
Definition exec (r : regex) (s : jsstring) : option MatchResult :=
  searchFrom r [] s.

(** The loop [while ((match = r.exec(s)) !== null)] for a regular
    expression with the [g] flag, whose [lastIndex] starts at 0 and
    moves to the end of each match.  [None]: the fuel ran out. *)
Fixpoint execAllFrom (fuel : nat) (r : regex) (pre rest : jsstring)
  : option (list MatchResult) :=
  match fuel with
  | O => None
  | S fuel' =>
      match searchFrom r pre rest with
      | None => Some []
      | Some m =>
          match execAllFrom fuel' r (matchPre m) (matchRest m) with
          | Some ms => Some (m :: ms)
          | None => None
          end
      end
  end.

Definition execAll (r : regex) (s : jsstring) : option (list MatchResult) :=
  execAllFrom (S (length s)) r [] s.

End RegExp.

Import RegExp.

(* ================================================================== *)
(** * Dates *)
(* ================================================================== *)

(** A [Date] object holds a time value: a number of milliseconds since
    the epoch, or [NaN] (an Invalid Date).  The limit of 8.64e15 ms on
    time values is not modelled.  Local time is UTC shifted by a fixed
    offset [tza] (milliseconds); daylight-saving changes of the offset
    are not modelled. *)
Module JsDate.

Open Scope Z_scope.

Inductive Date :=
| InvalidDate
| ValidDate (t : Z).

(** [a > b], [a >= b], [a <= b] on Dates compare the time values as
    numbers; every comparison with [NaN] is false. *)
Definition gt (a b : Date) : bool :=
  match a, b with
  | ValidDate x, ValidDate y => y <? x
  | _, _ => false
  end.

Definition ge (a b : Date) : bool :=
  match a, b with
  | ValidDate x, ValidDate y => y <=? x
  | _, _ => false
  end.

Definition le (a b : Date) : bool :=
  match a, b with
  | ValidDate x, ValidDate y => x <=? y
  | _, _ => false
  end.

Definition msPerDay : Z := 86400000.

(** ECMAScript [Day], [DayFromYear], [DaysInYear], [YearFromTime]
    stated on day numbers. *)
Definition Day (t : Z) : Z := t / msPerDay.

Definition DayFromYear (y : Z) : Z :=
  365 * (y - 1970) + (y - 1969) / 4 - (y - 1901) / 100 + (y - 1601) / 400.

Definition isLeap (y : Z) : bool :=
  ((y mod 4 =? 0) && negb (y mod 100 =? 0)) || (y mod 400 =? 0).

Definition DaysInYear (y : Z) : Z := if isLeap y then 366 else 365.

(** The year [y] with [DayFromYear y <= d < DayFromYear (y + 1)]: an
    estimate from the mean year length, corrected by one. *)
Definition YearFromDay (d : Z) : Z :=
  let y := 1970 + (400 * d) / 146097 in
  if d <? DayFromYear y then y - 1
  else if DayFromYear (y + 1) <=? d then y + 1
  else y.

(** Day number, within its year, of the first day of month [m]
    (0 = January). *)
Definition monthStart (leap : bool) (m : Z) : Z :=
  let l := if leap then 1 else 0 in
  match m with
  | 0 => 0
  | 1 => 31
  | 2 => 59 + l
  | 3 => 90 + l
  | 4 => 120 + l
  | 5 => 151 + l
  | 6 => 181 + l
  | 7 => 212 + l
  | 8 => 243 + l
  | 9 => 273 + l
  | 10 => 304 + l
  | 11 => 334 + l
  | _ => 365 + l
  end.

Definition MonthFromDay (d : Z) : Z :=
  let y := YearFromDay d in
  let w := d - DayFromYear y in
  let leap := isLeap y in
  if w <? monthStart leap 1 then 0
  else if w <? monthStart leap 2 then 1
  else if w <? monthStart leap 3 then 2
  else if w <? monthStart leap 4 then 3
  else if w <? monthStart leap 5 then 4
  else if w <? monthStart leap 6 then 5
  else if w <? monthStart leap 7 then 6
  else if w <? monthStart leap 8 then 7
  else if w <? monthStart leap 9 then 8
  else if w <? monthStart leap 10 then 9
  else if w <? monthStart leap 11 then 10
  else 11.

Definition DateFromDay (d : Z) : Z :=
  let y := YearFromDay d in
  d - DayFromYear y - monthStart (isLeap y) (MonthFromDay d) + 1.

(** [WeekDay]: 0 = Sunday; day 0 (1 January 1970) was a Thursday. *)
Definition WeekDayOfDay (d : Z) : Z := (d + 4) mod 7.

(** [MakeDay(year, month, date)]: months outside 0..11 carry into the
    year, and [date] is an offset from the first of the month, so day
    0 is the last day of the month before. *)
Definition MakeDay (year month date : Z) : Z :=
  let ym := year + month / 12 in
  let mn := month mod 12 in
  DayFromYear ym + monthStart (isLeap ym) mn + date - 1.

Definition fullYearOf (year : Z) : Z :=
  if (0 <=? year) && (year <=? 99) then 1900 + year else year.

Section Zone.
Variable tza : Z.

Definition LocalTime (t : Z) : Z := t + tza.
Definition UTC (t : Z) : Z := t - tza.

(** [new Date(year, month, date)]: local midnight of that day; a
    year from 0 to 99 stands for 1900 + year. *)
Definition newDate (year month date : Z) : Z :=
  UTC (MakeDay (fullYearOf year) month date * msPerDay).

Definition getFullYear (t : Z) : Z := YearFromDay (Day (LocalTime t)).
Definition getMonth (t : Z) : Z := MonthFromDay (Day (LocalTime t)).
Definition getDate (t : Z) : Z := DateFromDay (Day (LocalTime t)).
Definition getDay (t : Z) : Z := WeekDayOfDay (Day (LocalTime t)).

(** [d.setHours(23, 59, 59, 999)] *)
Definition endOfDay (d : Date) : Date :=
  match d with
  | InvalidDate => InvalidDate
  | ValidDate t =>
      ValidDate (UTC (Day (LocalTime t) * msPerDay + 86399999))
  end.
End Zone.

End JsDate.

Import JsDate.

(* ================================================================== *)
(** * The filter engine of taskService.ts *)
(* ================================================================== *)

Module TaskService.

Record Task := mkTask {
  text : jsstring;
  completed : bool;
  filePath : jsstring;
  dueDate : option Date;
  rawText : jsstring
}.

Record NoteTemplateSettings := mkNoteTemplateSettings {
  savePath : jsstring;
  templatePath : jsstring;
  fileNameFormat : jsstring
}.

Record TaskFilterSettings := mkTaskFilterSettings {
  customFilter : jsstring
}.

Record MyPluginSettings := mkSettings {
  dailyNote : NoteTemplateSettings;
  weeklyNote : NoteTemplateSettings;
  monthlyNote : NoteTemplateSettings;
  quarterlyNote : NoteTemplateSettings;
  yearlyNote : NoteTemplateSettings;
  taskFilter : TaskFilterSettings
}.

Inductive FilterRuleType := include | exclude.

Record FilterRule := mkRule {
  type : FilterRuleType;
  value : jsstring;
  isTag : bool
}.

Inductive LogicalOperator := opAnd | opOr.

(** The three shapes of node that the parser builds.  (The
    TypeScript interface makes every field optional and the
    evaluator answers [true] when one is absent; the parser never
    builds such a node.) *)
Inductive ExpressionNode :=
| rule (r : FilterRule)
| logical (operator : LogicalOperator) (lhs rhs : ExpressionNode)
| group (expressions : list ExpressionNode).

(** *** regexUtils.ts *)

Definition isRegExpSpecial (c : N) : bool :=
  existsb (N.eqb c) (lit ".*+?^${}()|[]\").

(** [escapeRegExp]: a backslash before every special character. *)
Definition escapeRegExp (s : jsstring) : jsstring :=
  flat_map (fun c => if isRegExpSpecial c then [92%N; c] else [c]) s.

(** [/^\s*-\s*\[(.)\]\s*(.+)$/gm] *)
Definition taskRegex : regex :=
  cat [LineStart; Star space; chr "-"; Star space; chr "[";
       Capture 1 dot; chr "]"; Star space; Capture 2 (Plus dot); LineEnd].

(** [/(?:[@#]|due:\s?|<U+1F4C5>\s?)(\d{4}-\d{2}-\d{2})/i]; the calendar
    emoji is the surrogate pair D83D DCC5. *)
Definition dueDateRegex : regex :=
  Seq (Alt (oneOf "@#")
        (Alt (cat [chrI "d"; chrI "u"; chrI "e"; chr ":"; Opt space])
             (cat [unit 55357; unit 56517; Opt space])))
      (Capture 1
         (cat [digit; digit; digit; digit; chr "-"; digit; digit;
               chr "-"; digit; digit])).

(** *** Extraction *)

Definition digitValue (c : N) : Z := Z.of_N c - 48.

(** [new Date(s)] for a string of the shape [YYYY-MM-DD], the only
    one that [dueDateRegex] captures.  A date-only string is read as
    UTC midnight of that day; a month outside 1..12 or a day outside
    1..31 gives an Invalid Date, and a day past the end of its month
    runs into the next month (the behaviour of V8, on which the host
    application runs). *)
Definition newDateFromString (s : jsstring) : Date :=
  match s with
  | [y1; y2; y3; y4; _; m1; m2; _; d1; d2] =>
      let y := 1000 * digitValue y1 + 100 * digitValue y2
               + 10 * digitValue y3 + digitValue y4 in
      let m := 10 * digitValue m1 + digitValue m2 in
      let d := 10 * digitValue d1 + digitValue d2 in
      if (1 <=? m) && (m <=? 12) && (1 <=? d) && (d <=? 31)
      then ValidDate (MakeDay y (m - 1) d * msPerDay)
      else InvalidDate
  | _ => InvalidDate
  end.

(** The body of the extraction loop for one match of [taskRegex]. *)
Definition taskOfMatch (path : jsstring) (m : MatchResult) : list Task :=
  match capture 1 (matchGroups m), capture 2 (matchGroups m) with
  | Some m1, Some m2 =>
      if truthy m1 && truthy m2 then
        let completed := eqb (toLowerCase m1) (lit "x") in
        let rawText := trim m2 in
        let dateMatch := exec dueDateRegex rawText in
        let dueDate :=
          match dateMatch with
          | Some dm =>
              match capture 1 (matchGroups dm) with
              | Some ds => if truthy ds then Some (newDateFromString ds)
                           else None
              | None => None
              end
          | None => None
          end in
        [mkTask rawText completed path dueDate rawText]
      else []
  | _, _ => []
  end.

(** A markdown file of the vault: its path and its content, [None]
    when reading it fails. *)
Definition File := (jsstring * option jsstring)%type.

(** [extractBasicTasks]: the files in order; a file that cannot be
    read is skipped.  [None]: the fuel of a match loop ran out. *)
Fixpoint extractBasicTasks (allFiles : list File) : option (list Task) :=
  match allFiles with
  | [] => Some []
  | (path, None) :: files => extractBasicTasks files
  | (path, Some content) :: files =>
      match execAll taskRegex content, extractBasicTasks files with
      | Some ms, Some tasks => Some (flat_map (taskOfMatch path) ms ++ tasks)
      | _, _ => None
      end
  end.

(** *** Toggling a task *)

(** The regular expression of [updateTaskInNote].  It is built from a
    template literal, in which the escapes [\s], [\[] and [\]] stand
    for [s], [[] and []]: the pattern handed to [RegExp] is
    [^s*-s*[(.)]s*] followed by the escaped raw text.  [literalOf]
    reads the escaped text, where a backslash makes the next
    character literal. *)
Fixpoint literalOf (escaped : jsstring) : list regex :=
  match escaped with
  | [] => []
  | c :: rest =>
      if N.eqb c 92
      then match rest with
           | d :: rest' => unit d :: literalOf rest'
           | [] => []
           end
      else unit c :: literalOf rest
  end.

Definition updateTaskRegex (rawText : jsstring) : regex :=
  cat ([LineStart; Star (chr "s"); chr "-"; Star (chr "s"); oneOf "(.)";
        Star (chr "s")] ++ literalOf (escapeRegExp rawText)).

(** [updateTaskInNote]: the content written back to the note.  The
    pattern has no capture group, so the second argument of the
    replacement callback, which the source names [status], is the
    offset of the match. *)
Definition updateTaskInNote (content : jsstring) (task : Task)
  (completed : bool) : jsstring :=
  match exec (updateTaskRegex (rawText task)) content with
  | None => content
  | Some m =>
      let status := ofZ (Z.of_nat (matchIndex m)) in
      firstn (matchIndex m) content
      ++ replaceFirst (lit "[" ++ status ++ lit "]")
           (if completed then lit "[x]" else lit "[ ]") (matchText m)
      ++ matchRest m
  end.

(** *** The filter language *)

Definition tokenizeFilter (filterString : jsstring) : list jsstring :=
  let normalizedString :=
    replaceAllChar 41 (lit " ) ")
      (replaceAllChar 40 (lit " ( ") filterString) in
  filter (fun token => truthy (trim token)) (splitWs normalizedString).

(** The parser of [parseTokens]: recursive descent over [tokens] with
    the cursor [index] passed in and returned.  The recursion is
    bounded by [fuel]; [None] means that the fuel ran out. *)
Section Parser.
Variable tokens : list jsstring.

Definition tokenIs (index : nat) (s : string) : bool :=
  match nth_error tokens index with
  | Some t => eqb t (lit s)
  | None => false
  end.

Definition parseRule (index : nat) : ExpressionNode * nat :=
  let token := nth_error tokens index in
  let value := match token with Some t => t | None => [] end in
  let '(type, value) :=
    match token with
    | Some t =>
        if truthy t && startsWith t (lit "!")
        then (exclude, substring1 t) else (include, value)
    | None => (include, value)
    end in
  let '(isTag, value) :=
    if truthy value && startsWith value (lit "#")
    then (true, substring1 value) else (false, value) in
  (rule (mkRule type value isTag), S index).

(** The [while] loop of a group: sub-expressions up to [')'] or the
    end of the tokens. *)
Fixpoint groupLoop (parseExpression : nat -> option (ExpressionNode * nat))
  (n : nat) (index : nat) (expressions : list ExpressionNode)
  : option (list ExpressionNode * nat) :=
  match n with
  | O => None
  | S n' =>
      if (index <? length tokens)%nat && negb (tokenIs index ")")
      then match parseExpression index with
           | Some (e, index') =>
               groupLoop parseExpression n' index' (expressions ++ [e])
           | None => None
           end
      else Some (expressions, index)
  end.

Definition parsePrimaryExpression
  (parseExpression : nat -> option (ExpressionNode * nat))
  (n : nat) (index : nat) : option (ExpressionNode * nat) :=
  if tokenIs index "("
  then match groupLoop parseExpression n (S index) [] with
       | Some (expressions, index) =>
           let index :=
             if (index <? length tokens)%nat && tokenIs index ")"
             then S index else index in
           Some (group expressions, index)
       | None => None
       end
  else Some (parseRule index).

(** The [while] loop of [parseLogicalExpression]. *)
Fixpoint logicalLoop (parsePrimary : nat -> option (ExpressionNode * nat))
  (n : nat) (lhs : ExpressionNode) (index : nat)
  : option (ExpressionNode * nat) :=
  match n with
  | O => None
  | S n' =>
      if (index <? length tokens)%nat
         && (tokenIs index "and" || tokenIs index "or")
      then
        let operator := if tokenIs index "and" then opAnd else opOr in
        match parsePrimary (S index) with
        | Some (rhs, index') =>
            logicalLoop parsePrimary n' (logical operator lhs rhs) index'
        | None => None
        end
      else Some (lhs, index)
  end.

Definition parseLogicalExpression
  (parsePrimary : nat -> option (ExpressionNode * nat))
  (n : nat) (index : nat) : option (ExpressionNode * nat) :=
  match parsePrimary index with
  | Some (lhs, index) => logicalLoop parsePrimary n lhs index
  | None => None
  end.

Fixpoint parseExpression (fuel : nat) (index : nat)
  : option (ExpressionNode * nat) :=
  match fuel with
  | O => None
  | S fuel' =>
      parseLogicalExpression
        (parsePrimaryExpression (parseExpression fuel') fuel')
        fuel' index
  end.

Definition parseTokens : option ExpressionNode :=
  match parseExpression (length tokens + 2) 0 with
  | Some (e, _) => Some e
  | None => None
  end.
End Parser.

(** The result of [parseCustomFilter]: [Some None] is JavaScript's
    [null], [Some (Some e)] a tree, and [None] says that the model's
    fuel ran out. *)
Definition parseCustomFilter (filterString : jsstring)
  : option (option ExpressionNode) :=
  if negb (truthy (trim filterString)) then Some None
  else
    let tokens := tokenizeFilter filterString in
    if (length tokens =? 0)%nat then Some None
    else match parseTokens tokens with
         | Some e => Some (Some e)
         | None => None
         end.

Definition matchFilterRule (task : Task) (r : FilterRule) : bool :=
  if isTag r
  then includes (rawText task) (lit "#" ++ value r)
  else
    let filePath := filePath task in
    startsWith filePath (value r ++ lit "/") || eqb filePath (value r).

Fixpoint evaluateExpression (task : Task) (node : ExpressionNode) : bool :=
  match node with
  | rule r =>
      let matches := matchFilterRule task r in
      match type r with
      | include => matches
      | exclude => negb matches
      end
  | logical operator lhs rhs =>
      let leftResult := evaluateExpression task lhs in
      let rightResult := evaluateExpression task rhs in
      match operator with
      | opAnd => leftResult && rightResult
      | opOr => leftResult || rightResult
      end
  | group expressions =>
      match expressions with
      | [] => true
      | _ :: _ => existsb (evaluateExpression task) expressions
      end
  end.

(** [filterTasks]: [None] only if the parser's fuel ran out. *)
Definition filterTasks (tza : Z) (tasks : list Task)
  (settings : MyPluginSettings) (filterDate : Date) : option (list Task) :=
  let customFilter := customFilter (taskFilter settings) in
  match parseCustomFilter customFilter with
  | None => None
  | Some expression =>
      Some (filter (fun task =>
        if match dueDate task with
           | Some due => gt due (endOfDay tza filterDate)
           | None => false
           end
        then false
        else match expression with
             | None => true
             | Some e => evaluateExpression task e
             end) tasks)
  end.

End TaskService.

Import TaskService.

(* ================================================================== *)
(** * The range filter of CalendarView.ts *)
(* ================================================================== *)

Module CalendarView.

Inductive TaskStatusFilter := all | todo | done.

(** The task list that [renderTaskListByDateRange] hands to the
    renderer.  [settings] stands for [this.plugin.settings], which
    the method passes to the extraction only, and [allTasks] for the
    extracted tasks. *)
Definition filteredByDateRange (allTasks : list Task)
  (startDate endDate : Date) : list Task :=
  filter (fun task =>
    match dueDate task with
    | None => false
    | Some due => ge due startDate && le due endDate
    end) allTasks.

Definition renderTaskListByDateRange (settings : MyPluginSettings)
  (taskStatusFilter : TaskStatusFilter) (allTasks : list Task)
  (startDate endDate : Date) : list Task :=
  let filteredByDateRange := filteredByDateRange allTasks startDate endDate in
  match taskStatusFilter with
  | todo => filter (fun task => negb (completed task)) filteredByDateRange
  | done => filter (fun task => completed task) filteredByDateRange
  | all => filteredByDateRange
  end.

End CalendarView.

Import CalendarView.

(* ================================================================== *)
(** * dateUtils.ts *)
(* ================================================================== *)

(** The functions below are modelled for valid Dates, given by their
    time value. *)
Module DateUtils.

Open Scope Z_scope.

(** Modelled from the spec: [isoWeek()] and [isoWeekYear()] of the
    dayjs package, which [getWeekInfo] calls and which is not among
    the sources.  ISO-8601 week numbering on day numbers: weeks start
    on Monday, and week 1 of a year is the week that contains the
    year's first Thursday.  A day therefore belongs to the week-year
    of the Thursday of its week, and its week number counts the weeks
    from the first Thursday of that year. *)
Definition isoWeekday (d : Z) : Z :=
  let w := WeekDayOfDay d in if w =? 0 then 7 else w.

Definition thursdayOfWeek (d : Z) : Z := d + (4 - isoWeekday d).

Definition firstThursday (y : Z) : Z :=
  let j := DayFromYear y in
  j + (4 - isoWeekday j) + (if 4 <? isoWeekday j then 7 else 0).

Definition isoWeekYear (d : Z) : Z := YearFromDay (thursdayOfWeek d).

Definition isoWeek (d : Z) : Z :=
  (thursdayOfWeek d - firstThursday (isoWeekYear d)) / 7 + 1.

(** [Math.ceil(a / b)] for integers [a] and [b > 0]. *)
Definition ceilDiv (a b : Z) : Z := - ((- a) / b).

Record WeekInfo := mkWeekInfo { week : Z; year : Z }.

Record Cell := mkCell { date : Z; isOtherMonth : bool }.

Record CalendarMonthData := mkCalendarMonthData {
  currentYear : Z;
  currentMonth : Z;
  firstDayOfMonth : Z;
  daysInMonth : Z;
  prevMonthDaysToShow : Z;
  rowsNeeded : Z;
  lastDayOfPrevMonth : Z;
  firstDayOfNextMonth : Z
}.

Section Zone.
Variable tza : Z.

Definition getWeekInfo (date : Z) : WeekInfo :=
  let d := Day (LocalTime tza date) in
  mkWeekInfo (isoWeek d) (isoWeekYear d).

Definition getWeekNumber (date : Z) : Z := week (getWeekInfo date).

Definition getQuarter (date : Z) : Z := (getMonth tza date + 3) / 3.

(** [format] stands for the [format] method of dayjs, which is not
    among the sources. *)
Definition formatDate (format : Z -> jsstring -> jsstring)
  (date : Z) (fmt : jsstring) : jsstring :=
  let weekInfo := getWeekInfo date in
  let week := padStart0 2 (ofZ (week weekInfo)) in
  let weekYear := year weekInfo in
  let result :=
    replaceFirst (lit "Q") (ofZ (getQuarter date))
      (replaceFirst (lit "WW") week
         (replaceFirst (lit "GGGG") (ofZ weekYear) fmt)) in
  format date result.

Definition getFirstDayOfMonth (date : Z) : Z :=
  let firstDay := newDate tza (getFullYear tza date) (getMonth tza date) 1 in
  getDay tza firstDay.

Definition getDaysInMonth (date : Z) : Z :=
  getDate tza
    (newDate tza (getFullYear tza date) (getMonth tza date + 1) 0).

Definition getPrevMonthDaysToShow (firstDayOfMonth : Z) : Z :=
  if firstDayOfMonth =? 0 then 6 else firstDayOfMonth - 1.

Definition getCalendarRows (prevMonthDaysToShow daysInMonth : Z) : Z :=
  ceilDiv (prevMonthDaysToShow + daysInMonth) 7.

Definition getCellDate (rowIndex dayIndex : Z) (currentDate : Z) : Cell :=
  let currentYear := getFullYear tza currentDate in
  let currentMonth := getMonth tza currentDate in
  let firstDayOfMonth := getFirstDayOfMonth currentDate in
  let prevMonthDaysToShow := getPrevMonthDaysToShow firstDayOfMonth in
  let daysInMonth := getDaysInMonth currentDate in
  let totalCells := rowIndex * 7 + dayIndex in
  if totalCells <? prevMonthDaysToShow then
    let prevMonth := currentMonth - 1 in
    let prevMonthYear :=
      if currentMonth =? 0 then currentYear - 1 else currentYear in
    let prevMonthDays :=
      getDaysInMonth (newDate tza prevMonthYear prevMonth 1) in
    let day := prevMonthDays - prevMonthDaysToShow + totalCells + 1 in
    mkCell (newDate tza prevMonthYear prevMonth day) true
  else if totalCells <? prevMonthDaysToShow + daysInMonth then
    let day := totalCells - prevMonthDaysToShow + 1 in
    mkCell (newDate tza currentYear currentMonth day) false
  else
    let nextMonth := currentMonth + 1 in
    let nextMonthYear :=
      if currentMonth =? 11 then currentYear + 1 else currentYear in
    let day := totalCells - prevMonthDaysToShow - daysInMonth + 1 in
    mkCell (newDate tza nextMonthYear nextMonth day) true.

Definition getCalendarMonthData (currentDate : Z) : CalendarMonthData :=
  let currentYear := getFullYear tza currentDate in
  let currentMonth := getMonth tza currentDate in
  let firstDayOfMonth := getFirstDayOfMonth currentDate in
  let daysInMonth := getDaysInMonth currentDate in
  let prevMonthDaysToShow := getPrevMonthDaysToShow firstDayOfMonth in
  let rowsNeeded := getCalendarRows prevMonthDaysToShow daysInMonth in
  let lastDayOfPrevMonth := newDate tza currentYear currentMonth 0 in
  let firstDayOfNextMonth := newDate tza currentYear (currentMonth + 1) 1 in
  mkCalendarMonthData currentYear currentMonth firstDayOfMonth daysInMonth
    prevMonthDaysToShow rowsNeeded lastDayOfPrevMonth firstDayOfNextMonth.

(** The two [for] loops of [getMonthDates]: rows [0 .. rowsNeeded - 1],
    days [0 .. 6]. *)
Definition getMonthDates (currentDate : Z) : list (list Cell) :=
  let data := getCalendarMonthData currentDate in
  map (fun row =>
         map (fun day => getCellDate (Z.of_nat row) (Z.of_nat day) currentDate)
           (seq 0 7))
    (seq 0 (Z.to_nat (rowsNeeded data))).
End Zone.

End DateUtils.

Import DateUtils.

(* ================================================================== *)
(** * Date setters *)
(* ================================================================== *)

(** [setDate], [setMonth] and [setFullYear] of a valid Date: the local
    time is taken apart, one field is replaced (out-of-range values
    carry, as in [MakeDay]) and the time within the day is kept. *)
Module JsDateSet.

Open Scope Z_scope.

Definition TimeWithinDay (t : Z) : Z := t mod msPerDay.

Section Zone.
Variable tza : Z.

Definition setDate (t dt : Z) : Z :=
  let lt := LocalTime tza t in
  UTC tza (MakeDay (YearFromDay (Day lt)) (MonthFromDay (Day lt)) dt
             * msPerDay + TimeWithinDay lt).

Definition setMonth (t m : Z) : Z :=
  let lt := LocalTime tza t in
  UTC tza (MakeDay (YearFromDay (Day lt)) m (DateFromDay (Day lt))
             * msPerDay + TimeWithinDay lt).

Definition setFullYear (t y : Z) : Z :=
  let lt := LocalTime tza t in
  UTC tza (MakeDay y (MonthFromDay (Day lt)) (DateFromDay (Day lt))
             * msPerDay + TimeWithinDay lt).
End Zone.

End JsDateSet.

Import JsDateSet.

(* ================================================================== *)
(** * dateUtils.ts: weeks, shifts and quarters *)
(* ================================================================== *)

Module DateShift.

Open Scope Z_scope.

Section Zone.
Variable tza : Z.

Definition isWeekend (date : Z) : bool :=
  let day := getDay tza date in
  (day =? 0) || (day =? 6).

(** [getWeekDates]: the Monday of the date's week, then the seven
    days from it. *)
Definition getWeekDates (date : Z) : list Z :=
  let dayOfWeek := getDay tza date in
  let monday :=
    setDate tza date
      (getDate tza date - (if dayOfWeek =? 0 then 6 else dayOfWeek - 1)) in
  map (fun i => setDate tza monday (getDate tza monday + Z.of_nat i))
    (seq 0 7).

Definition getPrevMonthDate (date : Z) : Z :=
  let prevMonth := getMonth tza date - 1 in
  let prevMonthYear :=
    if getMonth tza date =? 0 then getFullYear tza date - 1
    else getFullYear tza date in
  newDate tza prevMonthYear prevMonth (getDate tza date).

Definition getNextMonthDate (date : Z) : Z :=
  let nextMonth := getMonth tza date + 1 in
  let nextMonthYear :=
    if getMonth tza date =? 11 then getFullYear tza date + 1
    else getFullYear tza date in
  newDate tza nextMonthYear nextMonth (getDate tza date).

Definition getPrevYearDate (date : Z) : Z :=
  newDate tza (getFullYear tza date - 1) (getMonth tza date) (getDate tza date).

Definition getNextYearDate (date : Z) : Z :=
  newDate tza (getFullYear tza date + 1) (getMonth tza date) (getDate tza date).

Definition getQuarterStartDate (date : Z) : Z :=
  let quarter := getQuarter tza date in
  let startMonth := (quarter - 1) * 3 in
  newDate tza (getFullYear tza date) startMonth 1.

Definition getQuarterEndDate (date : Z) : Z :=
  let quarter := getQuarter tza date in
  let endMonth := quarter * 3 in
  newDate tza (getFullYear tza date) endMonth 0.
End Zone.

End DateShift.

Import DateShift.

(* ================================================================== *)
(** * The navigation of eventHandler.ts *)
(* ================================================================== *)

Module EventHandler.

Open Scope Z_scope.

Inductive Direction := prev | next.
Inductive NavigationUnit := year | month | quarter.

(** [handleNavigationClick]: the date handed to [onUpdateDate]. *)
Definition handleNavigationClick (tza : Z) (direction : Direction)
  (unit : NavigationUnit) (currentDate : Z) : Z :=
  let newDate := currentDate in
  match unit with
  | year =>
      setFullYear tza newDate
        (getFullYear tza newDate
         + match direction with prev => -1 | next => 1 end)
  | month =>
      setMonth tza newDate
        (getMonth tza newDate
         + match direction with prev => -1 | next => 1 end)
  | quarter =>
      setMonth tza newDate
        (getMonth tza newDate
         + match direction with prev => -3 | next => 3 end)
  end.

End EventHandler.

(* ================================================================== *)
(** * CalendarView.ts: the task list of a day and the week rows *)
(* ================================================================== *)

Module CalendarViewLists.

Open Scope Z_scope.

(** The task list that [renderTaskList] hands to the renderer:
    [filterTasks], then the status filter. *)
Definition renderTaskList (tza : Z) (settings : MyPluginSettings)
  (taskStatusFilter : TaskStatusFilter) (allTasks : list Task)
  (date : Date) : option (list Task) :=
  match filterTasks tza allTasks settings date with
  | None => None
  | Some filteredByDate =>
      Some match taskStatusFilter with
           | todo => filter (fun task => negb (completed task)) filteredByDate
           | done => filter (fun task => completed task) filteredByDate
           | all => filteredByDate
           end
  end.

(** The week-number cell of row [index] in [addCalendarCellEventListeners]:
    the start of the row, its adjustment to a Monday, and the range of
    the click handler. *)
Section Zone.
Variable tza : Z.

Definition weekStartDate (index : Z) (currentDate : Z) : Z :=
  let currentYear := getFullYear tza currentDate in
  let currentMonth := getMonth tza currentDate in
  let firstDay := newDate tza currentYear currentMonth 1 in
  let startDay := getDay tza firstDay in
  let prevMonthDaysToShow := if startDay =? 0 then 6 else startDay - 1 in
  let weeksPassed := index in
  let daysPassed := weeksPassed * 7 - prevMonthDaysToShow in
  newDate tza currentYear currentMonth (1 + daysPassed).

Definition adjustedDate (weekStartDate : Z) : Z :=
  let dayOfWeek := getDay tza weekStartDate in
  setDate tza weekStartDate
    (getDate tza weekStartDate + (if dayOfWeek =? 0 then -6 else 1) - dayOfWeek).

Definition weekRange (adjustedDate : Z) : Z * Z :=
  let weekStart := adjustedDate in
  let weekEnd := setDate tza adjustedDate (getDate tza adjustedDate + 6) in
  (weekStart, weekEnd).
End Zone.

End CalendarViewLists.

Import CalendarViewLists.

(* ================================================================== *)
(** * calendarRenderer.ts: the month grid as it is drawn *)
(* ================================================================== *)

Module CalendarRenderer.

Open Scope Z_scope.

(** The counters of the loop of [updateMonthCalendarContent]. *)
Record FillState := mkFillState {
  prevMonthDay : Z;
  currentDay : Z;
  nextMonthDay : Z
}.

Section Zone.
Variable tza : Z.

(** [buildDayCell]: the date of the cell and its [other-month] class. *)
Definition buildDayCell
  (rowIndex dayIndex currentYear currentMonth daysInMonth
     prevMonthDaysToShow : Z) : Cell :=
  let totalCells := rowIndex * 7 + dayIndex in
  if totalCells <? prevMonthDaysToShow then
    let prevMonth := currentMonth - 1 in
    let prevMonthYear :=
      if currentMonth =? 0 then currentYear - 1 else currentYear in
    let prevMonthDays :=
      getDate tza (newDate tza prevMonthYear (prevMonth + 1) 0) in
    let day := prevMonthDays - prevMonthDaysToShow + totalCells + 1 in
    mkCell (newDate tza prevMonthYear prevMonth day) true
  else if totalCells <? prevMonthDaysToShow + daysInMonth then
    let day := totalCells - prevMonthDaysToShow + 1 in
    mkCell (newDate tza currentYear currentMonth day) false
  else
    let nextMonth := currentMonth + 1 in
    let nextMonthYear :=
      if currentMonth =? 11 then currentYear + 1 else currentYear in
    let day := totalCells - prevMonthDaysToShow - daysInMonth + 1 in
    mkCell (newDate tza nextMonthYear nextMonth day) true.

(** [buildWeekNumberCell]: the number written in the week cell. *)
Definition buildWeekNumberCell (rowIndex : Z) : Z := rowIndex + 1.

(** [buildWeekRow]: the week cell and the seven day cells. *)
Definition buildWeekRow
  (rowIndex currentYear currentMonth daysInMonth prevMonthDaysToShow : Z)
  : Z * list Cell :=
  (buildWeekNumberCell rowIndex,
   map (fun i =>
          buildDayCell rowIndex (Z.of_nat i) currentYear currentMonth
            daysInMonth prevMonthDaysToShow)
     (seq 0 7)).

Definition buildMonthDays (currentDate : Z) : list (Z * list Cell) :=
  let currentYear := getFullYear tza currentDate in
  let currentMonth := getMonth tza currentDate in
  let firstDay := newDate tza currentYear currentMonth 1 in
  let startDay := getDay tza firstDay in
  let daysInMonth :=
    getDate tza (newDate tza currentYear (currentMonth + 1) 0) in
  let prevMonthDaysToShow := if startDay =? 0 then 6 else startDay - 1 in
  let rowsNeeded := ceilDiv (prevMonthDaysToShow + daysInMonth) 7 in
  map (fun row =>
         buildWeekRow (Z.of_nat row) currentYear currentMonth daysInMonth
           prevMonthDaysToShow)
    (seq 0 (Z.to_nat rowsNeeded)).

(** [updateMonthCalendarContent] walks over the day cells that the
    table has, row by row, with three counters.  [fillCell] is the
    body of the inner loop for one cell, [fillRow] the inner loop over
    the [n] day cells of a row, [fillRows] the outer loop; [rows]
    gives the number of day cells of each row of the table. *)
Definition fillCell (currentYear currentMonth daysInMonth prevMonthDays
  prevMonth prevMonthYear nextMonth nextMonthYear : Z) (s : FillState)
  : Cell * FillState :=
  if prevMonthDay s <=? prevMonthDays then
    (mkCell (newDate tza prevMonthYear prevMonth (prevMonthDay s)) true,
     mkFillState (prevMonthDay s + 1) (currentDay s) (nextMonthDay s))
  else if currentDay s <=? daysInMonth then
    (mkCell (newDate tza currentYear currentMonth (currentDay s)) false,
     mkFillState (prevMonthDay s) (currentDay s + 1) (nextMonthDay s))
  else
    (mkCell (newDate tza nextMonthYear nextMonth (nextMonthDay s)) true,
     mkFillState (prevMonthDay s) (currentDay s) (nextMonthDay s + 1)).

Fixpoint fillRow (cell : FillState -> Cell * FillState) (n : nat)
  (s : FillState) : list Cell * FillState :=
  match n with
  | O => ([], s)
  | S n' =>
      let (c, s1) := cell s in
      let (cs, s2) := fillRow cell n' s1 in
      (c :: cs, s2)
  end.

Fixpoint fillRows (cell : FillState -> Cell * FillState) (rows : list nat)
  (s : FillState) : list (list Cell) :=
  match rows with
  | [] => []
  | n :: rows' =>
      let (cs, s1) := fillRow cell n s in
      cs :: fillRows cell rows' s1
  end.

Definition updateMonthCalendarContent (currentDate : Z) (rows : list nat)
  : list (list Cell) :=
  let currentYear := getFullYear tza currentDate in
  let currentMonth := getMonth tza currentDate in
  let firstDay := newDate tza currentYear currentMonth 1 in
  let startDay := getDay tza firstDay in
  let daysInMonth :=
    getDate tza (newDate tza currentYear (currentMonth + 1) 0) in
  let prevMonthDaysToShow := if startDay =? 0 then 6 else startDay - 1 in
  let lastDayOfPrevMonth := newDate tza currentYear currentMonth 0 in
  let prevMonthDays := getDate tza lastDayOfPrevMonth in
  let prevMonth := getMonth tza lastDayOfPrevMonth in
  let prevMonthYear := getFullYear tza lastDayOfPrevMonth in
  let firstDayOfNextMonth := newDate tza currentYear (currentMonth + 1) 1 in
  let nextMonth := getMonth tza firstDayOfNextMonth in
  let nextMonthYear := getFullYear tza firstDayOfNextMonth in
  let prevMonthDay := prevMonthDays - prevMonthDaysToShow + 1 in
  let nextMonthDay := 1 in
  let currentDay := 1 in
  fillRows
    (fillCell currentYear currentMonth daysInMonth prevMonthDays prevMonth
       prevMonthYear nextMonth nextMonthYear)
    rows (mkFillState prevMonthDay currentDay nextMonthDay).

(** [updateWeekIndicators]: the start of the week of the cell whose
    text reads [weekNumber], and the end that
    [updateSingleWeekIndicator] derives from it. *)
Definition weekStartDateOf (currentDate weekNumber : Z) : Z :=
  let firstDayOfMonth :=
    newDate tza (getFullYear tza currentDate) (getMonth tza currentDate) 1 in
  let startDayOfWeek := getDay tza firstDayOfMonth in
  let prevMonthDaysToShow :=
    if startDayOfWeek =? 0 then 6 else startDayOfWeek - 1 in
  let weekStartDate :=
    newDate tza (getFullYear tza currentDate) (getMonth tza currentDate) 1 in
  setDate tza weekStartDate
    (getDate tza weekStartDate - prevMonthDaysToShow + (weekNumber - 1) * 7).

Definition weekEndDateOf (weekStartDate : Z) : Z :=
  setDate tza weekStartDate (getDate tza weekStartDate + 6).
End Zone.

End CalendarRenderer.

Import CalendarRenderer.

(* ================================================================== *)
(** * CalendarView.ts: the header of the calendar *)
(* ================================================================== *)

Module CalendarViewHeader.

Open Scope Z_scope.

Section Zone.
Variable tza : Z.

(** The click handlers of the quarter buttons: the new current date. *)
Definition prevQuarterClick (currentDate : Z) : Z :=
  let currentQuarter := getMonth tza currentDate / 3 in
  let targetMonth := currentQuarter * 3 - 3 in
  setMonth tza currentDate targetMonth.

Definition nextQuarterClick (currentDate : Z) : Z :=
  let currentQuarter := getMonth tza currentDate / 3 in
  let targetMonth := currentQuarter * 3 + 3 in
  setMonth tza currentDate targetMonth.

(** The ranges that a click on the year, the quarter and the month
    hands to [renderTaskListByDateRange]. *)
Definition yearRange (currentDate : Z) : Z * Z :=
  let year := getFullYear tza currentDate in
  (newDate tza year 0 1, newDate tza year 11 31).

Definition quarterRange (currentDate : Z) : Z * Z :=
  let year := getFullYear tza currentDate in
  let currentMonth := getMonth tza currentDate in
  let quarter := currentMonth / 3 in
  let quarterStartMonth := quarter * 3 in
  let quarterEndMonth := quarter * 3 + 2 in
  (newDate tza year quarterStartMonth 1,
   newDate tza year (quarterEndMonth + 1) 0).

Definition monthRange (currentDate : Z) : Z * Z :=
  let year := getFullYear tza currentDate in
  let month := getMonth tza currentDate in
  (newDate tza year month 1, newDate tza year (month + 1) 0).
End Zone.

End CalendarViewHeader.

Import CalendarViewHeader.

(* ================================================================== *)
(** * calendarRenderer.ts: the task indicator of a day *)
(* ================================================================== *)

Module IndicatorRenderer.

(** [/^\s*([-\*\d]+\.?)\s*\[([ xX])\]/gm] *)
Definition taskRegex : regex :=
  cat [LineStart; Star space;
       Capture 1
         (Seq (Plus (Chr (fun x => existsb (N.eqb x) (lit "-*")
                                   || ((48 <=? x) && (x <=? 57))%N)))
              (Opt (chr ".")));
       Star space; chr "["; Capture 2 (oneOf " xX"); chr "]"].

(** [hasTask] in [updateSingleDayIndicator], for a daily note that
    exists and whose content was read: [content.match(taskRegex)] is
    an array with a match in it, and not [null], exactly when the
    expression matches somewhere. *)
Definition hasTask (content : jsstring) : bool :=
  match exec taskRegex content with
  | Some _ => true
  | None => false
  end.

End IndicatorRenderer.

(* ================================================================== *)
(** * taskService.ts: putting a new task into a note *)
(* ================================================================== *)

Module TaskInsertion.

Inductive InsertPosition := first | last.

Section Run.
Context {A : Type}.

(** A lazy [a*?], in the continuation style of [run]: the rest of the
    pattern is tried first, and one more [a] is read only when that
    fails. *)
Fixpoint lazyStar (a : regex) (n : nat) (pre rest : jsstring) (c : captures)
  (k : jsstring -> jsstring -> captures -> option A) {struct n}
  : option A :=
  match k pre rest c with
  | Some x => Some x
  | None =>
      match n with
      | O => None
      | S n' =>
          run a pre rest c
            (fun pre' rest' c' =>
               if (length rest' <? length rest)%nat
               then lazyStar a n' pre' rest' c' k else None)
      end
  end.

(** A lookahead [(?=r)]: [r] has to match here, and nothing is read. *)
Definition lookahead (r : regex) (pre rest : jsstring) (c : captures)
  (k : jsstring -> jsstring -> captures -> option A) : option A :=
  match run r pre rest c (fun _ _ c' => Some c') with
  | Some c' => k pre rest c'
  | None => None
  end.

(** [sectionRegex] at one position.  The pattern is written in a
    template literal, where [\s] and [\S] stand for the letters [s]
    and [S]: what [new RegExp] receives is
    [(insertSection)([sS]*?)(?=^#|$)], with the [m] flag. *)
Definition runSection (header : regex) (pre rest : jsstring)
  (k : jsstring -> jsstring -> captures -> option A) : option A :=
  run (Capture 1 header) pre rest []
    (fun pre1 rest1 c1 =>
       lazyStar (oneOf "sS") (length rest1) pre1 rest1 c1
         (fun pre2 rest2 c2 =>
            lookahead (Alt (Seq LineStart (chr "#")) LineEnd) pre2 rest2
              ((2%nat, firstn (length rest1 - length rest2) rest1) :: c2)
              k)).
End Run.

(** [content.match(sectionRegex)]: the leftmost match. *)
Fixpoint searchSection (header : regex) (pre rest : jsstring)
  : option MatchResult :=
  match runSection header pre rest
          (fun pre' rest' c' =>
             Some (mkMatch (length pre)
                     (firstn (length rest - length rest') rest)
                     c' pre' rest')) with
  | Some m => Some m
  | None =>
      match rest with
      | [] => None
      | x :: rest' => searchSection header (x :: pre) rest'
      end
  end.

(** The heading is put into the pattern as it is.  One without a
    special character of the pattern language stands for itself;
    [None] for any other heading, which this model does not read. *)
Definition headerPattern (insertSection : jsstring) : option regex :=
  if forallb (fun x => negb (isRegExpSpecial x)) insertSection
  then Some (cat (map unit insertSection))
  else None.

(** The content that [createTaskInNote] writes back when the task goes
    into a note and not to the cursor. *)
Definition insertTask (content insertSection : jsstring)
  (insertPosition : InsertPosition) (fullTaskText : jsstring)
  : option jsstring :=
  match headerPattern insertSection with
  | None => None
  | Some header =>
      Some
        match searchSection header [] content with
        | Some sectionMatch =>
            match capture 1 (matchGroups sectionMatch) with
            | Some sectionHeader =>
                let sectionStart := matchIndex sectionMatch in
                let sectionEnd :=
                  (sectionStart + length (matchText sectionMatch))%nat in
                let sectionContent :=
                  match capture 2 (matchGroups sectionMatch) with
                  | Some s => s
                  | None => []
                  end in
                match insertPosition with
                | first =>
                    firstn (sectionStart + length sectionHeader) content
                    ++ [10%N] ++ fullTaskText ++ sectionContent
                    ++ skipn sectionEnd content
                | last =>
                    firstn sectionEnd content
                    ++ [10%N] ++ fullTaskText ++ skipn sectionEnd content
                end
            | None =>
                content ++ [10%N; 10%N] ++ insertSection ++ [10%N] ++ fullTaskText
            end
        | None => content ++ [10%N; 10%N] ++ insertSection ++ [10%N] ++ fullTaskText
        end
  end.

End TaskInsertion.

(* ================================================================== *)
(** * The patterns of regular expressions *)
(* ================================================================== *)

(** [new RegExp(pattern)] without the [u] flag, for the part of the
    pattern language that the matcher covers: characters that stand
    for themselves, [.], escaped characters and the classes [\d],
    [\D], [\s] and [\S], the greedy quantifiers [*], [+] and [?],
    [^] and [$] under the [m] flag, alternatives and capturing
    groups.  [None] stands for a SyntaxError and for a pattern outside
    this part: a character class, braces, a lazy quantifier, a group
    that begins with [(?], a backreference and the other letter
    escapes. *)
Module Pattern.

(** The code unit [x] is the character [c]. *)
Definition isChar (c : string) (x : N) : bool :=
  match lit c with
  | [y] => N.eqb x y
  | _ => false
  end.

(** The atom after a backslash.  A character that is no letter or
    digit stands for itself. *)
Definition parseAtomEscape (d : N) : option regex :=
  if isChar "d" d then Some digit
  else if isChar "D" d
  then Some (Chr (fun x => negb ((48 <=? x) && (x <=? 57))%N))
  else if isChar "s" d then Some space
  else if isChar "S" d then Some (Chr (fun x => negb (isWhiteSpace x)))
  else if isChar "n" d then Some (unit 10)
  else if isChar "r" d then Some (unit 13)
  else if isChar "t" d then Some (unit 9)
  else if isChar "f" d then Some (unit 12)
  else if isChar "v" d then Some (unit 11)
  else if ((48 <=? d) && (d <=? 57) || (65 <=? d) && (d <=? 90)
           || (97 <=? d) && (d <=? 122))%N
  then None
  else Some (unit d).

(** The quantifier that may follow an atom. *)
Definition parseQuantifier (a : regex) (rest : jsstring)
  : option (regex * jsstring) :=
  match rest with
  | q :: rest' =>
      if isChar "*" q || isChar "+" q || isChar "?" q
      then match rest' with
           | l :: _ =>
               if isChar "?" l then None
               else Some (if isChar "*" q then Star a
                          else if isChar "+" q then Plus a else Opt a, rest')
           | [] =>
               Some (if isChar "*" q then Star a
                     else if isChar "+" q then Plus a else Opt a, rest')
           end
      else if isChar "{" q then None
      else Some (a, rest)
  | [] => Some (a, rest)
  end.

(** One term that begins with the character [c]; [groups] counts the
    capturing groups opened so far, and [parseGroup] reads the inside
    of a group. *)
Definition parseTerm
  (parseGroup : jsstring -> nat -> option (regex * jsstring * nat))
  (multiline : bool) (c : N) (rest : jsstring) (groups : nat)
  : option (regex * jsstring * nat) :=
  if isChar "^" c then
    if multiline then Some (LineStart, rest, groups) else None
  else if isChar "$" c then
    if multiline then Some (LineEnd, rest, groups) else None
  else if isChar "(" c then
    match rest with
    | q :: _ =>
        if isChar "?" q then None
        else
          match parseGroup rest (S groups) with
          | Some (inside, x :: rest', groups') =>
              if isChar ")" x
              then
                match parseQuantifier (Capture (S groups) inside) rest' with
                | Some (a, rest'') => Some (a, rest'', groups')
                | None => None
                end
              else None
          | _ => None
          end
    | [] => None
    end
  else if isChar "*" c || isChar "+" c || isChar "?" c || isChar "{" c
          || isChar "[" c
  then None
  else if isChar "\" c then
    match rest with
    | d :: rest' =>
        match parseAtomEscape d with
        | Some a =>
            match parseQuantifier a rest' with
            | Some (a', rest'') => Some (a', rest'', groups)
            | None => None
            end
        | None => None
        end
    | [] => None
    end
  else
    match parseQuantifier (if isChar "." c then dot else unit c) rest with
    | Some (a, rest') => Some (a, rest', groups)
    | None => None
    end.

(** The terms of an alternative, up to [|], [)] or the end. *)
Fixpoint parseAlternative
  (parseGroup : jsstring -> nat -> option (regex * jsstring * nat))
  (multiline : bool) (n : nat) (pattern : jsstring) (groups : nat)
  : option (list regex * jsstring * nat) :=
  match n with
  | O => None
  | S n' =>
      match pattern with
      | [] => Some ([], [], groups)
      | c :: rest =>
          if isChar "|" c || isChar ")" c then Some ([], pattern, groups)
          else
            match parseTerm parseGroup multiline c rest groups with
            | Some (a, rest', groups') =>
                match parseAlternative parseGroup multiline n' rest' groups'
                with
                | Some (terms, rest'', groups'') =>
                    Some (a :: terms, rest'', groups'')
                | None => None
                end
            | None => None
            end
      end
  end.

(** The alternatives of a disjunction.  The recursion is bounded by
    [fuel]; [None] also when it runs out. *)
Fixpoint parseDisjunction (multiline : bool) (fuel : nat)
  (pattern : jsstring) (groups : nat) : option (regex * jsstring * nat) :=
  match fuel with
  | O => None
  | S fuel' =>
      match parseAlternative (parseDisjunction multiline fuel') multiline
              fuel' pattern groups with
      | Some (terms, c :: rest, groups') =>
          if isChar "|" c
          then match parseDisjunction multiline fuel' rest groups' with
               | Some (d, rest', groups'') =>
                   Some (Alt (cat terms) d, rest', groups'')
               | None => None
               end
          else Some (cat terms, c :: rest, groups')
      | Some (terms, [], groups') => Some (cat terms, [], groups')
      | None => None
      end
  end.

Definition parsePattern (multiline : bool) (pattern : jsstring)
  : option regex :=
  match parseDisjunction multiline (length pattern + 2) pattern 0 with
  | Some (r, [], _) => Some r
  | _ => None
  end.

End Pattern.

(* ================================================================== *)
(** * The parser of taskService.ts on a call stack *)
(* ================================================================== *)

(** The functions of [parseTokens] call one another, once more for
    every opening parenthesis that is open, and the engine throws a
    RangeError when a call finds no room on its stack.  Here [stack]
    counts the calls that still fit when a function is called, each
    call of [parseExpression], [parseLogicalExpression],
    [parsePrimaryExpression], [parseRule] and [parseTokens] taking
    one; the calls of library functions are taken to fit.  The loops
    run on a fuel of their own; [None] says that it ran out. *)
Module ParserOnStack.

Inductive Completion (A : Type) : Type :=
| normal (a : A)
| throwRangeError.

Arguments normal {A} a.
Arguments throwRangeError {A}.

Section Parser.
Variable tokens : list jsstring.

Fixpoint groupLoop
  (parseExpression : nat -> option (Completion (ExpressionNode * nat)))
  (n : nat) (index : nat) (expressions : list ExpressionNode)
  : option (Completion (list ExpressionNode * nat)) :=
  match n with
  | O => None
  | S n' =>
      if (index <? length tokens)%nat && negb (tokenIs tokens index ")")
      then match parseExpression index with
           | Some (normal (e, index')) =>
               groupLoop parseExpression n' index' (expressions ++ [e])
           | Some throwRangeError => Some throwRangeError
           | None => None
           end
      else Some (normal (expressions, index))
  end.

(** [parsePrimaryExpression], running, with room for [stack] calls. *)
Definition parsePrimaryExpression
  (parseExpression : nat -> option (Completion (ExpressionNode * nat)))
  (stack : nat) (n : nat) (index : nat)
  : option (Completion (ExpressionNode * nat)) :=
  if tokenIs tokens index "("
  then match groupLoop parseExpression n (S index) [] with
       | Some (normal (expressions, index)) =>
           let index :=
             if (index <? length tokens)%nat && tokenIs tokens index ")"
             then S index else index in
           Some (normal (group expressions, index))
       | Some throwRangeError => Some throwRangeError
       | None => None
       end
  else match stack with
       | O => Some throwRangeError
       | S _ => Some (normal (parseRule tokens index))
       end.

Fixpoint logicalLoop
  (parsePrimary : nat -> option (Completion (ExpressionNode * nat)))
  (n : nat) (lhs : ExpressionNode) (index : nat)
  : option (Completion (ExpressionNode * nat)) :=
  match n with
  | O => None
  | S n' =>
      if (index <? length tokens)%nat
         && (tokenIs tokens index "and" || tokenIs tokens index "or")
      then
        let operator := if tokenIs tokens index "and" then opAnd else opOr in
        match parsePrimary (S index) with
        | Some (normal (rhs, index')) =>
            logicalLoop parsePrimary n' (logical operator lhs rhs) index'
        | Some throwRangeError => Some throwRangeError
        | None => None
        end
      else Some (normal (lhs, index))
  end.

Definition parseLogicalExpression
  (parsePrimary : nat -> option (Completion (ExpressionNode * nat)))
  (n : nat) (index : nat) : option (Completion (ExpressionNode * nat)) :=
  match parsePrimary index with
  | Some (normal (lhs, index)) => logicalLoop parsePrimary n lhs index
  | Some throwRangeError => Some throwRangeError
  | None => None
  end.

(** The call of [parseExpression] with room for [stack] calls: one
    for itself, one for [parseLogicalExpression] and one for
    [parsePrimaryExpression], which runs with the rest. *)
Fixpoint parseExpression (stack : nat) (index : nat)
  : option (Completion (ExpressionNode * nat)) :=
  match stack with
  | S (S (S stack')) =>
      parseLogicalExpression
        (parsePrimaryExpression (parseExpression stack') stack'
           (S (length tokens)))
        (S (length tokens)) index
  | _ => Some throwRangeError
  end.

(** The call of [parseTokens]. *)
Definition parseTokens (stack : nat) : option (Completion ExpressionNode) :=
  match stack with
  | O => Some throwRangeError
  | S stack' =>
      match parseExpression stack' 0 with
      | Some (normal (e, _)) => Some (normal e)
      | Some throwRangeError => Some throwRangeError
      | None => None
      end
  end.
End Parser.

(** [parseCustomFilter], running, with room for [stack] calls. *)
Definition parseCustomFilter (stack : nat) (filterString : jsstring)
  : option (Completion (option ExpressionNode)) :=
  if negb (truthy (trim filterString)) then Some (normal None)
  else
    let tokens := tokenizeFilter filterString in
    if (length tokens =? 0)%nat then Some (normal None)
    else match parseTokens tokens stack with
         | Some (normal e) => Some (normal (Some e))
         | Some throwRangeError => Some throwRangeError
         | None => None
         end.

End ParserOnStack.

(* ================================================================== *)
(** * Vocabulary of the specification *)
(* ================================================================== *)

(** The notions in which the properties below are stated, and the
    sample data on which they are evaluated. *)

(** What the specification calls "contains the literal substring" and
    "starts with". *)
Definition contains (s p : jsstring) : Prop :=
  exists pre post, s = pre ++ p ++ post.

Definition hasPrefix (s p : jsstring) : Prop :=
  exists post, s = p ++ post.

Definition blank (s : jsstring) : Prop :=
  Forall (fun c => isWhiteSpace c = true) s.

(** A parsing function returns at [i] and moves the cursor on. *)
Definition advances (f : nat -> option (ExpressionNode * nat)) (i : nat)
  : Prop :=
  exists e i', f i = Some (e, i') /\ (i < i')%nat.

Definition tagRule (name : string) : ExpressionNode :=
  rule (mkRule include (lit name) true).

(** The date test of [filterTasks]: the task has no due date, or its
    due date is not later than the end of the cut-off day.  An Invalid
    Date is later than nothing. *)
Definition dateEligible (tza : Z) (filterDate : Date) (t : Task) : Prop :=
  dueDate t = None
  \/ exists due, dueDate t = Some due
                 /\ gt due (endOfDay tza filterDate) = false.

(** The date test as the specification words it: no due date, or a due
    date at or before the end of the cut-off day. *)
Definition dateEligible_claimed (tza : Z) (filterDate : Date) (t : Task)
  : Prop :=
  dueDate t = None
  \/ exists due, dueDate t = Some due
                 /\ le due (endOfDay tza filterDate) = true.

Definition filterAccepts (settings : MyPluginSettings) (t : Task) : Prop :=
  blank (customFilter (taskFilter settings))
  \/ exists e, parseCustomFilter (customFilter (taskFilter settings))
               = Some (Some e)
               /\ evaluateExpression t e = true.

Definition defaultNote : NoteTemplateSettings :=
  mkNoteTemplateSettings (lit "notes") (lit "templates/note") (lit "YYYY-MM-DD").

Definition settingsWith (customFilter : string) : MyPluginSettings :=
  mkSettings defaultNote defaultNote defaultNote defaultNote defaultNote
    (mkTaskFilterSettings (lit customFilter)).

(** A due date lies in the closed range from [startDate] to [endDate]. *)
Definition inRange (startDate endDate due : Date) : Prop :=
  exists a b x, startDate = ValidDate a /\ endDate = ValidDate b
                /\ due = ValidDate x /\ (a <= x <= b)%Z.

Definition sampleTask (raw : string) (due : option Date) : Task :=
  mkTask (lit raw) false (lit "todo.md") due (lit raw).

(** [pre] and [post] surround the first occurrence of [pat] in [s]. *)
Definition firstOccurrence (pat s pre post : jsstring) : Prop :=
  s = pre ++ pat ++ post
  /\ forall pre' post', s = pre' ++ pat ++ post' ->
                        (length pre <= length pre')%nat.

(** [s'] is [s] with the first occurrence of [pat], if there is one,
    replaced by [rep], and nothing else changed. *)
Definition replacesFirst (pat rep s s' : jsstring) : Prop :=
  (exists pre post, firstOccurrence pat s pre post /\ s' = pre ++ rep ++ post)
  \/ (~ contains s pat /\ s' = s).

(** The decimal digit of a number below ten, as a code unit. *)
Definition digitChar (n : Z) : N := Z.to_N (48 + n)%Z.

(** The days [first .. last] of month [m] of year [y] as grid cells. *)
Definition monthDays (tza y m : Z) (first last : nat) (other : bool)
  : list Cell :=
  map (fun k => mkCell (newDate tza y m (Z.of_nat k)) other)
    (seq first (S last - first)).

(** The calendar emoji U+1F4C5 as its two code units. *)
Definition calendarEmoji : jsstring := [55357%N; 56517%N].

Definition NL : jsstring := [10%N].

Definition buyMilk : jsstring :=
  lit "Buy milk " ++ calendarEmoji ++ lit " 2024-03-15".

Definition shoppingNote (mark : string) : jsstring :=
  lit "# Shopping" ++ NL
  ++ lit "- [" ++ lit mark ++ lit "] " ++ buyMilk ++ NL
  ++ lit "- [ ] Call the bank due:2024-04-01".

Definition payRent : Task :=
  mkTask (lit "Pay rent @2024-03-31") false (lit "march.md")
    (Some (ValidDate 1711843200000)) (lit "Pay rent @2024-03-31").

(** A regular expression that reads at least one code unit whenever it
    matches. *)
Fixpoint consuming (r : regex) : bool :=
  match r with
  | Chr _ => true
  | Seq a b => consuming a || consuming b
  | Alt a b => consuming a && consuming b
  | Capture _ a => consuming a
  | Eps | Star _ | LineStart | LineEnd => false
  end.

(** The input after its leading [s] characters. *)
Fixpoint dropS (s : jsstring) : jsstring :=
  match s with
  | c :: s' => if N.eqb c 115 then dropS s' else s
  | [] => []
  end.

(** The start of a line that the pattern of [updateTaskInNote] can
    match: [s]s, a dash, [s]s, and one of [(], [.], [)]. *)
Definition fits (rest : jsstring) : bool :=
  match dropS rest with
  | c :: r1 =>
      N.eqb c 45 &&
      match dropS r1 with
      | x :: _ => existsb (N.eqb x) (lit "(.)")
      | [] => false
      end
  | [] => false
  end.

Definition atLineStart (pre : jsstring) : bool :=
  match pre with
  | [] => true
  | x :: _ => isLineTerminator x
  end.

(** No position of the input, from the current one on, is a line
    start that fits. *)
Fixpoint fitsNowhere (pre rest : jsstring) : bool :=
  negb (atLineStart pre && fits rest)
  && match rest with
     | [] => true
     | x :: rest1 => fitsNowhere (x :: pre) rest1
     end.

(** The notions of the further properties: tokens and rules of the
    filter language, a checkbox line, and the civil calendar. *)

Local Close Scope Z_scope.

(** The characters that [tokenizeFilter] sets apart. *)
Definition isParen (c : N) : bool := N.eqb c 40 || N.eqb c 41.

Definition notWhiteSpace (c : N) : bool := negb (isWhiteSpace c).

(** A token: not empty, free of white space, and a parenthesis only
    on its own. *)
Definition wellFormedToken (t : jsstring) : Prop :=
  t <> []
  /\ forallb notWhiteSpace t = true
  /\ (existsb isParen t = true -> length t = 1%nat).

(** The pieces of a string in which every parenthesis stands between
    two spaces. *)
Definition spaced (c : N) : jsstring :=
  if N.eqb c 40 then lit " ( " else if N.eqb c 41 then lit " ) " else [c].

(** The rule that [parseRule] reads from a token. *)
Definition ruleOfToken (t : jsstring) : ExpressionNode :=
  fst (parseRule [t] 0).

(** The written form of a rule: [!] for an exclusion, [#] for a tag,
    then the value. *)
Definition ruleToken (r : FilterRule) : jsstring :=
  match type r with exclude => lit "!" | include => [] end
  ++ (if isTag r then lit "#" else [])
  ++ value r.

(** The rules that [parseRule] builds: a value that begins with [#]
    belongs to a tag, and the path of an inclusion does not begin
    with [!]. *)
Definition canonicalRule (r : FilterRule) : Prop :=
  (isTag r = false -> startsWith (value r) (lit "#") = false)
  /\ (type r = include -> isTag r = false ->
      startsWith (value r) (lit "!") = false).

Definition operatorToken (operator : LogicalOperator) : jsstring :=
  match operator with opAnd => lit "and" | opOr => lit "or" end.

(** A filter without parentheses: a rule, then operators each
    followed by a rule. *)
Definition chainTokens (first : jsstring)
  (more : list (LogicalOperator * jsstring)) : list jsstring :=
  first :: flat_map (fun p => [operatorToken (fst p); snd p]) more.

(** The tree that nests to the left. *)
Definition chainTree (first : jsstring)
  (more : list (LogicalOperator * jsstring)) : ExpressionNode :=
  fold_left (fun acc p => logical (fst p) acc (ruleOfToken (snd p)))
    more (ruleOfToken first).

Definition applyOperator (operator : LogicalOperator) (a b : bool) : bool :=
  match operator with opAnd => a && b | opOr => a || b end.

Definition isOperatorToken (t : jsstring) : bool :=
  eqb t (lit "and") || eqb t (lit "or").

(** A token that is read as a rule wherever it stands: no
    parenthesis and no operator. *)
Definition plainToken (t : jsstring) : bool :=
  negb (eqb t (lit "(")) && negb (eqb t (lit ")"))
  && negb (isOperatorToken t).

(** A chain: a rule, then operators each followed by a rule. *)
Definition Chain : Type := jsstring * list (LogicalOperator * jsstring).

Definition plainChain (c : Chain) : bool :=
  plainToken (fst c) && forallb (fun p => plainToken (snd p)) (snd c).

Definition chainTokensOf (c : Chain) : list jsstring :=
  chainTokens (fst c) (snd c).

Definition chainTreeOf (c : Chain) : ExpressionNode :=
  chainTree (fst c) (snd c).

(** The value of a chain: its rules combined from left to right. *)
Definition chainValue (task : Task) (c : Chain) : bool :=
  fold_left
    (fun acc p =>
       applyOperator (fst p) acc
         (evaluateExpression task (ruleOfToken (snd p))))
    (snd c) (evaluateExpression task (ruleOfToken (fst c))).

(** Chains written side by side between parentheses; the closing
    parenthesis may be missing. *)
Definition groupTokens (chains : list Chain) (closed : bool)
  : list jsstring :=
  lit "(" :: flat_map chainTokensOf chains
  ++ (if closed then [lit ")"] else []).

(** The group as the specification words it: true when one of the
    rules written between the parentheses is, whatever is written
    between them. *)
Definition groupAccepts_claimed (task : Task) (written : list jsstring)
  : Prop :=
  exists t, In t written /\ evaluateExpression task (ruleOfToken t) = true.

(** A tree written back as tokens. *)
Fixpoint tokensOf (e : ExpressionNode) : list jsstring :=
  match e with
  | rule r => [ruleToken r]
  | logical operator lhs rhs =>
      tokensOf lhs ++ operatorToken operator :: tokensOf rhs
  | group expressions =>
      lit "(" :: flat_map tokensOf expressions ++ [lit ")"]
  end.

(** What the parser supplies where the tokens end too early: the
    empty operand of an operator, and closing parentheses. *)
Definition supplied (t : jsstring) : bool := eqb t [] || eqb t (lit ")").

(** The tokens from position [i] up to position [j]. *)
Definition tokensBetween (tokens : list jsstring) (i j : nat)
  : list jsstring :=
  firstn (j - i) (skipn i tokens).

(** [written] is what stands in [tokens] from [i] up to [j], followed,
    if the tokens end there, by what the parser supplies. *)
Definition covers (tokens written : list jsstring) (i j : nat) : Prop :=
  exists missing,
    written = tokensBetween tokens i j ++ missing
    /\ forallb supplied missing = true
    /\ (missing = [] \/ length tokens <= j).

(** The parser stops at [j]: at the end of the tokens or before a
    token that is no operator. *)
Definition stopsAt (tokens : list jsstring) (j : nat) : Prop :=
  match nth_error tokens j with
  | Some t => isOperatorToken t = false
  | None => True
  end.

(** The opening parentheses among the tokens. *)
Definition openParens (tokens : list jsstring) : nat :=
  length (filter (fun t => eqb t (lit "(")) tokens).

(** What a parsing function returns covers the tokens it has read. *)
Definition sound (tokens : list jsstring)
  (f : nat -> option (ExpressionNode * nat)) : Prop :=
  forall i e j, f i = Some (e, j) ->
                i < j /\ covers tokens (tokensOf e) i j.

(** A function of the parser and the same function on the stack
    return the same at [i], and move the cursor on. *)
Definition agree (f : nat -> option (ExpressionNode * nat))
  (g : nat -> option (ParserOnStack.Completion (ExpressionNode * nat)))
  (i : nat) : Prop :=
  exists e j, f i = Some (e, j)
              /\ g i = Some (ParserOnStack.normal (e, j))
              /\ i < j.

(** A checkbox line: a dash, the marker between brackets, a space
    and the text. *)
Definition taskLine (marker : N) (body : jsstring) : jsstring :=
  lit "- [" ++ [marker] ++ lit "] " ++ body.

Definition notLineTerminator (c : N) : bool := negb (isLineTerminator c).

Local Open Scope Z_scope.

(** The number of days of month [m] (0 = January). *)
Definition monthLength (leap : bool) (m : Z) : Z :=
  match m with
  | 1 => if leap then 29 else 28
  | 3 | 5 | 8 | 10 => 30
  | _ => 31
  end.

Definition monthIndex (tza t : Z) : Z :=
  12 * getFullYear tza t + getMonth tza t.

Definition navigationStep (direction : EventHandler.Direction)
  (unit : EventHandler.NavigationUnit) : Z :=
  match direction with EventHandler.prev => -1 | EventHandler.next => 1 end
  * match unit with
    | EventHandler.year => 12
    | EventHandler.month => 1
    | EventHandler.quarter => 3
    end.

Definition opposite (direction : EventHandler.Direction)
  : EventHandler.Direction :=
  match direction with
  | EventHandler.prev => EventHandler.next
  | EventHandler.next => EventHandler.prev
  end.

(** [new Date(y, m, d)] of the fields of [t] is the local midnight of
    the day of [t]. *)
Definition startOfDay (tza t : Z) : Z :=
  t - TimeWithinDay (LocalTime tza t).

(** The number of leading cells of the grid of [cur]. *)
Definition leadingCells (tza cur : Z) : Z :=
  getPrevMonthDaysToShow (getFirstDayOfMonth tza cur).

(** The quarter count of a date: four times the year plus the quarter
    of the month, counted from 0. *)
Definition quarterIndex (tza t : Z) : Z :=
  4 * getFullYear tza t + getMonth tza t / 3.

(** The counters of [updateMonthCalendarContent] after [n] cells, and
    the cell that position [n] of a month grid should hold: the day
    [n - leading] days from the first of the month, flagged when it is
    outside the month. *)
Definition fillStateAt (prevMonthDays leading days n : Z) : FillState :=
  mkFillState (prevMonthDays - leading + 1 + Z.min n leading)
    (1 + Z.max 0 (Z.min (n - leading) days))
    (1 + Z.max 0 (n - leading - days)).

Definition gridCellAt (first leading days n : Z) : Cell :=
  mkCell (first + (n - leading) * msPerDay)
    (negb ((leading <=? n) && (n <? leading + days))).

(** Case analysis on the tests of a goal, and the boolean comparisons
    of the context as propositions. *)
Ltac split_ifs :=
  repeat match goal with
         | |- context [if ?b then _ else _] => destruct b eqn:?
         end.

Ltac bool_to_prop :=
  repeat match goal with
         | H : (_ <? _) = true |- _ => apply Z.ltb_lt in H
         | H : (_ <? _) = false |- _ => apply Z.ltb_ge in H
         | H : (_ <=? _) = true |- _ => apply Z.leb_le in H
         | H : (_ <=? _) = false |- _ => apply Z.leb_gt in H
         | H : (_ =? _) = true |- _ => apply Z.eqb_eq in H
         | H : (_ =? _) = false |- _ => apply Z.eqb_neq in H
         end.

(* ================================================================== *)
(** * Properties *)
(* ================================================================== *)

(** ** Strings *)

Lemma eqb_eq (a b : jsstring) : eqb a b = true <-> a = b.
Proof.
  revert b; induction a as [|x a IH]; intros [|y b]; simpl;
    try (split; [discriminate | discriminate]); try tauto.
  rewrite andb_true_iff, N.eqb_eq, IH.
  split; [intros [-> ->]; reflexivity | intros H; inversion H; auto].
Qed.

Lemma startsWith_spec (s p : jsstring) :
  startsWith s p = true <-> hasPrefix s p.
Proof.
  unfold hasPrefix.
  revert s; induction p as [|c p IH]; intros s.
  - split; [intros _; exists s; reflexivity | destruct s; reflexivity].
  - destruct s as [|d s]; simpl.
    + split; [discriminate | intros [post H]; discriminate].
    + rewrite andb_true_iff, N.eqb_eq, IH. split.
      * intros [-> [post ->]]. exists post; reflexivity.
      * intros [post H]. inversion H; subst. split; [reflexivity|].
        exists post; reflexivity.
Qed.

Lemma includes_spec (s p : jsstring) :
  includes s p = true <-> contains s p.
Proof.
  unfold contains.
  induction s as [|d s IH].
  - cbn [includes]. rewrite orb_false_r, startsWith_spec. split.
    + intros [post H]. exists [], post. exact H.
    + intros [pre [post H]]. destruct pre; [|discriminate].
      exists post. exact H.
  - cbn [includes]. rewrite orb_true_iff, startsWith_spec, IH. split.
    + intros [[post H] | [pre [post H]]].
      * exists [], post. exact H.
      * exists (d :: pre), post. rewrite H. reflexivity.
    + intros [[|e pre] [post H]].
      * left. exists post. exact H.
      * right. inversion H; subst. exists pre, post. reflexivity.
Qed.

Lemma trimStart_nil (s : jsstring) : trimStart s = [] <-> blank s.
Proof.
  unfold blank. induction s as [|c s IH]; simpl.
  - split; [constructor | reflexivity].
  - destruct (isWhiteSpace c) eqn:E.
    + rewrite IH. split; [intros H; constructor; assumption|].
      intros H; inversion H; assumption.
    + split; [discriminate|]. intros H; inversion H; congruence.
Qed.

Lemma trimStart_head (s : jsstring) :
  match trimStart s with
  | [] => True
  | c :: _ => isWhiteSpace c = false
  end.
Proof.
  induction s as [|c s IH]; simpl; [exact I|].
  destruct (isWhiteSpace c) eqn:E; [exact IH | exact E].
Qed.

Lemma trim_nil (s : jsstring) : trim s = [] <-> blank s.
Proof.
  unfold trim, trimEnd. split.
  - intros H.
    assert (H1 : trimStart (rev (trimStart s)) = []).
    { destruct (trimStart (rev (trimStart s))) as [|c t]; [reflexivity|].
      simpl in H. destruct (rev t); discriminate. }
    apply trimStart_nil in H1. apply trimStart_nil.
    pose proof (trimStart_head s) as Hh.
    destruct (trimStart s) as [|c t]; [reflexivity|].
    unfold blank in H1. rewrite Forall_forall in H1.
    rewrite (H1 c) in Hh; [discriminate|].
    apply in_rev. rewrite rev_involutive. left; reflexivity.
  - intros H. apply trimStart_nil in H. rewrite H. reflexivity.
Qed.

Lemma truthy_trim (s : jsstring) : truthy (trim s) = false <-> blank s.
Proof.
  rewrite <- trim_nil. destruct (trim s); simpl; split;
    try reflexivity; discriminate.
Qed.

Lemma not_blank_exists (s : jsstring) :
  ~ blank s -> exists c, In c s /\ isWhiteSpace c = false.
Proof.
  unfold blank. induction s as [|c s IH]; intros H.
  - exfalso; apply H; constructor.
  - destruct (isWhiteSpace c) eqn:E.
    + destruct IH as [d [Hd Hw]].
      * intros Hs; apply H; constructor; assumption.
      * exists d; split; [right; assumption | assumption].
    + exists c; split; [left; reflexivity | assumption].
Qed.

Lemma exists_not_blank (s : jsstring) (c : N) :
  In c s -> isWhiteSpace c = false -> ~ blank s.
Proof.
  unfold blank. intros Hin Hw H. rewrite Forall_forall in H.
  rewrite (H c Hin) in Hw. discriminate.
Qed.

Lemma splitWsFrom_keeps (s cur : jsstring) (inRun : bool) (c : N) :
  In c cur \/ In c s -> isWhiteSpace c = false ->
  exists p, In p (splitWsFrom cur inRun s) /\ In c p.
Proof.
  revert cur inRun. induction s as [|d s IH]; intros cur inRun Hin Hw.
  - destruct Hin as [Hin | []]. exists (rev cur). split.
    + left; reflexivity.
    + apply in_rev in Hin. exact Hin.
  - cbn [splitWsFrom]. destruct (isWhiteSpace d) eqn:E.
    + assert (Hd : c <> d) by congruence.
      destruct inRun.
      * apply IH; [|exact Hw].
        destruct Hin as [Hin | [Heq | Hin]]; [left | congruence | right];
          assumption.
      * destruct Hin as [Hin | [Heq | Hin]]; [|congruence|].
        -- exists (rev cur). split; [left; reflexivity|].
           apply in_rev in Hin; exact Hin.
        -- destruct (IH [] true (or_intror Hin) Hw) as [p [Hp Hc]].
           exists p. split; [right; exact Hp | exact Hc].
    + apply IH; [|exact Hw].
      destruct Hin as [Hin | [Heq | Hin]].
      * left; right; exact Hin.
      * left; left; exact Heq.
      * right; exact Hin.
Qed.

Lemma replaceAllChar_keeps (x : N) (r s : jsstring) (c : N) :
  In c s -> (c = x -> In c r) -> In c (replaceAllChar x r s).
Proof.
  intros Hin Hr. unfold replaceAllChar. apply in_flat_map.
  exists c. split; [exact Hin|].
  destruct (N.eqb c x) eqn:E.
  - apply N.eqb_eq in E. auto.
  - left; reflexivity.
Qed.

Lemma tokenizeFilter_nonempty (s : jsstring) :
  ~ blank s -> tokenizeFilter s <> [].
Proof.
  intros H. destruct (not_blank_exists s H) as [c [Hin Hw]].
  unfold tokenizeFilter, splitWs.
  set (norm := replaceAllChar 41 _ _).
  assert (Hn : In c norm).
  { unfold norm. apply replaceAllChar_keeps.
    - apply replaceAllChar_keeps; [exact Hin|].
      intros ->. right; left; reflexivity.
    - intros ->. right; left; reflexivity. }
  destruct (splitWsFrom_keeps norm [] false c (or_intror Hn) Hw) as [p [Hp Hc]].
  assert (Hf : In p (filter (fun token => truthy (trim token))
                        (splitWsFrom [] false norm))).
  { apply filter_In. split; [exact Hp|].
    destruct (truthy (trim p)) eqn:E; [reflexivity|].
    apply truthy_trim in E. exfalso. exact (exists_not_blank p c Hc Hw E). }
  intros Heq. rewrite Heq in Hf. exact Hf.
Qed.

(** ** The parser returns *)

Section ParserTotal.
Variable tokens : list jsstring.

Lemma parseRule_advances (i : nat) :
  advances (fun i => Some (parseRule tokens i)) i.
Proof.
  unfold advances, parseRule.
  destruct (nth_error tokens i) as [t|].
  - destruct (truthy t && startsWith t (lit "!"));
      match goal with
      | |- context [if ?b then _ else _] => destruct b
      end; eexists _, _; (split; [reflexivity | lia]).
  - simpl. eexists _, _; (split; [reflexivity | lia]).
Qed.

Lemma groupLoop_returns pe (n : nat) :
  forall index acc,
    (forall i, (index <= i)%nat -> advances pe i) ->
    (length tokens - index < n)%nat ->
    exists es i', groupLoop tokens pe n index acc = Some (es, i')
                  /\ (index <= i')%nat.
Proof.
  induction n as [|n IH]; intros index acc Hpe Hn; [lia|].
  cbn [groupLoop].
  destruct ((index <? length tokens)%nat && negb (tokenIs tokens index ")"))
    eqn:E.
  - apply andb_true_iff in E. destruct E as [E _].
    apply Nat.ltb_lt in E.
    destruct (Hpe index (le_n _)) as [e [i' [He Hi]]]. rewrite He.
    destruct (IH i' (acc ++ [e])) as [es [j [Hes Hj]]].
    + intros i Hi'. apply Hpe. lia.
    + lia.
    + exists es, j. split; [exact Hes | lia].
  - exists acc, index. split; [reflexivity | lia].
Qed.

Lemma parsePrimaryExpression_advances pe (n : nat) (index : nat) :
  (forall i, (index < i)%nat -> advances pe i) ->
  (length tokens - S index < n)%nat ->
  advances (parsePrimaryExpression tokens pe n) index.
Proof.
  intros Hpe Hn. unfold advances, parsePrimaryExpression.
  destruct (tokenIs tokens index "(").
  - destruct (groupLoop_returns pe n (S index) []) as [es [j [Hes Hj]]].
    + intros i Hi. apply Hpe. lia.
    + exact Hn.
    + rewrite Hes.
      destruct ((j <? length tokens)%nat && tokenIs tokens j ")");
        eexists _, _; (split; [reflexivity | lia]).
  - apply parseRule_advances.
Qed.

Lemma logicalLoop_returns pp (n : nat) :
  forall lhs index,
    (forall i, (index <= i)%nat -> advances pp i) ->
    (length tokens - index < n)%nat ->
    exists e i', logicalLoop tokens pp n lhs index = Some (e, i')
                 /\ (index <= i')%nat.
Proof.
  induction n as [|n IH]; intros lhs index Hpp Hn; [lia|].
  cbn [logicalLoop].
  destruct ((index <? length tokens)%nat
            && (tokenIs tokens index "and" || tokenIs tokens index "or"))
    eqn:E.
  - apply andb_true_iff in E. destruct E as [E _].
    apply Nat.ltb_lt in E.
    destruct (Hpp (S index)) as [e [i' [He Hi]]]; [lia|]. rewrite He.
    destruct (IH (logical (if tokenIs tokens index "and" then opAnd else opOr)
                    lhs e) i') as [r [j [Hr Hj]]].
    + intros i Hi'. apply Hpp. lia.
    + lia.
    + exists r, j. split; [exact Hr | lia].
  - exists lhs, index. split; [reflexivity | lia].
Qed.

Lemma parseExpression_advances (fuel : nat) :
  forall index,
    (length tokens - index + 2 <= fuel)%nat ->
    advances (parseExpression tokens fuel) index.
Proof.
  induction fuel as [|fuel IH]; intros index Hf; [lia|].
  assert (Hpp : forall i, (index <= i)%nat ->
            advances (parsePrimaryExpression tokens
                        (parseExpression tokens fuel) fuel) i).
  { intros i Hi.
    destruct (Nat.lt_ge_cases i (length tokens)) as [Hlt | Hge].
    - apply parsePrimaryExpression_advances.
      + intros j Hj. apply IH. lia.
      + lia.
    - unfold advances, parsePrimaryExpression, tokenIs.
      assert (Hnone : nth_error tokens i = None)
        by (apply nth_error_None; lia).
      rewrite Hnone. apply parseRule_advances. }
  unfold advances. cbn [parseExpression]. unfold parseLogicalExpression.
  destruct (Hpp index (le_n _)) as [lhs [i1 [H1 Hi1]]]. rewrite H1.
  destruct (logicalLoop_returns
              (parsePrimaryExpression tokens (parseExpression tokens fuel) fuel)
              fuel lhs i1) as [e [j [He Hj]]].
  - intros i Hi. apply Hpp. lia.
  - lia.
  - exists e, j. split; [exact He | lia].
Qed.

Lemma parseTokens_returns : exists e, parseTokens tokens = Some e.
Proof.
  unfold parseTokens.
  destruct (parseExpression_advances (length tokens + 2) 0) as [e [i [H _]]].
  - lia.
  - rewrite H. exists e. reflexivity.
Qed.
End ParserTotal.

Lemma parseCustomFilter_total (filterString : jsstring) :
  exists r, parseCustomFilter filterString = Some r
            /\ (r = None <-> blank filterString).
Proof.
  unfold parseCustomFilter.
  destruct (truthy (trim filterString)) eqn:E; simpl.
  - assert (Hnb : ~ blank filterString).
    { intros Hb. apply truthy_trim in Hb. congruence. }
    pose proof (tokenizeFilter_nonempty _ Hnb) as Hne.
    destruct (tokenizeFilter filterString) as [|t ts] eqn:Et; [congruence|].
    cbn [length Nat.eqb].
    destruct (parseTokens_returns (t :: ts)) as [e He]. rewrite He.
    exists (Some e). split; [reflexivity|].
    split; [discriminate | intros Hb; contradiction].
  - exists None. split; [reflexivity|].
    split; [intros _; apply truthy_trim; exact E | reflexivity].
Qed.

(** Unbalanced parentheses, a trailing operator, a stray closing
    parenthesis: the parser keeps what it could read, and a missing
    operand becomes the empty path rule. *)
Lemma parseCustomFilter_malformed :
  parseCustomFilter (lit "(#a")
  = Some (Some (group [tagRule "a"]))
  /\ parseCustomFilter (lit "#a and")
     = Some (Some (logical opAnd (tagRule "a")
                     (rule (mkRule include [] false))))
  /\ parseCustomFilter (lit "#a ) #b") = Some (Some (tagRule "a"))
  /\ parseCustomFilter (lit ")")
     = Some (Some (rule (mkRule include (lit ")") false)))
  /\ parseCustomFilter (lit "((") = Some (Some (group [group []])).
Proof. repeat split; vm_compute; reflexivity. Qed.

(** ** Evaluation *)

(** C2.  A tag rule matches exactly when the raw text contains ["#"]
    followed by the value; a path rule matches exactly when the file
    path is the value or starts with the value followed by ["/"]; an
    include rule evaluates to the match test and an exclude rule to its
    negation. *)
Theorem matchFilterRule_spec (task : Task) (ty : FilterRuleType)
  (v : jsstring) (tag : bool) :
  (matchFilterRule task (mkRule ty v true) = true
   <-> contains (rawText task) (lit "#" ++ v))
  /\ (matchFilterRule task (mkRule ty v false) = true
      <-> filePath task = v \/ hasPrefix (filePath task) (v ++ lit "/"))
  /\ evaluateExpression task (rule (mkRule include v tag))
     = matchFilterRule task (mkRule include v tag)
  /\ evaluateExpression task (rule (mkRule exclude v tag))
     = negb (matchFilterRule task (mkRule exclude v tag)).
Proof.
  split; [|split; [|split; reflexivity]].
  - unfold matchFilterRule. cbn [isTag value]. apply includes_spec.
  - unfold matchFilterRule. cbn [isTag value].
    rewrite orb_true_iff, startsWith_spec, eqb_eq. tauto.
Qed.

(** ** Filtering by date *)

(** C3, as amended.  [filterTasks] returns the sub-list of the tasks
    that pass the date test and the custom filter, in their order; the
    date test lets through a task without due date and a task whose due
    date is not later than 23:59:59.999 of the cut-off day, so a valid
    due date passes exactly up to that instant. *)
Theorem filterTasks_spec (tza : Z) (tasks : list Task)
  (settings : MyPluginSettings) (filterDate : Date) :
  exists keep, filterTasks tza tasks settings filterDate
               = Some (filter keep tasks)
    /\ (forall t, keep t = true
                  <-> dateEligible tza filterDate t /\ filterAccepts settings t)
    /\ (forall t, In t (filter keep tasks)
                  <-> In t tasks /\ dateEligible tza filterDate t
                      /\ filterAccepts settings t)
    /\ (forall c x, gt (ValidDate x) (endOfDay tza (ValidDate c)) = false
                    <-> (x <= (c + tza) / 86400000 * 86400000 + 86399999 - tza)%Z).
Proof.
  unfold filterTasks.
  destruct (parseCustomFilter_total (customFilter (taskFilter settings)))
    as [r [Hr Hblank]].
  rewrite Hr. eexists. split; [reflexivity|].
  assert (Hkeep : forall t,
    (if match dueDate t with
        | Some due => gt due (endOfDay tza filterDate)
        | None => false
        end
     then false
     else match r with
          | Some e => evaluateExpression t e
          | None => true
          end) = true
    <-> dateEligible tza filterDate t /\ filterAccepts settings t).
  { intros t. unfold dateEligible, filterAccepts. rewrite Hr.
    destruct (dueDate t) as [due|].
    - destruct (gt due (endOfDay tza filterDate)) eqn:Eg.
      + split; [discriminate|].
        intros [[Hd | [d [Hd Hg]]] _]; [discriminate|].
        inversion Hd; subst. congruence.
      + destruct r as [e|].
        * split.
          -- intros He. split; [right; exists due; auto|].
             right. exists e. auto.
          -- intros [_ [Hb | [e' [He' Hev]]]].
             ++ apply Hblank in Hb. discriminate.
             ++ inversion He'; subst. exact Hev.
        * split; [|reflexivity]. intros _.
          split; [right; exists due; auto|].
          left. apply Hblank. reflexivity.
    - destruct r as [e|].
      + split.
        * intros He. split; [left; reflexivity|]. right. exists e. auto.
        * intros [_ [Hb | [e' [He' Hev]]]].
          -- apply Hblank in Hb. discriminate.
          -- inversion He'; subst. exact Hev.
      + split; [|reflexivity]. intros _.
        split; [left; reflexivity|]. left. apply Hblank. reflexivity. }
  split; [exact Hkeep|]. split.
  - intros t. rewrite filter_In, Hkeep. reflexivity.
  - intros c x. unfold gt, endOfDay, UTC, LocalTime, Day, msPerDay.
    rewrite Z.ltb_ge. reflexivity.
Qed.

(** C3, as stated, fails.  The extraction gives the task of the line
    [- [ ] pay rent @2024-13-45] an Invalid Date as due date; that due
    date is not at or before the end of the cut-off day, and
    [filterTasks] keeps the task. *)
Lemma filterTasks_keeps_invalid_due_date :
  let t := mkTask (lit "pay rent @2024-13-45") false (lit "todo.md")
             (Some InvalidDate) (lit "pay rent @2024-13-45") in
  extractBasicTasks [(lit "todo.md", Some (lit "- [ ] pay rent @2024-13-45"))]
  = Some [t]
  /\ filterTasks 0 [t] (settingsWith "") (ValidDate 1710460800000) = Some [t]
  /\ ~ (dateEligible_claimed 0 (ValidDate 1710460800000) t
        /\ filterAccepts (settingsWith "") t).
Proof.
  split; [vm_compute; reflexivity|].
  split; [vm_compute; reflexivity|].
  intros [[H | [due [H1 H2]]] _].
  - discriminate.
  - cbn in H1. inversion H1; subst. discriminate.
Qed.

(** ** Filtering by range *)

Lemma inRange_spec (startDate endDate due : Date) :
  ge due startDate && le due endDate = true <-> inRange startDate endDate due.
Proof.
  unfold inRange, ge, le. rewrite andb_true_iff. split.
  - destruct due as [|x], startDate as [|a], endDate as [|b];
      intros [H1 H2]; try discriminate.
    apply Z.leb_le in H1, H2. exists a, b, x. repeat split; assumption.
  - intros [a [b [x [-> [-> [-> [H1 H2]]]]]]].
    split; apply Z.leb_le; assumption.
Qed.

(** C7.  The range filter keeps exactly the tasks that have a due date
    inside the closed range; the status filter only removes tasks from
    that list, so whatever the settings (the filter string among them)
    and the status filter, a returned task has a due date in the range
    and a task without due date is not returned. *)
Theorem range_filter_spec (settings : MyPluginSettings)
  (status : TaskStatusFilter) (tasks : list Task) (startDate endDate : Date)
  (t : Task) :
  (In t (filteredByDateRange tasks startDate endDate)
   <-> In t tasks
       /\ exists due, dueDate t = Some due /\ inRange startDate endDate due)
  /\ (In t (renderTaskListByDateRange settings status tasks startDate endDate)
      <-> In t (filteredByDateRange tasks startDate endDate)
          /\ match status with
             | all => True
             | todo => completed t = false
             | done => completed t = true
             end)
  /\ (dueDate t = None ->
      ~ In t (renderTaskListByDateRange settings status tasks
                startDate endDate)).
Proof.
  assert (H1 : In t (filteredByDateRange tasks startDate endDate)
               <-> In t tasks
                   /\ exists due, dueDate t = Some due
                                  /\ inRange startDate endDate due).
  { unfold filteredByDateRange. rewrite filter_In.
    destruct (dueDate t) as [due|].
    - rewrite inRange_spec. split.
      + intros [Hin Hr]. split; [exact Hin|]. exists due. auto.
      + intros [Hin [d [Hd Hr]]]. inversion Hd; subst. auto.
    - split; [intros [_ H]; discriminate|].
      intros [_ [d [Hd _]]]. discriminate. }
  assert (H2 : In t (renderTaskListByDateRange settings status tasks
                       startDate endDate)
               <-> In t (filteredByDateRange tasks startDate endDate)
                   /\ match status with
                      | all => True
                      | todo => completed t = false
                      | done => completed t = true
                      end).
  { unfold renderTaskListByDateRange. destruct status.
    - tauto.
    - rewrite filter_In, negb_true_iff. reflexivity.
    - rewrite filter_In. reflexivity. }
  split; [exact H1|]. split; [exact H2|].
  intros Hnone Hin. apply H2 in Hin. destruct Hin as [Hin _].
  apply H1 in Hin. destruct Hin as [_ [due [Hd _]]]. congruence.
Qed.

Lemma range_filter_spec_witness :
  dueDate (sampleTask "water plants" None) = None
  /\ ~ In (sampleTask "water plants" None)
          (renderTaskListByDateRange (settingsWith "#home") all
             [sampleTask "water plants" None;
              sampleTask "buy milk" (Some (ValidDate 1710460800000))]
             (ValidDate 1709251200000) (ValidDate 1711843200000)).
Proof.
  split; [reflexivity|].
  apply (range_filter_spec (settingsWith "#home") all
           [sampleTask "water plants" None;
            sampleTask "buy milk" (Some (ValidDate 1710460800000))]
           (ValidDate 1709251200000) (ValidDate 1711843200000)
           (sampleTask "water plants" None)).
  reflexivity.
Defined.

(** ** Calendar arithmetic *)

Local Open Scope Z_scope.

Lemma YearFromDay_spec (d : Z) :
  DayFromYear (YearFromDay d) <= d /\ d < DayFromYear (YearFromDay d + 1).
Proof.
  unfold YearFromDay. split_ifs; bool_to_prop; try lia;
    unfold DayFromYear in *; Z.div_mod_to_equations; lia.
Qed.

Lemma DayFromYear_step (y : Z) :
  365 <= DayFromYear (y + 1) - DayFromYear y <= 366.
Proof. unfold DayFromYear. Z.div_mod_to_equations. lia. Qed.

Lemma DayFromYear_lt (a b : Z) : a < b -> DayFromYear a < DayFromYear b.
Proof. unfold DayFromYear. intros H. Z.div_mod_to_equations. lia. Qed.

Lemma YearFromDay_unique (d y : Z) :
  DayFromYear y <= d < DayFromYear (y + 1) -> YearFromDay d = y.
Proof.
  intros H. pose proof (YearFromDay_spec d) as H'.
  destruct (Z.lt_trichotomy (YearFromDay d) y) as [Hlt | [Heq | Hgt]];
    [exfalso | exact Heq | exfalso].
  - assert (Hle : DayFromYear (YearFromDay d + 1) <= DayFromYear y).
    { destruct (Z.eq_dec (YearFromDay d + 1) y) as [-> | Hne]; [lia|].
      apply Z.lt_le_incl, DayFromYear_lt. lia. }
    lia.
  - assert (Hle : DayFromYear (y + 1) <= DayFromYear (YearFromDay d)).
    { destruct (Z.eq_dec (y + 1) (YearFromDay d)) as [<- | Hne]; [lia|].
      apply Z.lt_le_incl, DayFromYear_lt. lia. }
    lia.
Qed.

Lemma MonthFromDay_range (d : Z) : 0 <= MonthFromDay d <= 11.
Proof. unfold MonthFromDay. split_ifs; lia. Qed.

Lemma Day_LocalTime_newDate (tza y m d : Z) :
  Day (LocalTime tza (newDate tza y m d)) = MakeDay (fullYearOf y) m d.
Proof.
  unfold Day, LocalTime, newDate, UTC.
  replace (MakeDay (fullYearOf y) m d * msPerDay - tza + tza)
    with (MakeDay (fullYearOf y) m d * msPerDay) by ring.
  apply Z.div_mul. unfold msPerDay. lia.
Qed.

Lemma getFullYear_newDate (tza y m d : Z) :
  getFullYear tza (newDate tza y m d)
  = YearFromDay (MakeDay (fullYearOf y) m d).
Proof. unfold getFullYear. rewrite Day_LocalTime_newDate. reflexivity. Qed.

Lemma getMonth_newDate (tza y m d : Z) :
  getMonth tza (newDate tza y m d)
  = MonthFromDay (MakeDay (fullYearOf y) m d).
Proof. unfold getMonth. rewrite Day_LocalTime_newDate. reflexivity. Qed.

Lemma getDate_newDate (tza y m d : Z) :
  getDate tza (newDate tza y m d) = DateFromDay (MakeDay (fullYearOf y) m d).
Proof. unfold getDate. rewrite Day_LocalTime_newDate. reflexivity. Qed.

Lemma getDay_newDate (tza y m d : Z) :
  getDay tza (newDate tza y m d) = WeekDayOfDay (MakeDay (fullYearOf y) m d).
Proof. unfold getDay. rewrite Day_LocalTime_newDate. reflexivity. Qed.

(** ** ISO weeks *)

Lemma isoWeekday_range (d : Z) : 1 <= isoWeekday d <= 7.
Proof.
  unfold isoWeekday, WeekDayOfDay. split_ifs; bool_to_prop;
    Z.div_mod_to_equations; lia.
Qed.

Lemma thursdayOfWeek_is_thursday (d : Z) :
  WeekDayOfDay (thursdayOfWeek d) = 4.
Proof.
  unfold thursdayOfWeek, isoWeekday, WeekDayOfDay. split_ifs; bool_to_prop;
    Z.div_mod_to_equations; lia.
Qed.

Lemma firstThursday_spec (y : Z) :
  WeekDayOfDay (firstThursday y) = 4
  /\ DayFromYear y <= firstThursday y <= DayFromYear y + 6.
Proof.
  unfold firstThursday, isoWeekday, WeekDayOfDay.
  generalize (DayFromYear y). intros j.
  split_ifs; bool_to_prop; Z.div_mod_to_equations; lia.
Qed.

Lemma isoWeek_range (d : Z) : 1 <= isoWeek d <= 53.
Proof.
  unfold isoWeek, isoWeekYear.
  pose proof (thursdayOfWeek_is_thursday d) as Ht.
  pose proof (YearFromDay_spec (thursdayOfWeek d)) as Hy.
  pose proof (firstThursday_spec (YearFromDay (thursdayOfWeek d))) as [Hf Hr].
  pose proof (DayFromYear_step (YearFromDay (thursdayOfWeek d))) as Hs.
  revert Ht Hy Hf Hr Hs.
  generalize (firstThursday (YearFromDay (thursdayOfWeek d))).
  generalize (DayFromYear (YearFromDay (thursdayOfWeek d) + 1)).
  generalize (DayFromYear (YearFromDay (thursdayOfWeek d))).
  generalize (thursdayOfWeek d).
  unfold WeekDayOfDay. intros th j j' ft Ht Hy Hf Hr Hs.
  Z.div_mod_to_equations. lia.
Qed.

Lemma isoWeekYear_near (d : Z) :
  YearFromDay d - 1 <= isoWeekYear d <= YearFromDay d + 1.
Proof.
  unfold isoWeekYear.
  pose proof (isoWeekday_range d) as Hw.
  pose proof (YearFromDay_spec d) as Hd.
  pose proof (YearFromDay_spec (thursdayOfWeek d)) as Ht.
  pose proof (DayFromYear_step (YearFromDay d)) as Hs1.
  pose proof (DayFromYear_step (YearFromDay d - 1)) as Hs2.
  replace (YearFromDay d - 1 + 1) with (YearFromDay d) in Hs2 by ring.
  assert (Hth : d - 3 <= thursdayOfWeek d <= d + 3)
    by (unfold thursdayOfWeek; lia).
  split.
  - destruct (Z_lt_le_dec (YearFromDay (thursdayOfWeek d)) (YearFromDay d - 1))
      as [Hlt | Hle]; [exfalso | exact Hle].
    assert (DayFromYear (YearFromDay (thursdayOfWeek d) + 1)
            <= DayFromYear (YearFromDay d - 1)).
    { destruct (Z.eq_dec (YearFromDay (thursdayOfWeek d) + 1) (YearFromDay d - 1))
        as [-> | Hne]; [lia|].
      apply Z.lt_le_incl, DayFromYear_lt. lia. }
    lia.
  - destruct (Z_lt_le_dec (YearFromDay d + 1) (YearFromDay (thursdayOfWeek d)))
      as [Hlt | Hle]; [exfalso | exact Hle].
    pose proof (DayFromYear_step (YearFromDay d + 1)) as Hs3.
    assert (DayFromYear (YearFromDay d + 1 + 1)
            <= DayFromYear (YearFromDay (thursdayOfWeek d))).
    { destruct (Z.eq_dec (YearFromDay d + 1 + 1) (YearFromDay (thursdayOfWeek d)))
        as [-> | Hne]; [lia|].
      apply Z.lt_le_incl, DayFromYear_lt. lia. }
    lia.
Qed.

(** C9.  [getWeekInfo], with the ISO-8601 rule in place of dayjs.  For
    every date there is the Thursday of its Monday-to-Sunday week, at
    most three days away; the year returned is the calendar year of
    that Thursday, and the week returned is [w] when the Thursday lies
    in the [w]-th seven days of that year, that is, when it is the
    [w]-th Thursday of the year.  So week 1 is the week of the year's
    first Thursday, the week is between 1 and 53, and the year is at
    most one away from the calendar year.  For 1 January 2023, a
    Sunday, the answer is week 52 of 2022. *)
Theorem getWeekInfo_iso (tza date : Z) :
  let d := Day (LocalTime tza date) in
  let w := week (getWeekInfo tza date) in
  let y := year (getWeekInfo tza date) in
  (exists th,
      WeekDayOfDay th = 4
      /\ th - 3 <= d <= th + 3
      /\ YearFromDay th = y
      /\ DayFromYear y + 7 * (w - 1) <= th < DayFromYear y + 7 * w)
  /\ 1 <= w <= 53
  /\ getFullYear tza date - 1 <= y <= getFullYear tza date + 1
  /\ getWeekInfo tza (newDate tza 2023 0 1) = mkWeekInfo 52 2022
  /\ getFullYear tza (newDate tza 2023 0 1) = 2023
  /\ getDay tza (newDate tza 2023 0 1) = 0.
Proof.
  cbv zeta. split; [|split; [apply isoWeek_range|]].
  - exists (thursdayOfWeek (Day (LocalTime tza date))).
    split; [apply thursdayOfWeek_is_thursday|].
    split; [pose proof (isoWeekday_range (Day (LocalTime tza date)));
            unfold thursdayOfWeek; lia|].
    split; [reflexivity|].
    unfold getWeekInfo. cbn [week year]. unfold isoWeek, isoWeekYear.
    pose proof (thursdayOfWeek_is_thursday (Day (LocalTime tza date)))
      as Ht.
    destruct (firstThursday_spec
                (YearFromDay (thursdayOfWeek (Day (LocalTime tza date)))))
      as [Hf Hr].
    revert Ht Hf Hr.
    generalize (firstThursday
                  (YearFromDay (thursdayOfWeek (Day (LocalTime tza date))))).
    generalize (DayFromYear
                  (YearFromDay (thursdayOfWeek (Day (LocalTime tza date))))).
    generalize (thursdayOfWeek (Day (LocalTime tza date))).
    intros th j ft. unfold WeekDayOfDay. intros Ht Hf Hr.
    Z.div_mod_to_equations. lia.
  - split; [apply isoWeekYear_near|].
    unfold getWeekInfo. rewrite getFullYear_newDate, getDay_newDate.
    rewrite Day_LocalTime_newDate. repeat split; vm_compute; reflexivity.
Qed.

(** ** Formatting *)

Lemma skipn_prefix (p post : jsstring) : skipn (length p) (p ++ post) = post.
Proof. induction p as [|c p IH]; simpl; [reflexivity | exact IH]. Qed.

Lemma replaceFirst_spec (pat rep s : jsstring) :
  replacesFirst pat rep s (replaceFirst pat rep s).
Proof.
  unfold replacesFirst. induction s as [|c s IH].
  - cbn [replaceFirst]. destruct (startsWith [] pat) eqn:E.
    + left. apply startsWith_spec in E. destruct E as [post E].
      exists [], post. split.
      * split; [exact E | intros; simpl; lia].
      * rewrite E at 1. rewrite skipn_prefix. reflexivity.
    + right. split; [|reflexivity].
      intros [pre [post H]]. destruct pre; [|discriminate].
      assert (startsWith [] pat = true)
        by (apply startsWith_spec; exists post; exact H).
      congruence.
  - cbn [replaceFirst]. destruct (startsWith (c :: s) pat) eqn:E.
    + left. apply startsWith_spec in E. destruct E as [post E].
      exists [], post. split.
      * split; [exact E | intros; simpl; lia].
      * rewrite E at 1. rewrite skipn_prefix. reflexivity.
    + assert (Hhead : forall pre' post',
                c :: s = pre' ++ pat ++ post' -> exists pre'',
                  pre' = c :: pre'' /\ s = pre'' ++ pat ++ post').
      { intros [|e pre''] post' H.
        - assert (startsWith (c :: s) pat = true)
            by (apply startsWith_spec; exists post'; exact H).
          congruence.
        - inversion H; subst. exists pre''. auto. }
      destruct IH as [[pre [post [[Hs Hmin] Hr]]] | [Hno Hr]].
      * left. exists (c :: pre), post. split.
        -- split; [rewrite Hs; reflexivity|].
           intros pre' post' H. destruct (Hhead _ _ H) as [pre'' [-> H']].
           simpl. apply le_n_S. exact (Hmin _ _ H').
        -- rewrite Hr. reflexivity.
      * right. split; [|rewrite Hr; reflexivity].
        intros [pre' [post' H]]. destruct (Hhead _ _ H) as [pre'' [_ H']].
        apply Hno. exists pre'', post'. exact H'.
Qed.

Lemma ofZ_one_digit (n : Z) : 0 <= n < 10 -> ofZ n = [digitChar n].
Proof.
  intros H. unfold ofZ, digitChar.
  destruct (n <? 0) eqn:E; [apply Z.ltb_lt in E; lia|].
  cbn [digitsOfPos].
  destruct (n <? 10) eqn:E'; [|apply Z.ltb_ge in E'; lia].
  rewrite Z.mod_small by lia. reflexivity.
Qed.

Lemma ofZ_two_digits (n : Z) :
  10 <= n < 100 -> ofZ n = [digitChar (n / 10); digitChar (n mod 10)].
Proof.
  intros H. unfold ofZ, digitChar.
  destruct (n <? 0) eqn:E; [apply Z.ltb_lt in E; lia|].
  assert (Hlog : 3 <= Z.log2 n).
  { change 3 with (Z.log2 8). apply Z.log2_le_mono. lia. }
  destruct (Z.to_nat (Z.log2 n)) as [|fuel] eqn:Ef; [lia|].
  cbn [digitsOfPos].
  destruct (n <? 10) eqn:E1; [apply Z.ltb_lt in E1; lia|].
  destruct (n / 10 <? 10) eqn:E2.
  - rewrite (Z.mod_small (n / 10)); [reflexivity|].
    apply Z.ltb_lt in E2. Z.div_mod_to_equations. lia.
  - apply Z.ltb_ge in E2. Z.div_mod_to_equations. lia.
Qed.

Lemma week_two_digits (w : Z) :
  0 <= w < 100 ->
  padStart0 2 (ofZ w) = [digitChar (w / 10); digitChar (w mod 10)].
Proof.
  intros H. destruct (Z_lt_le_dec w 10) as [Hlt | Hge].
  - rewrite ofZ_one_digit by lia. unfold padStart0. cbn [length Nat.sub repeat app].
    rewrite Z.div_small, Z.mod_small by lia. reflexivity.
  - rewrite ofZ_two_digits by lia. reflexivity.
Qed.

Lemma getQuarter_range (tza date : Z) : 1 <= getQuarter tza date <= 4.
Proof.
  unfold getQuarter, getMonth.
  pose proof (MonthFromDay_range (Day (LocalTime tza date))) as H.
  Z.div_mod_to_equations. lia.
Qed.


(** The default weekly and quarterly file-name formats, and a template
    that repeats the tokens, on 1 January 2023. *)
Lemma formatDate_examples (tza : Z) (format : Z -> jsstring -> jsstring) :
  let date := newDate tza 2023 0 1 in
  formatDate tza format date (lit "GGGG-WW") = format date (lit "2022-52")
  /\ formatDate tza format date (lit "YYYY-Q[Q]") = format date (lit "YYYY-1[Q]")
  /\ formatDate tza format date (lit "GGGG WW Q / GGGG WW Q")
     = format date (lit "2022 52 1 / GGGG WW Q").
Proof.
  intros date. unfold formatDate, getWeekInfo, getQuarter, date.
  rewrite getMonth_newDate, Day_LocalTime_newDate.
  repeat split; f_equal.
Qed.

(** ** The month grid *)

Lemma getFirstDayOfMonth_eq (tza cur : Z) :
  getFirstDayOfMonth tza cur
  = WeekDayOfDay
      (MakeDay (fullYearOf (getFullYear tza cur)) (getMonth tza cur) 1).
Proof. unfold getFirstDayOfMonth. apply getDay_newDate. Qed.

Lemma getDaysInMonth_eq (tza cur : Z) :
  getDaysInMonth tza cur
  = DateFromDay
      (MakeDay (fullYearOf (getFullYear tza cur)) (getMonth tza cur + 1) 0).
Proof. unfold getDaysInMonth. apply getDate_newDate. Qed.

Lemma ceilDiv_spec (a : Z) : 7 * (ceilDiv a 7 - 1) < a <= 7 * ceilDiv a 7.
Proof. unfold ceilDiv. Z.div_mod_to_equations. lia. Qed.

(** The number of leading days, the number of rows and the shape of
    the grid, for every month. *)
Lemma month_grid_shape (tza cur : Z) :
  let data := getCalendarMonthData tza cur in
  (firstDayOfMonth data = 0 /\ prevMonthDaysToShow data = 6
   \/ firstDayOfMonth data <> 0
      /\ prevMonthDaysToShow data = firstDayOfMonth data - 1)
  /\ 7 * (rowsNeeded data - 1)
     < prevMonthDaysToShow data + daysInMonth data <= 7 * rowsNeeded data
  /\ length (getMonthDates tza cur) = Z.to_nat (rowsNeeded data)
  /\ Forall (fun row => length row = 7%nat) (getMonthDates tza cur).
Proof.
  intros data. split; [|split; [|split]].
  - unfold data, getCalendarMonthData.
    cbn [firstDayOfMonth prevMonthDaysToShow]. unfold getPrevMonthDaysToShow.
    destruct (getFirstDayOfMonth tza cur =? 0) eqn:E;
      [apply Z.eqb_eq in E | apply Z.eqb_neq in E]; auto.
  - unfold data, getCalendarMonthData.
    cbn [rowsNeeded prevMonthDaysToShow daysInMonth]. unfold getCalendarRows.
    apply ceilDiv_spec.
  - unfold getMonthDates. fold data. rewrite length_map, length_seq.
    reflexivity.
  - unfold getMonthDates. apply Forall_forall. intros row Hin.
    apply in_map_iff in Hin. destruct Hin as [r [<- _]].
    rewrite length_map, length_seq. reflexivity.
Qed.

Ltac cell_of_month Hy Hm :=
  unfold getCellDate;
  rewrite getFirstDayOfMonth_eq, !getDaysInMonth_eq;
  rewrite !getFullYear_newDate, !getMonth_newDate, Hy, Hm;
  vm_compute (WeekDayOfDay _); vm_compute (getPrevMonthDaysToShow _);
  vm_compute (_ =? _); cbv iota;
  repeat match goal with
         | |- context [DateFromDay ?x] =>
             let v := eval vm_compute in (DateFromDay x) in
             change (DateFromDay x) with v
         end;
  cbv zeta; split_ifs; f_equal; f_equal; ring.

Lemma getCellDate_february_2024 (tza cur r d : Z) :
  getFullYear tza cur = 2024 -> getMonth tza cur = 1 ->
  getCellDate tza r d cur =
  let n := r * 7 + d in
  if n <? 3 then mkCell (newDate tza 2024 0 (29 + n)) true
  else if n <? 3 + 29 then mkCell (newDate tza 2024 1 (n - 2)) false
  else mkCell (newDate tza 2024 2 (n - 31)) true.
Proof. intros Hy Hm. cell_of_month Hy Hm. Qed.

Lemma getCellDate_january_2023 (tza cur r d : Z) :
  getFullYear tza cur = 2023 -> getMonth tza cur = 0 ->
  getCellDate tza r d cur =
  let n := r * 7 + d in
  if n <? 6 then mkCell (newDate tza 2022 (-1) (26 + n)) true
  else if n <? 6 + 31 then mkCell (newDate tza 2023 0 (n - 5)) false
  else mkCell (newDate tza 2023 1 (n - 36)) true.
Proof. intros Hy Hm. cell_of_month Hy Hm. Qed.

(** The grid of February 2024: five rows of seven cells, 29 to 31
    January in front and 1 to 3 March behind. *)
Lemma month_grid_february_2024 (tza cur : Z) :
  getFullYear tza cur = 2024 -> getMonth tza cur = 1 ->
  getMonthDates tza cur
  = [monthDays tza 2024 0 29 31 true ++ monthDays tza 2024 1 1 4 false;
     monthDays tza 2024 1 5 11 false;
     monthDays tza 2024 1 12 18 false;
     monthDays tza 2024 1 19 25 false;
     monthDays tza 2024 1 26 29 false ++ monthDays tza 2024 2 1 3 true].
Proof.
  intros Hy Hm. unfold getMonthDates.
  assert (Hrows : rowsNeeded (getCalendarMonthData tza cur) = 5).
  { unfold getCalendarMonthData. cbn [rowsNeeded].
    rewrite getFirstDayOfMonth_eq, getDaysInMonth_eq, Hy, Hm. reflexivity. }
  rewrite Hrows. change (Z.to_nat 5) with 5%nat. cbn [seq map].
  rewrite !(getCellDate_february_2024 tza cur _ _ Hy Hm).
  reflexivity.
Qed.

Lemma month_grid_february_2024_witness :
  getMonthDates 28800000 1707494400000
  = [monthDays 28800000 2024 0 29 31 true
       ++ monthDays 28800000 2024 1 1 4 false;
     monthDays 28800000 2024 1 5 11 false;
     monthDays 28800000 2024 1 12 18 false;
     monthDays 28800000 2024 1 19 25 false;
     monthDays 28800000 2024 1 26 29 false
       ++ monthDays 28800000 2024 2 1 3 true].
Proof.
  apply (month_grid_february_2024 28800000 1707494400000); reflexivity.
Defined.

Lemma DayFromYear_succ (y : Z) :
  DayFromYear (y + 1) = DayFromYear y + (if isLeap y then 366 else 365).
Proof.
  unfold DayFromYear, isLeap.
  destruct (y mod 4 =? 0) eqn:E4; destruct (y mod 100 =? 0) eqn:E100;
    destruct (y mod 400 =? 0) eqn:E400; cbn [andb orb negb];
    bool_to_prop; Z.div_mod_to_equations; lia.
Qed.

Lemma december_day (y day : Z) :
  1 <= day <= 31 ->
  let D := DayFromYear y + monthStart (isLeap y) 11 + day - 1 in
  YearFromDay D = y /\ MonthFromDay D = 11 /\ DateFromDay D = day.
Proof.
  intros Hday D.
  assert (Hy : YearFromDay D = y).
  { apply YearFromDay_unique. rewrite DayFromYear_succ. unfold D.
    destruct (isLeap y); cbn [monthStart]; lia. }
  assert (Hm : MonthFromDay D = 11).
  { unfold MonthFromDay. rewrite Hy. unfold D.
    destruct (isLeap y); cbn [monthStart]; split_ifs; bool_to_prop; lia. }
  split; [exact Hy|]. split; [exact Hm|].
  unfold DateFromDay. rewrite Hm, Hy. unfold D. lia.
Qed.

Lemma MakeDay_december_before (y day : Z) :
  MakeDay y (-1) day
  = DayFromYear (y - 1) + monthStart (isLeap (y - 1)) 11 + day - 1.
Proof. unfold MakeDay. reflexivity. Qed.

Lemma WeekDayOfDay_range (d : Z) : 0 <= WeekDayOfDay d <= 6.
Proof. unfold WeekDayOfDay. Z.div_mod_to_equations. lia. Qed.

Lemma fullYearOf_id (y : Z) : 99 < y -> fullYearOf y = y.
Proof.
  intros H. unfold fullYearOf.
  destruct (y <=? 99) eqn:E; [apply Z.leb_le in E; lia|].
  rewrite andb_false_r. reflexivity.
Qed.

(** In every January the leading cells are days of the December two
    years before. *)
Lemma january_leading_cells (tza cur r d : Z) :
  getMonth tza cur = 0 -> 101 < getFullYear tza cur ->
  0 <= r * 7 + d < getPrevMonthDaysToShow (getFirstDayOfMonth tza cur) ->
  let c := getCellDate tza r d cur in
  isOtherMonth c = true
  /\ getFullYear tza (date c) = getFullYear tza cur - 2
  /\ getMonth tza (date c) = 11.
Proof.
  intros Hm Hy Hn.
  assert (Hp : getPrevMonthDaysToShow (getFirstDayOfMonth tza cur) <= 6).
  { unfold getPrevMonthDaysToShow. rewrite getFirstDayOfMonth_eq.
    pose proof (WeekDayOfDay_range
      (MakeDay (fullYearOf (getFullYear tza cur)) (getMonth tza cur) 1)).
    split_ifs; lia. }
  unfold getCellDate. rewrite Hm.
  destruct (r * 7 + d <? getPrevMonthDaysToShow (getFirstDayOfMonth tza cur))
    eqn:E; [|apply Z.ltb_ge in E; lia].
  change (0 =? 0) with true. cbv iota zeta. cbn [isOtherMonth date].
  set (Y := getFullYear tza cur) in *.
  assert (Hdim : getDaysInMonth tza (newDate tza (Y - 1) (0 - 1) 1) = 31).
  { rewrite getDaysInMonth_eq, getFullYear_newDate, getMonth_newDate.
    rewrite (fullYearOf_id (Y - 1)) by lia.
    change (0 - 1) with (-1). rewrite MakeDay_december_before.
    destruct (december_day (Y - 1 - 1) 1) as [Hy1 [Hm1 _]]; [lia|].
    rewrite Hy1, Hm1. rewrite (fullYearOf_id (Y - 1 - 1)) by lia.
    change (11 + 1) with 12. unfold MakeDay.
    change (12 / 12) with 1. change (12 mod 12) with 0. cbn [monthStart].
    replace (DayFromYear (Y - 1 - 1 + 1) + 0 + 0 - 1)
      with (DayFromYear (Y - 1 - 1) + monthStart (isLeap (Y - 1 - 1)) 11 + 31 - 1).
    - destruct (december_day (Y - 1 - 1) 31) as [_ [_ Hd]]; [lia|]. exact Hd.
    - rewrite DayFromYear_succ.
      destruct (isLeap (Y - 1 - 1)); cbn [monthStart]; lia. }
  rewrite Hdim. split; [reflexivity|].
  rewrite getFullYear_newDate, getMonth_newDate.
  rewrite (fullYearOf_id (Y - 1)) by lia.
  change (0 - 1) with (-1). rewrite MakeDay_december_before.
  destruct (december_day (Y - 1 - 1)
              (31 - getPrevMonthDaysToShow (getFirstDayOfMonth tza cur)
               + (r * 7 + d) + 1)) as [Hy2 [Hm2 _]]; [lia|].
  rewrite Hy2, Hm2. split; [lia | reflexivity].
Qed.

(** C8.  In a January the leading cells of the grid do not hold the
    last days of the previous month.  January 2023 starts on a Sunday,
    so the grid has six leading cells; [getCellDate] gives them month
    [-1] of year 2022, and [new Date(2022, -1, day)] is a day of
    December 2021: the first row is 26 to 31 December 2021 followed by
    1 January 2023. *)
Theorem month_grid_january_2023 (tza cur : Z) :
  getFullYear tza cur = 2023 -> getMonth tza cur = 0 ->
  getFirstDayOfMonth tza cur = 0
  /\ prevMonthDaysToShow (getCalendarMonthData tza cur) = 6
  /\ rowsNeeded (getCalendarMonthData tza cur) = 6
  /\ hd [] (getMonthDates tza cur)
     = monthDays tza 2021 11 26 31 true ++ monthDays tza 2023 0 1 1 false
  /\ map (fun c => (getFullYear tza (date c), getMonth tza (date c),
                    getDate tza (date c), isOtherMonth c))
       (hd [] (getMonthDates tza cur))
     = [(2021, 11, 26, true); (2021, 11, 27, true); (2021, 11, 28, true);
        (2021, 11, 29, true); (2021, 11, 30, true); (2021, 11, 31, true);
        (2023, 0, 1, false)].
Proof.
  intros Hy Hm.
  assert (Hfirst : getFirstDayOfMonth tza cur = 0)
    by (rewrite getFirstDayOfMonth_eq, Hy, Hm; reflexivity).
  assert (Hrows : rowsNeeded (getCalendarMonthData tza cur) = 6).
  { unfold getCalendarMonthData. cbn [rowsNeeded].
    rewrite getFirstDayOfMonth_eq, getDaysInMonth_eq, Hy, Hm. reflexivity. }
  assert (Hrow : hd [] (getMonthDates tza cur)
                 = monthDays tza 2021 11 26 31 true
                   ++ monthDays tza 2023 0 1 1 false).
  { unfold getMonthDates. rewrite Hrows. change (Z.to_nat 6) with 6%nat.
    cbn [seq map hd].
    rewrite !(getCellDate_january_2023 tza cur _ _ Hy Hm). reflexivity. }
  split; [exact Hfirst|]. split; [|split; [exact Hrows|split; [exact Hrow|]]].
  - unfold getCalendarMonthData. cbn [prevMonthDaysToShow].
    rewrite Hfirst. reflexivity.
  - rewrite Hrow. unfold monthDays. cbn [seq map app Nat.sub date isOtherMonth].
    rewrite !getFullYear_newDate, !getMonth_newDate, !getDate_newDate.
    reflexivity.
Qed.

Lemma month_grid_january_2023_witness :
  getFullYear 28800000 1673712000000 = 2023
  /\ getMonth 28800000 1673712000000 = 0
  /\ map (fun c => (getFullYear 28800000 (date c), getMonth 28800000 (date c),
                    getDate 28800000 (date c), isOtherMonth c))
       (hd [] (getMonthDates 28800000 1673712000000))
     = [(2021, 11, 26, true); (2021, 11, 27, true); (2021, 11, 28, true);
        (2021, 11, 29, true); (2021, 11, 30, true); (2021, 11, 31, true);
        (2023, 0, 1, false)].
Proof.
  split; [reflexivity|]. split; [reflexivity|].
  apply (month_grid_january_2023 28800000 1673712000000); reflexivity.
Defined.

(** The trailing cells of a December are built in the same way: the
    grid of December 2024 ends with 1 to 5 January 2026. *)
Lemma getCellDate_december_2024 (tza cur r d : Z) :
  getFullYear tza cur = 2024 -> getMonth tza cur = 11 ->
  getCellDate tza r d cur =
  let n := r * 7 + d in
  if n <? 6 then mkCell (newDate tza 2024 10 (25 + n)) true
  else if n <? 6 + 31 then mkCell (newDate tza 2024 11 (n - 5)) false
  else mkCell (newDate tza 2025 12 (n - 36)) true.
Proof. intros Hy Hm. cell_of_month Hy Hm. Qed.

Lemma month_grid_december_2024 (tza cur : Z) :
  getFullYear tza cur = 2024 -> getMonth tza cur = 11 ->
  map (fun c => (getFullYear tza (date c), getMonth tza (date c),
                 getDate tza (date c), isOtherMonth c))
    (last (getMonthDates tza cur) [])
  = [(2024, 11, 30, false); (2024, 11, 31, false); (2026, 0, 1, true);
     (2026, 0, 2, true); (2026, 0, 3, true); (2026, 0, 4, true);
     (2026, 0, 5, true)].
Proof.
  intros Hy Hm.
  assert (Hrows : rowsNeeded (getCalendarMonthData tza cur) = 6).
  { unfold getCalendarMonthData. cbn [rowsNeeded].
    rewrite getFirstDayOfMonth_eq, getDaysInMonth_eq, Hy, Hm. reflexivity. }
  assert (Hrow : last (getMonthDates tza cur) []
                 = monthDays tza 2024 11 30 31 false
                   ++ monthDays tza 2025 12 1 5 true).
  { unfold getMonthDates. rewrite Hrows. change (Z.to_nat 6) with 6%nat.
    cbn [seq map last].
    rewrite !(getCellDate_december_2024 tza cur _ _ Hy Hm). reflexivity. }
  rewrite Hrow. unfold monthDays. cbn [seq map app Nat.sub date isOtherMonth].
  rewrite !getFullYear_newDate, !getMonth_newDate, !getDate_newDate.
  reflexivity.
Qed.

(** ** The matcher reads forward *)

Section Reads.
Context {A : Type}.

(** A successful run hands the rest of the input to its continuation,
    and a shorter rest when the expression is consuming. *)
Lemma run_reads (r : regex) :
  forall (pre rest : jsstring) (c : captures)
         (k : jsstring -> jsstring -> captures -> option A) (x : A),
    run r pre rest c k = Some x ->
    exists pre' rest' c',
      k pre' rest' c' = Some x
      /\ (length rest' <= length rest)%nat
      /\ (consuming r = true -> (length rest' < length rest)%nat).
Proof.
  induction r as [|p|a IHa b IHb|a IHa b IHb|a IHa| | |n a IHa];
    intros pre rest c k x H; cbn [run consuming] in *.
  - exists pre, rest, c. repeat split; [exact H | lia | discriminate].
  - destruct rest as [|y rest']; [discriminate|].
    destruct (p y); [|discriminate].
    exists (y :: pre), rest', c. cbn [length].
    repeat split; [exact H | lia | lia].
  - apply IHa in H. destruct H as [pre1 [rest1 [c1 [H [Hle1 Hlt1]]]]].
    apply IHb in H. destruct H as [pre2 [rest2 [c2 [H [Hle2 Hlt2]]]]].
    exists pre2, rest2, c2. repeat split; [exact H | lia |].
    intros Hc. apply orb_true_iff in Hc. destruct Hc as [Hc | Hc].
    + specialize (Hlt1 Hc). lia.
    + specialize (Hlt2 Hc). lia.
  - destruct (run a pre rest c k) as [y|] eqn:E.
    + inversion H; subst y. apply IHa in E.
      destruct E as [pre1 [rest1 [c1 [E [Hle Hlt]]]]].
      exists pre1, rest1, c1. repeat split; [exact E | exact Hle |].
      intros Hc. apply andb_true_iff in Hc. tauto.
    + apply IHb in H. destruct H as [pre1 [rest1 [c1 [H [Hle Hlt]]]]].
      exists pre1, rest1, c1. repeat split; [exact H | exact Hle |].
      intros Hc. apply andb_true_iff in Hc. tauto.
  - revert H. generalize (length rest) at 1. intros n. revert pre rest c.
    induction n as [|n IHn]; intros pre rest c H.
    + exists pre, rest, c. repeat split; [exact H | lia | discriminate].
    + match type of H with
      | match ?t with _ => _ end = _ => destruct t as [y|] eqn:E
      end.
      * inversion H; subst y. apply IHa in E.
        destruct E as [pre1 [rest1 [c1 [E [Hle _]]]]].
        destruct (length rest1 <? length rest)%nat; [|discriminate].
        apply IHn in E. destruct E as [pre2 [rest2 [c2 [E [Hle2 _]]]]].
        exists pre2, rest2, c2. repeat split; [exact E | lia | discriminate].
      * exists pre, rest, c. repeat split; [exact H | lia | discriminate].
  - exists pre, rest, c.
    destruct pre as [|y pre']; [|destruct (isLineTerminator y)];
      try discriminate; repeat split; try exact H; try lia; discriminate.
  - exists pre, rest, c.
    destruct rest as [|y rest']; [|destruct (isLineTerminator y)];
      try discriminate; repeat split; try exact H; try lia; discriminate.
  - apply IHa in H. destruct H as [pre1 [rest1 [c1 [H [Hle Hlt]]]]].
    eexists pre1, rest1, _. repeat split; [exact H | exact Hle | exact Hlt].
Qed.
End Reads.

Lemma searchFrom_reads (r : regex) (Hr : consuming r = true) :
  forall (rest pre : jsstring) (m : MatchResult),
    searchFrom r pre rest = Some m ->
    (length (matchRest m) < length rest)%nat.
Proof.
  induction rest as [|y rest IH]; intros pre m H; cbn [searchFrom] in H.
  - match type of H with
    | match ?t with _ => _ end = _ => destruct t as [m'|] eqn:E
    end; [|discriminate].
    apply run_reads in E. destruct E as [pre' [rest' [c' [E [_ Hlt]]]]].
    specialize (Hlt Hr). cbn [length] in Hlt. lia.
  - match type of H with
    | match ?t with _ => _ end = _ => destruct t as [m'|] eqn:E
    end.
    + inversion H; subst m'. apply run_reads in E.
      destruct E as [pre' [rest' [c' [E [_ Hlt]]]]].
      inversion E; subst m. cbn [matchRest]. exact (Hlt Hr).
    + apply IH in H. cbn [length]. lia.
Qed.

Lemma execAllFrom_returns (r : regex) (Hr : consuming r = true) :
  forall (fuel : nat) (pre rest : jsstring),
    (length rest < fuel)%nat ->
    exists ms, execAllFrom fuel r pre rest = Some ms.
Proof.
  induction fuel as [|fuel IH]; intros pre rest Hf; [lia|].
  cbn [execAllFrom]. destruct (searchFrom r pre rest) as [m|] eqn:E.
  - apply (searchFrom_reads r Hr) in E.
    destruct (IH (matchPre m) (matchRest m)) as [ms Hms]; [lia|].
    rewrite Hms. exists (m :: ms). reflexivity.
  - exists []. reflexivity.
Qed.

(** ** Extraction *)

(** The extraction returns for every vault: a match of [taskRegex]
    reads at least its dash, so each match loop ends within its fuel. *)
Lemma extractBasicTasks_returns (allFiles : list File) :
  exists tasks, extractBasicTasks allFiles = Some tasks.
Proof.
  induction allFiles as [|[path [content|]] files [tasks IH]].
  - exists []. reflexivity.
  - cbn [extractBasicTasks]. unfold execAll.
    destruct (execAllFrom_returns taskRegex eq_refl (S (length content)) []
                content) as [ms Hms]; [lia|].
    rewrite Hms, IH. eexists. reflexivity.
  - cbn [extractBasicTasks]. exists tasks. exact IH.
Qed.

Lemma marker_completed (c : N) :
  eqb (toLowerCase [c]) (lit "x") = true <-> c = 120%N \/ c = 88%N.
Proof.
  cbn [toLowerCase map eqb lit list_ascii_of_string]. rewrite andb_true_r.
  destruct ((65 <=? c) && (c <=? 90))%N eqn:E; rewrite N.eqb_eq.
  - apply andb_true_iff in E. destruct E as [E1 E2].
    apply N.leb_le in E1, E2. cbn. lia.
  - apply andb_false_iff in E. cbn.
    destruct E as [E | E]; apply N.leb_gt in E; lia.
Qed.

Lemma literalOf_escapeRegExp (rawText : jsstring) :
  literalOf (escapeRegExp rawText) = map unit rawText.
Proof.
  induction rawText as [|c s IH]; [reflexivity|].
  unfold escapeRegExp in *. cbn [flat_map map].
  destruct (isRegExpSpecial c) eqn:E.
  - cbn [app literalOf]. change (N.eqb 92 92) with true. cbv iota.
    rewrite IH. reflexivity.
  - cbn [app literalOf].
    destruct (N.eqb c 92) eqn:E'.
    + apply N.eqb_eq in E'. subst c. vm_compute in E. discriminate.
    + rewrite IH. reflexivity.
Qed.

(** Whatever the day written in the token, the due date is the local
    midnight of that day only where local time is UTC. *)
Lemma newDateFromString_is_utc (y1 y2 y3 y4 s1 m1 m2 s2 d1 d2 : N) (tza : Z) :
  let y := 1000 * digitValue y1 + 100 * digitValue y2
           + 10 * digitValue y3 + digitValue y4 in
  let m := 10 * digitValue m1 + digitValue m2 in
  let d := 10 * digitValue d1 + digitValue d2 in
  1 <= m <= 12 -> 1 <= d <= 31 -> 99 < y ->
  newDateFromString [y1; y2; y3; y4; s1; m1; m2; s2; d1; d2]
  = ValidDate (newDate tza y (m - 1) d + tza)
  /\ (newDateFromString [y1; y2; y3; y4; s1; m1; m2; s2; d1; d2]
      = ValidDate (newDate tza y (m - 1) d) <-> tza = 0).
Proof.
  intros y m d Hm Hd Hy.
  assert (H : newDateFromString [y1; y2; y3; y4; s1; m1; m2; s2; d1; d2]
              = ValidDate (newDate tza y (m - 1) d + tza)).
  { unfold newDateFromString. fold y m d.
    destruct ((1 <=? m) && (m <=? 12) && (1 <=? d) && (d <=? 31)) eqn:E.
    - unfold newDate, UTC. rewrite (fullYearOf_id y Hy). f_equal. ring.
    - exfalso. repeat rewrite andb_false_iff in E.
      destruct E as [[[E | E] | E] | E];
        first [apply Z.leb_gt in E | apply Z.ltb_ge in E]; lia. }
  split; [exact H|]. rewrite H. split.
  - intros Heq. inversion Heq. lia.
  - intros ->. f_equal. ring.
Qed.

(** White space after the closing bracket may include the end of the
    line: a bare [- [x]] takes the next line as its text, and that line
    is not read as a task of its own. *)
Lemma extraction_reads_across_lines :
  extractBasicTasks
    [(lit "todo.md", Some (lit "- [x]" ++ NL ++ lit "- [ ] real task"))]
  = Some [mkTask (lit "- [ ] real task") true (lit "todo.md") None
            (lit "- [ ] real task")].
Proof. vm_compute. reflexivity. Qed.

(** C5.  The due date of an extracted task is midnight UTC of the day
    written in the token, not midnight of that day in local time.  The
    line [- [ ] Buy milk <calendar> 2024-03-15] gives the time value of
    2024-03-15T00:00:00Z; five hours west of Greenwich that instant is
    on 14 March, and [new Date(2024, 2, 15)], the local reading of the
    same day, is another instant.  Eight hours east of Greenwich a
    task due on 31 March is missing from the list of March, whose
    range ends at local midnight of the 31st.  The marker decides the
    completed flag as claimed. *)
Theorem extraction_due_date_is_utc :
  extractBasicTasks [(lit "shopping.md", Some (shoppingNote " "))]
  = Some [mkTask buyMilk false (lit "shopping.md")
            (Some (ValidDate 1710460800000)) buyMilk;
          mkTask (lit "Call the bank due:2024-04-01") false (lit "shopping.md")
            (Some (ValidDate 1711929600000))
            (lit "Call the bank due:2024-04-01")]
  /\ (getFullYear (-18000000) 1710460800000,
      getMonth (-18000000) 1710460800000,
      getDate (-18000000) 1710460800000) = (2024, 2, 14)
  /\ newDate (-18000000) 2024 2 15 = 1710478800000
  /\ (forall tza, newDate tza 2024 2 15 = 1710460800000 <-> tza = 0)
  /\ extractBasicTasks [(lit "march.md", Some (lit "- [ ] Pay rent @2024-03-31"))]
     = Some [payRent]
  /\ renderTaskListByDateRange (settingsWith "") all [payRent]
       (ValidDate (newDate 28800000 2024 2 1))
       (ValidDate (newDate 28800000 2024 3 0)) = []
  /\ (forall c, eqb (toLowerCase [c]) (lit "x") = true
                <-> c = 120%N \/ c = 88%N).
Proof.
  split; [vm_compute; reflexivity|].
  split; [vm_compute; reflexivity|].
  split; [vm_compute; reflexivity|].
  split; [|split; [vm_compute; reflexivity|
                   split; [vm_compute; reflexivity|exact marker_completed]]].
  intros tza. unfold newDate, UTC.
  change (MakeDay (fullYearOf 2024) 2 15 * msPerDay) with 1710460800000. lia.
Qed.

(** ** Toggling a task *)

(** The pattern of [updateTaskInNote] can only match at the start of a
    line that fits, and a line that begins like a task (white space, a
    dash, white space, an opening bracket) never fits: whatever the
    task, its own line is not the one that is rewritten, and a note
    without a fitting line is written back as it was read. *)
Lemma dropS_repeat (j : nat) (t : jsstring) :
  dropS (repeat 115%N j ++ t) = dropS t.
Proof. induction j as [|j IH]; [reflexivity | exact IH]. Qed.

Section StarS.
Context {A : Type}.

Lemma star_s_fails (k : jsstring -> jsstring -> captures -> option A)
  (c : captures) :
  forall (rest pre : jsstring),
    (forall j pre' rest', rest = repeat 115%N j ++ rest' ->
                          k pre' rest' c = None) ->
    run (Star (chr "s")) pre rest c k = None.
Proof.
  intros rest pre. cbn [run]. generalize (length rest) at 1. intros n.
  revert rest pre. induction n as [|n IH]; intros rest pre Hk.
  - exact (Hk 0%nat pre rest eq_refl).
  - destruct rest as [|x rest1].
    + cbn. exact (Hk 0%nat pre [] eq_refl).
    + cbn [run chr lit list_ascii_of_string map].
      change (N_of_ascii "s") with 115%N.
      destruct (N.eqb x 115) eqn:E.
      * apply N.eqb_eq in E. subst x.
        assert (Hlt : (length rest1 <? length (115%N :: rest1))%nat = true)
          by (apply Nat.ltb_lt; cbn [length]; lia).
        rewrite Hlt. rewrite IH.
        -- exact (Hk 0%nat pre (115%N :: rest1) eq_refl).
        -- intros j pre' rest' Hj. apply (Hk (S j) pre' rest').
           rewrite Hj. reflexivity.
      * exact (Hk 0%nat pre (x :: rest1) eq_refl).
Qed.
End StarS.

Lemma updateTaskRegex_needs_fit {A : Type} (rawText pre rest : jsstring)
  (c : captures) (k : jsstring -> jsstring -> captures -> option A) :
  atLineStart pre && fits rest = false ->
  run (updateTaskRegex rawText) pre rest c k = None.
Proof.
  intros H. unfold updateTaskRegex. cbn [app cat].
  set (Y := cat (Star (chr "s") :: literalOf (escapeRegExp rawText))).
  cbn [run]. fold (atLineStart pre).
  assert (Hstart :
    (match pre with
     | [] => run (Star (chr "s")) pre rest c
               (fun pre' rest' c' =>
                  run (Seq (chr "-") (Seq (Star (chr "s")) (Seq (oneOf "(.)") Y)))
                    pre' rest' c' k)
     | x :: _ =>
         if isLineTerminator x
         then run (Star (chr "s")) pre rest c
                (fun pre' rest' c' =>
                   run (Seq (chr "-") (Seq (Star (chr "s")) (Seq (oneOf "(.)") Y)))
                     pre' rest' c' k)
         else None
     end) = None); [|exact Hstart].
  assert (Hfit : atLineStart pre = true -> fits rest = false).
  { intros Hp. rewrite Hp in H. exact H. }
  assert (Hrun : atLineStart pre = true ->
    run (Star (chr "s")) pre rest c
      (fun pre' rest' c' =>
         run (Seq (chr "-") (Seq (Star (chr "s")) (Seq (oneOf "(.)") Y)))
           pre' rest' c' k) = None).
  { intros Hp. specialize (Hfit Hp). apply star_s_fails.
    intros j pre' rest' Hj.
    cbn [run chr lit list_ascii_of_string map].
    change (N_of_ascii "-") with 45%N.
    destruct rest' as [|x r1]; [reflexivity|].
    destruct (N.eqb x 45) eqn:Ex; [|reflexivity].
    apply N.eqb_eq in Ex. subst x.
    unfold fits in Hfit. rewrite Hj, dropS_repeat in Hfit.
    cbn [dropS] in Hfit. change (N.eqb 45 115) with false in Hfit.
    cbv iota in Hfit. change (N.eqb 45 45) with true in Hfit.
    cbn [andb] in Hfit.
    apply (star_s_fails (fun pre'0 rest'0 c'0 =>
             run (Seq (oneOf "(.)") Y) pre'0 rest'0 c'0 k)).
    intros j' pre'' rest'' Hj'. cbn [run oneOf].
    destruct rest'' as [|y t]; [reflexivity|].
    destruct (existsb (N.eqb y) (lit "(.)")) eqn:Ey; [|reflexivity].
    exfalso. rewrite Hj', dropS_repeat in Hfit. cbn [dropS] in Hfit.
    destruct (N.eqb y 115) eqn:Es.
    - apply N.eqb_eq in Es. subst y. vm_compute in Ey. discriminate.
    - congruence. }
  destruct pre as [|x pre0].
  - apply Hrun. reflexivity.
  - cbn [atLineStart] in Hrun. destruct (isLineTerminator x).
    + apply Hrun. reflexivity.
    + reflexivity.
Qed.

Lemma searchFrom_updateTaskRegex_none (rawText : jsstring) :
  forall rest pre,
    fitsNowhere pre rest = true ->
    searchFrom (updateTaskRegex rawText) pre rest = None.
Proof.
  induction rest as [|x rest1 IH]; intros pre H; cbn [fitsNowhere] in H;
    apply andb_true_iff in H; destruct H as [H1 H2];
    apply negb_true_iff in H1; cbn [searchFrom];
    rewrite (updateTaskRegex_needs_fit rawText pre _ _ _ H1).
  - reflexivity.
  - apply IH. exact H2.
Qed.

(** A note without a fitting line comes back unchanged. *)
Lemma updateTaskInNote_needs_fitting_line (content : jsstring) (task : Task)
  (completed : bool) :
  fitsNowhere [] content = true ->
  updateTaskInNote content task completed = content.
Proof.
  intros H. unfold updateTaskInNote, exec.
  rewrite (searchFrom_updateTaskRegex_none _ _ _ H). reflexivity.
Qed.

Lemma dropS_not_s (x : N) (t : jsstring) :
  N.eqb x 115 = false -> dropS (x :: t) = x :: t.
Proof. intros H. cbn [dropS]. rewrite H. reflexivity. Qed.

(** A line that begins like a task does not fit. *)
Lemma task_line_never_fits (ws1 ws2 tl : jsstring) :
  Forall (fun c => isWhiteSpace c = true) ws1 ->
  Forall (fun c => isWhiteSpace c = true) ws2 ->
  fits (ws1 ++ 45%N :: ws2 ++ 91%N :: tl) = false.
Proof.
  intros H1 H2.
  assert (Hws : forall w, isWhiteSpace w = true ->
                  N.eqb w 115 = false /\ N.eqb w 45 = false
                  /\ existsb (N.eqb w) (lit "(.)") = false).
  { intros w Hw. unfold isWhiteSpace in Hw.
    repeat split; [| |cbn [existsb lit list_ascii_of_string map];
                      change (N_of_ascii "(") with 40%N;
                      change (N_of_ascii ".") with 46%N;
                      change (N_of_ascii ")") with 41%N;
                      rewrite !orb_false_r; apply orb_false_iff; split;
                      [|apply orb_false_iff; split]];
      apply N.eqb_neq; intros ->; vm_compute in Hw; discriminate. }
  unfold fits. destruct ws1 as [|w ws1].
  - cbn [app]. rewrite dropS_not_s by reflexivity.
    change (N.eqb 45 45) with true. cbn [andb].
    destruct ws2 as [|w ws2].
    + cbn [app]. rewrite dropS_not_s by reflexivity. reflexivity.
    + inversion H2; subst. destruct (Hws w) as [Hs [_ Hc]]; [assumption|].
      cbn [app]. rewrite dropS_not_s by exact Hs. exact Hc.
  - inversion H1; subst. destruct (Hws w) as [Hs [Hd _]]; [assumption|].
    cbn [app]. rewrite dropS_not_s by exact Hs. rewrite Hd. reflexivity.
Qed.

Lemma updateTaskInNote_needs_fitting_line_witness :
  fitsNowhere [] (shoppingNote "x") = true
  /\ updateTaskInNote (shoppingNote "x") payRent false = shoppingNote "x".
Proof.
  split; [reflexivity|].
  apply (updateTaskInNote_needs_fitting_line (shoppingNote "x") payRent false).
  reflexivity.
Defined.

(** C4.  Toggling the task of the specification's example changes
    nothing.  The pattern built by [updateTaskInNote] asks for a line
    that starts with any number of [s], a [-], any number of [s] and
    one of the characters [(], [.] and [)], which no checkbox line
    does: the note that is written back is the note that was read, and
    the line still says [- [ ] Buy milk ...]. *)
Theorem updateTaskInNote_changes_nothing :
  let task := mkTask buyMilk false (lit "shopping.md")
                (Some (ValidDate 1710460800000)) buyMilk in
  (exists others,
     extractBasicTasks [(lit "shopping.md", Some (shoppingNote " "))]
     = Some (task :: others))
  /\ updateTaskInNote (shoppingNote " ") task true = shoppingNote " "
  /\ updateTaskInNote (shoppingNote " ") task true <> shoppingNote "x"
  /\ exec (updateTaskRegex (rawText task)) (shoppingNote " ") = None
  /\ (forall rawText,
        updateTaskRegex rawText
        = cat ([LineStart; Star (chr "s"); chr "-"; Star (chr "s");
                oneOf "(.)"; Star (chr "s")] ++ map unit rawText)).
Proof.
  intros task.
  split; [eexists; vm_compute; reflexivity|].
  split; [vm_compute; reflexivity|].
  split; [vm_compute; discriminate|].
  split; [vm_compute; reflexivity|].
  intros rawText. unfold updateTaskRegex.
  rewrite literalOf_escapeRegExp. reflexivity.
Qed.

(** When a line does fit and holds, between brackets, its own offset in
    the note, that line is the one rewritten; the task line stays as it
    was. *)
Lemma updateTaskInNote_rewrites_another_line :
  let content := lit "- [ ] [11]" ++ NL ++ lit "-.[11]" in
  let task := mkTask (lit "[11]") false (lit "todo.md") None (lit "[11]") in
  extractBasicTasks [(lit "todo.md", Some content)] = Some [task]
  /\ updateTaskInNote content task true
     = lit "- [ ] [11]" ++ NL ++ lit "-.[x]".
Proof. split; vm_compute; reflexivity. Qed.

(* ================================================================== *)
(** * Further properties of the filter engine and the extraction *)
(* ================================================================== *)

Local Close Scope Z_scope.

(** ** The tokens of a filter *)

Lemma concat_splitWsFrom (s cur : jsstring) (inRun : bool) :
  concat (splitWsFrom cur inRun s) = rev cur ++ filter notWhiteSpace s.
Proof.
  revert cur inRun. induction s as [|c s IH]; intros cur inRun.
  - simpl. rewrite app_nil_r. reflexivity.
  - cbn [splitWsFrom filter]. unfold notWhiteSpace at 1.
    destruct (isWhiteSpace c) eqn:E; cbn [negb].
    + destruct inRun.
      * apply IH.
      * cbn [concat]. rewrite IH. reflexivity.
    + rewrite IH. cbn [rev]. rewrite <- app_assoc. reflexivity.
Qed.

Lemma concat_filter_truthy (l : list jsstring) (p : jsstring -> bool) :
  (forall t, In t l -> p t = false -> t = []) ->
  concat (filter p l) = concat l.
Proof.
  induction l as [|t l IH]; intros H; [reflexivity|].
  cbn [filter concat]. destruct (p t) eqn:E.
  - cbn [concat]. rewrite IH; [reflexivity|].
    intros t' Ht'. apply H. right. exact Ht'.
  - rewrite (H t (or_introl eq_refl) E). cbn [app].
    apply IH. intros t' Ht'. apply H. right. exact Ht'.
Qed.

Lemma blank_not_whiteSpace (t : jsstring) :
  forallb notWhiteSpace t = true -> blank t -> t = [].
Proof.
  destruct t as [|c t]; [reflexivity|].
  cbn [forallb]. unfold notWhiteSpace at 1. intros H Hb.
  inversion Hb as [|? ? Hc _]. rewrite Hc in H. discriminate.
Qed.

Lemma filter_replaceAllChar (x : N) (s : jsstring) :
  isWhiteSpace x = false ->
  filter notWhiteSpace (replaceAllChar x [32%N; x; 32%N] s)
  = filter notWhiteSpace s.
Proof.
  intros Hx. unfold replaceAllChar.
  induction s as [|c s IH]; [reflexivity|].
  cbn [flat_map]. rewrite filter_app, IH.
  destruct (N.eqb c x) eqn:E.
  - apply N.eqb_eq in E. subst c. cbn [filter app].
    unfold notWhiteSpace. rewrite Hx.
    change (isWhiteSpace 32) with true. reflexivity.
  - cbn [filter]. destruct (notWhiteSpace c); reflexivity.
Qed.

Lemma normalized_spaced (s : jsstring) :
  replaceAllChar 41 (lit " ) ") (replaceAllChar 40 (lit " ( ") s)
  = flat_map spaced s.
Proof.
  unfold replaceAllChar, spaced.
  induction s as [|c s IH]; [reflexivity|].
  cbn [flat_map]. rewrite flat_map_app, IH. f_equal.
  destruct (N.eqb c 40) eqn:E40; [reflexivity|].
  cbn [flat_map]. rewrite app_nil_r.
  destruct (N.eqb c 41); reflexivity.
Qed.

Lemma pieces_of_spaced (s cur : jsstring) (inRun : bool) :
  forallb notWhiteSpace cur = true -> existsb isParen cur = false ->
  (inRun = true -> cur = []) ->
  Forall (fun t => forallb notWhiteSpace t = true
                   /\ (existsb isParen t = true -> length t = 1%nat))
    (splitWsFrom cur inRun (flat_map spaced s)).
Proof.
  revert cur inRun.
  assert (Hrev : forall cur,
            forallb notWhiteSpace cur = true -> existsb isParen cur = false ->
            forallb notWhiteSpace (rev cur) = true
            /\ (existsb isParen (rev cur) = true -> length (rev cur) = 1%nat)).
  { intros cur H1 H2. split.
    - apply forallb_forall. intros x Hx. apply in_rev in Hx.
      rewrite forallb_forall in H1. apply H1. exact Hx.
    - intros H. apply existsb_exists in H. destruct H as [x [Hx Hp]].
      apply in_rev in Hx.
      assert (Ht : existsb isParen cur = true)
        by (apply existsb_exists; exists x; auto).
      congruence. }
  assert (Hparen : forall x rest,
            (x = 40%N \/ x = 41%N) ->
            Forall (fun t => forallb notWhiteSpace t = true
                     /\ (existsb isParen t = true -> length t = 1%nat))
              (splitWsFrom [] true rest) ->
            Forall (fun t => forallb notWhiteSpace t = true
                     /\ (existsb isParen t = true -> length t = 1%nat))
              (splitWsFrom [] true (x :: 32%N :: rest))).
  { intros x rest Hx H.
    assert (Hw : isWhiteSpace x = false) by (destruct Hx; subst; reflexivity).
    cbn [splitWsFrom]. rewrite Hw.
    change (isWhiteSpace 32) with true. cbn iota.
    constructor; [|exact H].
    cbn [rev app forallb]. unfold notWhiteSpace. rewrite Hw.
    split; reflexivity. }
  induction s as [|c s IH]; intros cur inRun H1 H2 H3.
  - cbn. constructor; [|constructor]. apply Hrev; assumption.
  - cbn [flat_map]. unfold spaced at 1.
    destruct (N.eqb c 40) eqn:E40; [|destruct (N.eqb c 41) eqn:E41].
    + change (lit " ( ") with [32%N; 40%N; 32%N]. cbn [app].
      cbn [splitWsFrom]. change (isWhiteSpace 32) with true. cbn iota.
      destruct inRun.
      * rewrite (H3 eq_refl).
        apply (Hparen 40%N); [left; reflexivity|].
        apply IH; [reflexivity | reflexivity | reflexivity].
      * constructor; [apply Hrev; assumption|].
        apply (Hparen 40%N); [left; reflexivity|].
        apply IH; [reflexivity | reflexivity | reflexivity].
    + change (lit " ) ") with [32%N; 41%N; 32%N]. cbn [app].
      cbn [splitWsFrom]. change (isWhiteSpace 32) with true. cbn iota.
      destruct inRun.
      * rewrite (H3 eq_refl).
        apply (Hparen 41%N); [right; reflexivity|].
        apply IH; [reflexivity | reflexivity | reflexivity].
      * constructor; [apply Hrev; assumption|].
        apply (Hparen 41%N); [right; reflexivity|].
        apply IH; [reflexivity | reflexivity | reflexivity].
    + cbn [app splitWsFrom]. destruct (isWhiteSpace c) eqn:Ew.
      * destruct inRun.
        -- apply IH; assumption.
        -- constructor; [apply Hrev; assumption|].
           apply IH; [reflexivity | reflexivity | reflexivity].
      * apply IH.
        -- cbn [forallb]. unfold notWhiteSpace at 1. rewrite Ew. exact H1.
        -- cbn [existsb]. unfold isParen at 1. rewrite E40, E41. exact H2.
        -- discriminate.
Qed.

(** X1.  [tokenizeFilter] splits a filter into tokens that are not empty
    and hold no white space, in which a parenthesis only occurs as a
    token of its own; put together again the tokens are the filter
    without its white space, so nothing but white space is dropped and
    the order is kept. *)
Theorem tokenizeFilter_tokens (filterString : jsstring) :
  Forall wellFormedToken (tokenizeFilter filterString)
  /\ concat (tokenizeFilter filterString)
     = filter notWhiteSpace filterString.
Proof.
  unfold tokenizeFilter, splitWs. rewrite normalized_spaced.
  pose proof (pieces_of_spaced filterString [] false eq_refl eq_refl)
    as Hp.
  assert (Hp' : Forall
            (fun t => forallb notWhiteSpace t = true
                      /\ (existsb isParen t = true -> length t = 1%nat))
            (splitWsFrom [] false (flat_map spaced filterString)))
    by (apply Hp; discriminate).
  clear Hp. rewrite Forall_forall in Hp'.
  split.
  - apply Forall_forall. intros t Ht. apply filter_In in Ht.
    destruct Ht as [Ht Htr]. destruct (Hp' t Ht) as [H1 H2].
    split; [|split; assumption].
    intros ->. discriminate Htr.
  - rewrite concat_filter_truthy.
    + rewrite concat_splitWsFrom. cbn [rev app].
      rewrite <- normalized_spaced.
      change (lit " ) ") with [32%N; 41%N; 32%N].
      change (lit " ( ") with [32%N; 40%N; 32%N].
      rewrite !filter_replaceAllChar by reflexivity. reflexivity.
    + intros t Ht Htr. apply truthy_trim in Htr.
      apply blank_not_whiteSpace; [|exact Htr]. apply Hp'. exact Ht.
Qed.

(** ** Rules *)

Lemma parseRule_at (tokens : list jsstring) (index : nat) (t : jsstring) :
  nth_error tokens index = Some t ->
  parseRule tokens index = (ruleOfToken t, S index).
Proof.
  intros H. unfold ruleOfToken, parseRule. rewrite H. cbn [nth_error].
  destruct (truthy t && startsWith t (lit "!"));
    [destruct (truthy (substring1 t) && startsWith (substring1 t) (lit "#"))
    |destruct (truthy t && startsWith t (lit "#"))]; reflexivity.
Qed.

Lemma startsWith_one (s : jsstring) (c : N) :
  startsWith s [c] = true <-> exists s', s = c :: s'.
Proof.
  destruct s as [|d s]; cbn [startsWith].
  - split; [discriminate | intros [s' H]; discriminate].
  - destruct s; rewrite andb_true_r, N.eqb_eq;
      (split; [intros ->; eexists; reflexivity
              | intros [s' H]; inversion H; reflexivity]).
Qed.

Lemma startsWith_truthy (s : jsstring) (c : N) :
  truthy s && startsWith s [c] = startsWith s [c].
Proof. destruct s; reflexivity. Qed.

(** X2.  [parseRule] reads one token and moves the cursor by one: the
    rule it builds, written as [!] for an exclusion, [#] for a tag and
    the value, is the token again, and it is canonical (the value of a
    path does not begin with [#], nor with [!] in an inclusion). *)
Theorem parseRule_reads_token (tokens : list jsstring) (index : nat)
  (t : jsstring) :
  nth_error tokens index = Some t ->
  exists r,
    parseRule tokens index = (rule r, S index)
    /\ ruleToken r = t
    /\ canonicalRule r.
Proof.
  intros H. rewrite (parseRule_at tokens index t H).
  unfold ruleOfToken, parseRule. cbn [nth_error].
  change (lit "!") with [33%N]. change (lit "#") with [35%N].
  rewrite !startsWith_truthy.
  destruct (startsWith t [33%N]) eqn:E1; cbv beta iota;
    rewrite ?startsWith_truthy.
  - apply startsWith_one in E1. destruct E1 as [u ->]. cbn [substring1 tl].
    destruct (startsWith u [35%N]) eqn:E2.
    + apply startsWith_one in E2. destruct E2 as [v ->].
      eexists. cbn [fst]. split; [reflexivity|].
      split; [reflexivity|]. split; cbn; discriminate.
    + eexists. cbn [fst]. split; [reflexivity|].
      split; [reflexivity|]. split; cbn [isTag value type].
      * intros _. exact E2.
      * discriminate.
  - destruct (startsWith t [35%N]) eqn:E2.
    + apply startsWith_one in E2. destruct E2 as [v ->].
      eexists. cbn [fst]. split; [reflexivity|].
      split; [reflexivity|]. split; cbn; discriminate.
    + eexists. cbn [fst]. split; [reflexivity|].
      split; [reflexivity|]. split; cbn [isTag value type].
      * intros _. exact E2.
      * intros _ _. exact E1.
Qed.

Lemma parseRule_reads_token_witness :
  exists r,
    parseRule [lit "#work"; lit "and"; lit "!#done"] 2 = (rule r, 3%nat)
    /\ ruleToken r = lit "!#done"
    /\ canonicalRule r.
Proof.
  apply (parseRule_reads_token [lit "#work"; lit "and"; lit "!#done"] 2
           (lit "!#done")).
  reflexivity.
Defined.

Lemma startsWith_cons (s : jsstring) (c d : N) :
  startsWith (c :: s) [d] = N.eqb c d.
Proof. cbn [startsWith]. destruct s; apply andb_true_r. Qed.

(** X3.  Every canonical rule is read back from its written form. *)
Theorem parseRule_of_ruleToken (r : FilterRule) :
  canonicalRule r ->
  parseRule [ruleToken r] 0 = (rule r, 1%nat).
Proof.
  intros [H1 H2]. destruct r as [ty v tag].
  unfold ruleToken, parseRule in *. cbn [type value isTag nth_error] in *.
  change (lit "!") with [33%N] in *. change (lit "#") with [35%N] in *.
  rewrite startsWith_truthy.
  destruct ty, tag; cbn [app].
  - rewrite startsWith_cons. cbn [N.eqb Pos.eqb]. cbv beta iota.
    rewrite startsWith_truthy, startsWith_cons. reflexivity.
  - rewrite (H2 eq_refl eq_refl). cbv beta iota.
    rewrite startsWith_truthy, (H1 eq_refl). reflexivity.
  - rewrite startsWith_cons. cbn [N.eqb Pos.eqb substring1 tl].
    cbv beta iota.
    rewrite startsWith_truthy, startsWith_cons. reflexivity.
  - rewrite startsWith_cons. cbn [N.eqb Pos.eqb substring1 tl].
    cbv beta iota.
    rewrite startsWith_truthy, (H1 eq_refl). reflexivity.
Qed.

Lemma parseRule_of_ruleToken_witness :
  parseRule [ruleToken (mkRule exclude (lit "archive/2023") false)] 0
  = (rule (mkRule exclude (lit "archive/2023") false), 1%nat).
Proof.
  apply (parseRule_of_ruleToken (mkRule exclude (lit "archive/2023") false)).
  split; [intros _; reflexivity | discriminate].
Defined.

(** ** Filters without parentheses *)

Lemma tokenIs_at (tokens : list jsstring) (index : nat) (t : jsstring)
  (s : string) :
  nth_error tokens index = Some t -> tokenIs tokens index s = eqb t (lit s).
Proof. intros H. unfold tokenIs. rewrite H. reflexivity. Qed.

Lemma tokenIs_end (tokens : list jsstring) (index : nat) (s : string) :
  nth_error tokens index = None -> tokenIs tokens index s = false.
Proof. intros H. unfold tokenIs. rewrite H. reflexivity. Qed.

Lemma nth_error_middle (pre rest : list jsstring) (t : jsstring) :
  nth_error (pre ++ t :: rest) (length pre) = Some t.
Proof. rewrite nth_error_app2, Nat.sub_diag by lia. reflexivity. Qed.

Lemma parsePrimaryExpression_rule (tokens : list jsstring)
  (pe : nat -> option (ExpressionNode * nat)) (n index : nat) (t : jsstring) :
  nth_error tokens index = Some t -> eqb t (lit "(") = false ->
  parsePrimaryExpression tokens pe n index = Some (ruleOfToken t, S index).
Proof.
  intros H Hp. unfold parsePrimaryExpression.
  rewrite (tokenIs_at tokens index t "(" H), Hp.
  rewrite (parseRule_at tokens index t H). reflexivity.
Qed.

(** The loop of [parseLogicalExpression] over the rest of a chain. *)
Lemma logicalLoop_chain (pe : nat -> option (ExpressionNode * nat))
  (m : nat) (more : list (LogicalOperator * jsstring)) :
  forall (n : nat) (pre rest : list jsstring) (lhs : ExpressionNode),
    (length more < n)%nat ->
    Forall (fun p => eqb (snd p) (lit "(") = false) more ->
    match rest with
    | [] => True
    | t :: _ => isOperatorToken t = false
    end ->
    let tokens :=
      pre ++ flat_map (fun p => [operatorToken (fst p); snd p]) more ++ rest in
    logicalLoop tokens (parsePrimaryExpression tokens pe m) n lhs (length pre)
    = Some (fold_left
              (fun acc p => logical (fst p) acc (ruleOfToken (snd p)))
              more lhs,
            (length pre + 2 * length more)%nat).
Proof.
  induction more as [|[op t] more IH]; intros n pre rest lhs Hn Hmore Hrest.
  - cbn [flat_map app fold_left length]. cbv zeta.
    destruct n as [|n]; [cbn in Hn; lia|]. cbn [logicalLoop].
    replace (length pre + 2 * 0)%nat with (length pre) by lia.
    destruct rest as [|t rest].
    + rewrite app_nil_r.
      destruct (length pre <? length pre)%nat eqn:E;
        [apply Nat.ltb_lt in E; lia | reflexivity].
    + rewrite !(tokenIs_at _ _ t _ (nth_error_middle pre rest t)).
      unfold isOperatorToken in Hrest. rewrite Hrest, andb_false_r.
      reflexivity.
  - cbv zeta. destruct n as [|n]; [cbn in Hn; lia|].
    inversion Hmore as [|? ? Ht Hmore']; subst. cbn [snd] in Ht.
    cbn [flat_map app fold_left fst snd length].
    set (tokens := pre ++ operatorToken op :: t
                     :: flat_map (fun p => [operatorToken (fst p); snd p]) more
                        ++ rest).
    assert (Hop : nth_error tokens (length pre) = Some (operatorToken op))
      by apply nth_error_middle.
    assert (Htok : tokens
                   = (pre ++ [operatorToken op; t])
                     ++ flat_map (fun p => [operatorToken (fst p); snd p]) more
                     ++ rest).
    { unfold tokens. rewrite <- app_assoc. reflexivity. }
    assert (Ht' : nth_error tokens (S (length pre)) = Some t).
    { unfold tokens.
      change (pre ++ operatorToken op :: t :: ?x)
        with (pre ++ [operatorToken op] ++ t :: x).
      rewrite app_assoc.
      replace (S (length pre)) with (length (pre ++ [operatorToken op]))
        by (rewrite length_app; cbn; lia).
      apply nth_error_middle. }
    cbn [logicalLoop].
    assert (Hlt : (length pre <? length tokens)%nat = true).
    { apply Nat.ltb_lt. unfold tokens. rewrite length_app. cbn. lia. }
    rewrite Hlt, !(tokenIs_at tokens _ _ _ Hop).
    assert (Hops : eqb (operatorToken op) (lit "and")
                   || eqb (operatorToken op) (lit "or") = true)
      by (destruct op; reflexivity).
    rewrite Hops. cbn [andb].
    rewrite (parsePrimaryExpression_rule tokens pe m _ t Ht' Ht).
    assert (Hsel : (if eqb (operatorToken op) (lit "and")
                    then opAnd else opOr) = op)
      by (destruct op; reflexivity).
    rewrite Hsel.
    replace (S (length pre)) with (length (pre ++ [operatorToken op]))
      by (rewrite length_app; cbn; lia).
    replace (S (length (pre ++ [operatorToken op])))
      with (length (pre ++ [operatorToken op; t]))
      by (rewrite !length_app; cbn; lia).
    replace (length pre + 2 * S (length more))%nat
      with (length (pre ++ [operatorToken op; t]) + 2 * length more)%nat
      by (rewrite length_app; cbn; lia).
    rewrite Htok.
    apply (IH n (pre ++ [operatorToken op; t]) rest
             (logical op lhs (ruleOfToken t)));
      [cbn in Hn; lia | exact Hmore' | exact Hrest].
Qed.

Lemma evaluateExpression_fold (task : Task)
  (more : list (LogicalOperator * jsstring)) (lhs : ExpressionNode) :
  evaluateExpression task
    (fold_left (fun acc p => logical (fst p) acc (ruleOfToken (snd p)))
       more lhs)
  = fold_left
      (fun acc p =>
         applyOperator (fst p) acc
           (evaluateExpression task (ruleOfToken (snd p))))
      more (evaluateExpression task lhs).
Proof.
  revert lhs. induction more as [|[op t] more IH]; intros lhs;
    [reflexivity|].
  cbn [fold_left fst snd]. rewrite IH. cbn [evaluateExpression].
  destruct op; reflexivity.
Qed.

(** X4.  A filter without parentheses, that is a rule followed by
    operators each with a rule, is parsed into the tree that nests to
    the left, [and] and [or] having the same precedence: [a or b and c]
    is [(a or b) and c]. Tokens that follow the chain without an
    operator are dropped. The tree evaluates from left to right. *)
Theorem parseTokens_chain (first : jsstring)
  (more : list (LogicalOperator * jsstring)) (rest : list jsstring)
  (task : Task) :
  eqb first (lit "(") = false ->
  Forall (fun p => eqb (snd p) (lit "(") = false) more ->
  match rest with
  | [] => True
  | t :: _ => isOperatorToken t = false
  end ->
  parseTokens (chainTokens first more ++ rest) = Some (chainTree first more)
  /\ evaluateExpression task (chainTree first more)
     = fold_left
         (fun acc p =>
            applyOperator (fst p) acc
              (evaluateExpression task (ruleOfToken (snd p))))
         more (evaluateExpression task (ruleOfToken first)).
Proof.
  intros Hfirst Hmore Hrest. split; [|apply evaluateExpression_fold].
  unfold parseTokens, chainTokens, chainTree.
  remember ((first :: flat_map
                        (fun p : LogicalOperator * jsstring =>
                           [operatorToken (fst p); snd p]) more) ++ rest)
    as tokens eqn:Etok.
  assert (Etok' : [first]
                  ++ flat_map
                       (fun p : LogicalOperator * jsstring =>
                          [operatorToken (fst p); snd p]) more ++ rest
                  = tokens) by (subst tokens; reflexivity).
  assert (Hlen : (length more < length tokens + 1)%nat).
  { subst tokens. cbn [app length]. rewrite length_app.
    assert (H : length (flat_map
                          (fun p : LogicalOperator * jsstring =>
                             [operatorToken (fst p); snd p]) more)
                = (2 * length more)%nat).
    { clear. induction more as [|p more IH]; [reflexivity|].
      cbn [flat_map app length]. rewrite IH. lia. }
    rewrite H. lia. }
  assert (H0 : nth_error tokens 0 = Some first)
    by (subst tokens; reflexivity).
  replace (length tokens + 2)%nat with (S (length tokens + 1)) by lia.
  cbn [parseExpression]. unfold parseLogicalExpression.
  rewrite (parsePrimaryExpression_rule tokens _ _ 0 first H0 Hfirst).
  pose proof (logicalLoop_chain
                (parseExpression tokens (length tokens + 1))
                (length tokens + 1) more (length tokens + 1)
                [first] rest (ruleOfToken first) Hlen Hmore Hrest) as H.
  cbv zeta in H. rewrite Etok' in H. cbn [length] in H.
  rewrite H. reflexivity.
Qed.

Lemma parseTokens_chain_witness :
  parseTokens (tokenizeFilter (lit "#work or #home and !archive #more"))
  = Some (logical opAnd (logical opOr (tagRule "work") (tagRule "home"))
            (rule (mkRule exclude (lit "archive") false)))
  /\ evaluateExpression (sampleTask "call #work" None)
       (chainTree (lit "#work")
          [(opOr, lit "#home"); (opAnd, lit "!archive")])
     = fold_left
         (fun acc p =>
            applyOperator (fst p) acc
              (evaluateExpression (sampleTask "call #work" None)
                 (ruleOfToken (snd p))))
         [(opOr, lit "#home"); (opAnd, lit "!archive")]
         (evaluateExpression (sampleTask "call #work" None)
            (ruleOfToken (lit "#work"))).
Proof.
  apply (parseTokens_chain (lit "#work")
           [(opOr, lit "#home"); (opAnd, lit "!archive")] [lit "#more"]
           (sampleTask "call #work" None)).
  - reflexivity.
  - repeat constructor.
  - reflexivity.
Defined.

(** ** Groups of chains *)

Lemma plainToken_spec (t : jsstring) :
  plainToken t = true ->
  eqb t (lit "(") = false /\ eqb t (lit ")") = false
  /\ isOperatorToken t = false.
Proof.
  unfold plainToken. intros H.
  apply andb_true_iff in H. destruct H as [H H3].
  apply andb_true_iff in H. destruct H as [H1 H2].
  apply negb_true_iff in H1, H2, H3. auto.
Qed.

Lemma length_chainTokens (first : jsstring)
  (more : list (LogicalOperator * jsstring)) :
  length (chainTokens first more) = S (2 * length more).
Proof.
  unfold chainTokens. cbn [length]. f_equal.
  induction more as [|p more IH]; [reflexivity|].
  cbn [flat_map app length]. rewrite IH. lia.
Qed.

Lemma length_chains (chains : list Chain) :
  length chains <= length (flat_map chainTokensOf chains).
Proof.
  induction chains as [|c chains IH]; [apply le_n|].
  cbn [flat_map length]. rewrite length_app. unfold chainTokensOf at 1.
  rewrite length_chainTokens. lia.
Qed.

(** [parseExpression] at the start of a chain that is followed by no
    operator. *)
Lemma parseExpression_chain (first : jsstring)
  (more : list (LogicalOperator * jsstring)) (pre rest : list jsstring)
  (fuel : nat) :
  plainToken first = true ->
  forallb (fun p => plainToken (snd p)) more = true ->
  match rest with
  | [] => True
  | t :: _ => isOperatorToken t = false
  end ->
  length more + 1 < fuel ->
  parseExpression (pre ++ chainTokens first more ++ rest) fuel (length pre)
  = Some (chainTree first more,
          length pre + length (chainTokens first more)).
Proof.
  intros Hfirst Hmore Hrest Hfuel.
  destruct fuel as [|fuel]; [inversion Hfuel|].
  apply plainToken_spec in Hfirst. destruct Hfirst as [Hf _].
  assert (Hmore' : Forall (fun p => eqb (snd p) (lit "(") = false) more).
  { apply Forall_forall. intros p Hp.
    rewrite forallb_forall in Hmore.
    apply (plainToken_spec _ (Hmore p Hp)). }
  set (tokens := pre ++ chainTokens first more ++ rest).
  assert (H0 : nth_error tokens (length pre) = Some first)
    by apply nth_error_middle.
  cbn [parseExpression]. unfold parseLogicalExpression.
  rewrite (parsePrimaryExpression_rule tokens _ _ _ first H0 Hf).
  pose proof (logicalLoop_chain (parseExpression tokens fuel) fuel more
                fuel (pre ++ [first]) rest (ruleOfToken first)) as H.
  cbv zeta in H. rewrite <- app_assoc in H.
  rewrite length_app in H. cbn [length app] in H.
  rewrite Nat.add_1_r in H.
  subst tokens. unfold chainTokens in *. cbn [app] in *.
  rewrite H; [|lia | exact Hmore' | exact Hrest].
  unfold chainTree. f_equal. f_equal.
  pose proof (length_chainTokens first more) as L.
  unfold chainTokens in L. rewrite L. lia.
Qed.

(** The loop of a group over chains written side by side, up to the
    closing parenthesis or the end of the tokens. *)
Lemma groupLoop_chains (fuel : nat) (close : list jsstring) :
  match close with
  | [] => True
  | t :: _ => t = lit ")"
  end ->
  forall (chains : list Chain) (n : nat) (pre : list jsstring)
         (acc : list ExpressionNode),
    forallb plainChain chains = true ->
    length chains < n ->
    length (flat_map chainTokensOf chains) < fuel ->
    groupLoop (pre ++ flat_map chainTokensOf chains ++ close)
      (parseExpression (pre ++ flat_map chainTokensOf chains ++ close) fuel)
      n (length pre) acc
    = Some (acc ++ map chainTreeOf chains,
            length pre + length (flat_map chainTokensOf chains)).
Proof.
  intros Hclose.
  induction chains as [|[first more] chains IH];
    intros n pre acc Hp Hn Hfuel;
    (destruct n as [|n]; [inversion Hn|]).
  - cbn [flat_map app map length groupLoop].
    rewrite app_nil_r, Nat.add_0_r.
    destruct close as [|t close].
    + rewrite app_nil_r, Nat.ltb_irrefl. reflexivity.
    + subst t.
      rewrite (tokenIs_at _ _ _ ")" (nth_error_middle pre close (lit ")"))).
      change (eqb (lit ")") (lit ")")) with true.
      rewrite andb_false_r. reflexivity.
  - cbn [forallb] in Hp. apply andb_true_iff in Hp.
    destruct Hp as [Hc Hp]. unfold plainChain in Hc. cbn [fst snd] in Hc.
    apply andb_true_iff in Hc. destruct Hc as [Hfirst Hmore].
    cbn [flat_map]. unfold chainTokensOf at 1 3. cbn [fst snd].
    rewrite <- !app_assoc.
    set (rest := flat_map chainTokensOf chains ++ close).
    set (tokens := pre ++ chainTokens first more ++ rest).
    assert (Hrest : match rest with
                    | [] => True
                    | t :: _ => isOperatorToken t = false
                    end).
    { unfold rest. destruct chains as [|[f2 m2] chains'].
      - cbn [flat_map app]. destruct close as [|t close]; [exact I|].
        subst t. reflexivity.
      - cbn [flat_map app]. unfold chainTokensOf at 1, chainTokens.
        cbn [fst snd app].
        cbn [forallb] in Hp. apply andb_true_iff in Hp.
        destruct Hp as [Hc2 _]. unfold plainChain in Hc2.
        apply andb_true_iff in Hc2. destruct Hc2 as [Hc2 _].
        apply (plainToken_spec _ Hc2). }
    assert (H0 : nth_error tokens (length pre) = Some first)
      by apply nth_error_middle.
    assert (Hlen : length pre < length tokens).
    { unfold tokens. rewrite length_app, length_app, length_chainTokens.
      lia. }
    cbn [flat_map length] in Hfuel. rewrite length_app in Hfuel.
    unfold chainTokensOf at 1 in Hfuel. cbn [fst snd] in Hfuel.
    rewrite length_chainTokens in Hfuel.
    cbn [groupLoop].
    apply Nat.ltb_lt in Hlen. rewrite Hlen.
    rewrite (tokenIs_at tokens _ first ")" H0).
    rewrite (proj1 (proj2 (plainToken_spec _ Hfirst))). cbn [negb andb].
    assert (Hf1 : length more + 1 < fuel) by (clear - Hfuel; lia).
    assert (Hf2 : length (flat_map chainTokensOf chains) < fuel)
      by (clear - Hfuel; lia).
    assert (Hn' : length chains < n)
      by (clear - Hn; cbn [length] in Hn; lia).
    unfold tokens.
    rewrite (parseExpression_chain first more pre rest fuel Hfirst Hmore
               Hrest Hf1).
    fold tokens.
    assert (Etok : tokens
                   = (pre ++ chainTokens first more)
                     ++ flat_map chainTokensOf chains ++ close).
    { unfold tokens, rest. rewrite <- app_assoc. reflexivity. }
    rewrite <- length_app. rewrite Etok.
    rewrite (IH n (pre ++ chainTokens first more)
               (acc ++ [chainTree first more]) Hp Hn' Hf2).
    cbn [map]. unfold chainTreeOf at 2. cbn [fst snd].
    rewrite <- app_assoc. cbn [app].
    unfold chainTokensOf at 2. cbn [fst snd].
    rewrite !length_app. f_equal. f_equal. lia.
Qed.

(** Chains between parentheses are parsed into the group of their
    trees, with or without the closing parenthesis. *)
Lemma parseTokens_group (chains : list Chain) (closed : bool) :
  forallb plainChain chains = true ->
  parseTokens (groupTokens chains closed)
  = Some (group (map chainTreeOf chains)).
Proof.
  intros Hp. unfold parseTokens.
  set (tokens := groupTokens chains closed).
  set (close := if closed then [lit ")"] else []).
  assert (Etok : tokens = [lit "("] ++ flat_map chainTokensOf chains ++ close)
    by reflexivity.
  assert (Hlen : length tokens
                 = S (length (flat_map chainTokensOf chains) + length close)).
  { rewrite Etok. cbn [app length]. rewrite length_app. reflexivity. }
  assert (Hclose : match close with
                   | [] => True
                   | t :: _ => t = lit ")"
                   end)
    by (unfold close; destruct closed; [reflexivity | exact I]).
  pose proof (length_chains chains) as Hc.
  assert (Hf : exists f, length tokens + 2 = S f /\ length tokens < f)
    by (exists (S (length tokens)); lia).
  destruct Hf as [f [-> Hf]].
  cbn [parseExpression]. unfold parseLogicalExpression.
  unfold parsePrimaryExpression at 1.
  assert (H0 : tokenIs tokens 0 "(" = true) by reflexivity.
  rewrite H0.
  pose proof (groupLoop_chains f close Hclose chains f [lit "("] []) as HG.
  rewrite <- Etok in HG. cbn [length app] in HG.
  rewrite HG; [|exact Hp | lia | lia].
  assert (Hend : (if (1 + length (flat_map chainTokensOf chains)
                      <? length tokens)
                     && tokenIs tokens
                          (1 + length (flat_map chainTokensOf chains)) ")"
                  then S (1 + length (flat_map chainTokensOf chains))
                  else 1 + length (flat_map chainTokensOf chains))
                 = length tokens).
  { unfold close in *. destruct closed.
    - assert (Hn : nth_error tokens
                     (1 + length (flat_map chainTokensOf chains))
                   = Some (lit ")")).
      { rewrite Etok.
        change ([lit "("] ++ ?a ++ ?b) with (lit "(" :: a ++ b).
        cbn [Nat.add nth_error].
        rewrite nth_error_app2, Nat.sub_diag by apply le_n. reflexivity. }
      rewrite (tokenIs_at _ _ _ ")" Hn).
      change (eqb (lit ")") (lit ")")) with true.
      cbn [length] in Hlen.
      assert (Hlt : (1 + length (flat_map chainTokensOf chains)
                     <? length tokens) = true)
        by (apply Nat.ltb_lt; lia).
      rewrite Hlt. cbn [andb]. lia.
    - cbn [length] in Hlen.
      assert (Hlt : (1 + length (flat_map chainTokensOf chains)
                     <? length tokens) = false)
        by (apply Nat.ltb_ge; lia).
      rewrite Hlt. cbn [andb]. lia. }
  rewrite Hend. destruct f as [|f]; [inversion Hf|].
  cbn [logicalLoop]. rewrite Nat.ltb_irrefl. reflexivity.
Qed.

Lemma evaluateExpression_group (task : Task)
  (children : list ExpressionNode) :
  evaluateExpression task (group children)
  = match children with
    | [] => true
    | _ :: _ => existsb (evaluateExpression task) children
    end.
Proof. destruct children; reflexivity. Qed.

Lemma evaluateExpression_chains (task : Task) (chains : list Chain) :
  evaluateExpression task (group (map chainTreeOf chains))
  = match chains with
    | [] => true
    | _ :: _ => existsb (chainValue task) chains
    end.
Proof.
  assert (H : forall l : list Chain,
            existsb (evaluateExpression task) (map chainTreeOf l)
            = existsb (chainValue task) l).
  { induction l as [|[first more] l IH]; [reflexivity|].
    cbn [map existsb]. rewrite IH. f_equal.
    unfold chainTreeOf, chainTree, chainValue. cbn [fst snd].
    apply evaluateExpression_fold. }
  rewrite evaluateExpression_group.
  destruct chains as [|c chains]; [reflexivity|].
  rewrite <- H. reflexivity.
Qed.

(** C1.  A group without children evaluates to true, and a group with
    children to true exactly when one of its children does, whatever
    the children are and however deep they nest.  The children are the
    expressions that the parser read between the parentheses: rules
    written side by side are children of their own, and rules joined
    by [and] and [or] are one child, a chain that is evaluated from
    left to right with its operators.  So chains between parentheses,
    closed or not, parse to the group of their trees, which is true
    exactly when one of the chains is: [(#a #b)] accepts the tasks
    with [#a] or [#b], and [(#a and #b)] only those with both. *)
Theorem group_evaluates_as_or (task : Task)
  (children : list ExpressionNode) (chains : list Chain) (closed : bool) :
  forallb plainChain chains = true ->
  (evaluateExpression task (group children) = true
   <-> children = []
       \/ exists e, In e children /\ evaluateExpression task e = true)
  /\ parseTokens (groupTokens chains closed)
     = Some (group (map chainTreeOf chains))
  /\ evaluateExpression task (group (map chainTreeOf chains))
     = match chains with
       | [] => true
       | _ :: _ => existsb (chainValue task) chains
       end
  /\ (exists e,
        parseCustomFilter (lit "(#a #b)") = Some (Some e)
        /\ (evaluateExpression task e = true
            <-> contains (rawText task) (lit "#a")
                \/ contains (rawText task) (lit "#b")))
  /\ (exists e,
        parseCustomFilter (lit "(#a or #b)") = Some (Some e)
        /\ (evaluateExpression task e = true
            <-> contains (rawText task) (lit "#a")
                \/ contains (rawText task) (lit "#b")))
  /\ (exists e,
        parseCustomFilter (lit "(#a and #b)") = Some (Some e)
        /\ (evaluateExpression task e = true
            <-> contains (rawText task) (lit "#a")
                /\ contains (rawText task) (lit "#b"))).
Proof.
  intros Hp. split; [|split; [|split; [|split; [|split]]]].
  - rewrite evaluateExpression_group.
    destruct children as [|c cs].
    + split; [intros _; left; reflexivity | reflexivity].
    + rewrite existsb_exists. split.
      * intros H. right. exact H.
      * intros [H | H]; [discriminate | exact H].
  - apply parseTokens_group. exact Hp.
  - apply evaluateExpression_chains.
  - exists (group [tagRule "a"; tagRule "b"]).
    split; [vm_compute; reflexivity|].
    cbn [evaluateExpression existsb tagRule type]. unfold matchFilterRule.
    cbn [isTag value].
    rewrite orb_false_r, orb_true_iff, !includes_spec. reflexivity.
  - exists (group [logical opOr (tagRule "a") (tagRule "b")]).
    split; [vm_compute; reflexivity|].
    cbn [evaluateExpression existsb tagRule type]. unfold matchFilterRule.
    cbn [isTag value].
    rewrite orb_false_r, orb_true_iff, !includes_spec. reflexivity.
  - exists (group [logical opAnd (tagRule "a") (tagRule "b")]).
    split; [vm_compute; reflexivity|].
    cbn [evaluateExpression existsb tagRule type]. unfold matchFilterRule.
    cbn [isTag value].
    rewrite orb_false_r, andb_true_iff, !includes_spec. reflexivity.
Qed.

Lemma group_evaluates_as_or_witness :
  let task := sampleTask "call #a" None in
  let chains := [(lit "#a", [(opAnd, lit "#b")]); (lit "#c", [])] in
  parseTokens (tokenizeFilter (lit "(#a and #b #c)"))
  = Some (group [logical opAnd (tagRule "a") (tagRule "b"); tagRule "c"])
  /\ evaluateExpression task (group (map chainTreeOf chains))
     = existsb (chainValue task) chains.
Proof.
  intros task chains.
  destruct (group_evaluates_as_or task [] chains true)
    as [_ [H1 [H2 _]]]; [reflexivity|].
  split; [exact H1 | exact H2].
Defined.

(** C1, as stated, fails.  In [(#a and #b)] the rule [#a], written
    between the parentheses, is true of a task that holds [#a] alone,
    and the group is not: the two rules are one child, the
    conjunction. *)
Lemma group_joined_by_and_needs_both :
  let task := sampleTask "call #a" None in
  parseCustomFilter (lit "(#a and #b)")
  = Some (Some (group [logical opAnd (tagRule "a") (tagRule "b")]))
  /\ groupAccepts_claimed task [lit "#a"; lit "#b"]
  /\ evaluateExpression task
       (group [logical opAnd (tagRule "a") (tagRule "b")])
     = false.
Proof.
  split; [vm_compute; reflexivity|]. split; [|vm_compute; reflexivity].
  exists (lit "#a"). split; [left; reflexivity | vm_compute; reflexivity].
Qed.

(** ** The tree and the tokens it was built from *)

Lemma ruleToken_ruleOfToken (t : jsstring) :
  exists r, ruleOfToken t = rule r /\ ruleToken r = t.
Proof.
  unfold ruleOfToken, parseRule. cbn [nth_error].
  change (lit "!") with [33%N]. change (lit "#") with [35%N].
  rewrite !startsWith_truthy.
  destruct (startsWith t [33%N]) eqn:E1; cbv beta iota;
    rewrite ?startsWith_truthy.
  - apply startsWith_one in E1. destruct E1 as [u ->]. cbn [substring1 tl].
    destruct (startsWith u [35%N]) eqn:E2.
    + apply startsWith_one in E2. destruct E2 as [v ->].
      eexists. cbn [fst]. split; reflexivity.
    + eexists. cbn [fst]. split; reflexivity.
  - destruct (startsWith t [35%N]) eqn:E2.
    + apply startsWith_one in E2. destruct E2 as [v ->].
      eexists. cbn [fst]. split; reflexivity.
    + eexists. cbn [fst]. split; reflexivity.
Qed.

Section Covers.
Variable tokens : list jsstring.

Lemma tokensBetween_end (i j : nat) :
  length tokens <= i -> tokensBetween tokens i j = [].
Proof.
  intros H. unfold tokensBetween. rewrite skipn_all2 by exact H.
  apply firstn_nil.
Qed.

Lemma tokensBetween_app (i j k : nat) :
  i <= j -> j <= k ->
  tokensBetween tokens i j ++ tokensBetween tokens j k
  = tokensBetween tokens i k.
Proof.
  intros H1 H2. unfold tokensBetween.
  replace (k - i) with ((j - i) + (k - j)) by lia.
  replace (skipn j tokens) with (skipn (j - i) (skipn i tokens))
    by (rewrite skipn_skipn; f_equal; lia).
  generalize (skipn i tokens) as l. generalize (j - i) as a.
  generalize (k - j) as b. intros b a. induction a as [|a IH]; intros l.
  - reflexivity.
  - destruct l as [|x l]; cbn [Nat.add firstn skipn app].
    + rewrite firstn_nil. reflexivity.
    + f_equal. apply IH.
Qed.

Lemma tokensBetween_one (i : nat) (t : jsstring) :
  nth_error tokens i = Some t -> tokensBetween tokens i (S i) = [t].
Proof.
  intros H. unfold tokensBetween.
  replace (S i - i) with 1 by lia.
  revert i H. induction tokens as [|x l IH]; intros i H.
  - destruct i; discriminate.
  - destruct i as [|i]; cbn [nth_error skipn] in *.
    + inversion H. reflexivity.
    + apply IH. exact H.
Qed.

Lemma covers_nil (i : nat) : covers tokens [] i i.
Proof.
  exists []. unfold tokensBetween. rewrite Nat.sub_diag.
  split; [reflexivity|]. split; [reflexivity | left; reflexivity].
Qed.

Lemma covers_token (i : nat) (t : jsstring) :
  nth_error tokens i = Some t -> covers tokens [t] i (S i).
Proof.
  intros H. exists []. rewrite (tokensBetween_one i t H).
  split; [reflexivity|]. split; [reflexivity | left; reflexivity].
Qed.

Lemma covers_supplied (i j : nat) (t : jsstring) :
  length tokens <= i -> i <= j -> supplied t = true ->
  covers tokens [t] i j.
Proof.
  intros H1 H2 H3. exists [t]. rewrite (tokensBetween_end i j H1).
  split; [reflexivity|]. cbn [forallb]. rewrite H3.
  split; [reflexivity | right; lia].
Qed.

Lemma covers_app (w1 w2 : list jsstring) (i j k : nat) :
  i <= j -> j <= k ->
  covers tokens w1 i j -> covers tokens w2 j k ->
  covers tokens (w1 ++ w2) i k.
Proof.
  intros H1 H2 [m1 [E1 [S1 L1]]] [m2 [E2 [S2 L2]]].
  exists (m1 ++ m2). subst w1 w2. split; [|split].
  - destruct L1 as [-> | L1].
    + rewrite app_nil_r, app_assoc, tokensBetween_app by assumption.
      reflexivity.
    + rewrite (tokensBetween_end j k L1).
      rewrite <- (tokensBetween_app i j k H1 H2),
        (tokensBetween_end j k L1), app_nil_r, app_nil_l, app_assoc.
      reflexivity.
  - rewrite forallb_app, S1, S2. reflexivity.
  - destruct L1 as [-> | L1]; [|right; lia].
    destruct L2 as [-> | L2]; [left; reflexivity | right; exact L2].
Qed.

Lemma parseRule_sound (i : nat) :
  i < snd (parseRule tokens i)
  /\ covers tokens (tokensOf (fst (parseRule tokens i))) i
       (snd (parseRule tokens i)).
Proof.
  destruct (nth_error tokens i) as [t|] eqn:E.
  - rewrite (parseRule_at tokens i t E). cbn [fst snd].
    destruct (ruleToken_ruleOfToken t) as [r [-> Hr]].
    cbn [tokensOf]. rewrite Hr.
    split; [lia | apply covers_token; exact E].
  - assert (Hr : parseRule tokens i
                 = (rule (mkRule include [] false), S i))
      by (unfold parseRule; rewrite E; reflexivity).
    rewrite Hr. cbn [fst snd tokensOf]. unfold ruleToken.
    cbn [type isTag value app].
    split; [lia|].
    apply covers_supplied;
      [apply nth_error_None; exact E | lia | reflexivity].
Qed.

Lemma groupLoop_sound pe (n : nat) :
  sound tokens pe ->
  forall index acc es j i0,
    groupLoop tokens pe n index acc = Some (es, j) ->
    i0 <= index ->
    covers tokens (flat_map tokensOf acc) i0 index ->
    index <= j
    /\ covers tokens (flat_map tokensOf es) i0 j
    /\ (length tokens <= j \/ nth_error tokens j = Some (lit ")")).
Proof.
  intros Hpe. induction n as [|n IH]; intros index acc es j i0 H Hi Hc;
    [discriminate|].
  cbn [groupLoop] in H.
  destruct ((index <? length tokens) && negb (tokenIs tokens index ")"))
    eqn:E.
  - destruct (pe index) as [[e index']|] eqn:Ee; [|discriminate].
    destruct (Hpe _ _ _ Ee) as [Hlt Hce].
    destruct (IH _ _ _ _ i0 H) as [H1 [H2 H3]].
    + lia.
    + rewrite flat_map_app. cbn [flat_map]. rewrite app_nil_r.
      apply (covers_app _ _ i0 index index'); [lia | lia | exact Hc|].
      exact Hce.
    + split; [lia|]. split; [exact H2 | exact H3].
  - inversion H; subst. split; [apply le_n|]. split; [exact Hc|].
    destruct (Nat.ltb_spec j (length tokens)) as [Hlt | Hge];
      [|left; exact Hge].
    right. cbn [andb] in E. apply negb_false_iff in E.
    unfold tokenIs in E.
    destruct (nth_error tokens j) as [t|] eqn:Et; [|discriminate].
    apply eqb_eq in E. subst t. reflexivity.
Qed.

Lemma parsePrimaryExpression_sound pe (n : nat) :
  sound tokens pe -> sound tokens (parsePrimaryExpression tokens pe n).
Proof.
  intros Hpe i e j H. unfold parsePrimaryExpression in H.
  destruct (tokenIs tokens i "(") eqn:Eo.
  - destruct (groupLoop tokens pe n (S i) []) as [[es k]|] eqn:Eg;
      [|discriminate].
    assert (Hopen : nth_error tokens i = Some (lit "(")).
    { unfold tokenIs in Eo.
      destruct (nth_error tokens i) as [t|]; [|discriminate].
      apply eqb_eq in Eo. subst t. reflexivity. }
    destruct (groupLoop_sound pe n Hpe _ _ _ _ (S i) Eg (le_n _)
                (covers_nil (S i))) as [H1 [H2 H3]].
    inversion H; subst. cbn [tokensOf].
    change (lit "(" :: flat_map tokensOf es ++ [lit ")"])
      with ([lit "("] ++ flat_map tokensOf es ++ [lit ")"]).
    destruct ((k <? length tokens) && tokenIs tokens k ")") eqn:Ec.
    + apply andb_true_iff in Ec. destruct Ec as [Ek Ec].
      assert (Hclose : nth_error tokens k = Some (lit ")")).
      { unfold tokenIs in Ec.
        destruct (nth_error tokens k) as [t|]; [|discriminate].
        apply eqb_eq in Ec. subst t. reflexivity. }
      split; [lia|].
      apply (covers_app _ _ i (S i) (S k)); [lia | lia | |].
      * apply covers_token. exact Hopen.
      * apply (covers_app _ _ (S i) k (S k)); [lia | lia | exact H2|].
        apply covers_token. exact Hclose.
    + assert (Hend : length tokens <= k).
      { destruct H3 as [H3 | H3]; [exact H3|].
        unfold tokenIs in Ec. rewrite H3 in Ec.
        change (eqb (lit ")") (lit ")")) with true in Ec.
        rewrite andb_true_r in Ec. apply Nat.ltb_ge in Ec. exact Ec. }
      split; [lia|].
      apply (covers_app _ _ i (S i) k); [lia | lia | |].
      * apply covers_token. exact Hopen.
      * apply (covers_app _ _ (S i) k k); [lia | lia | exact H2|].
        apply covers_supplied; [exact Hend | apply le_n | reflexivity].
  - injection H as H. pose proof (parseRule_sound i) as [R1 R2].
    rewrite H in R1, R2. cbn [fst snd] in R1, R2.
    split; [exact R1 | exact R2].
Qed.

Lemma logicalLoop_sound pp (n : nat) :
  sound tokens pp ->
  forall lhs index e j i0,
    logicalLoop tokens pp n lhs index = Some (e, j) ->
    i0 <= index ->
    covers tokens (tokensOf lhs) i0 index ->
    index <= j
    /\ covers tokens (tokensOf e) i0 j
    /\ stopsAt tokens j.
Proof.
  intros Hpp. induction n as [|n IH]; intros lhs index e j i0 H Hi Hc;
    [discriminate|].
  cbn [logicalLoop] in H.
  destruct ((index <? length tokens)
            && (tokenIs tokens index "and" || tokenIs tokens index "or"))
    eqn:E.
  - destruct (pp (S index)) as [[rhs index']|] eqn:Er; [|discriminate].
    destruct (Hpp _ _ _ Er) as [Hlt Hcr].
    apply andb_true_iff in E. destruct E as [_ E].
    assert (Hop : nth_error tokens index
                  = Some (operatorToken
                            (if tokenIs tokens index "and"
                             then opAnd else opOr))).
    { unfold tokenIs in *.
      destruct (nth_error tokens index) as [t|]; [|discriminate].
      destruct (eqb t (lit "and")) eqn:Ea.
      - apply eqb_eq in Ea. subst t. reflexivity.
      - cbn [orb] in E. apply eqb_eq in E. subst t. reflexivity. }
    destruct (IH _ _ _ _ i0 H) as [H1 [H2 H3]].
    + lia.
    + cbn [tokensOf].
      apply (covers_app _ _ i0 index index'); [lia | lia | exact Hc|].
      change (?a :: tokensOf rhs) with ([a] ++ tokensOf rhs).
      apply (covers_app _ _ index (S index) index');
        [lia | lia | | exact Hcr].
      apply covers_token. exact Hop.
    + split; [lia|]. split; [exact H2 | exact H3].
  - inversion H; subst. split; [apply le_n|]. split; [exact Hc|].
    unfold stopsAt.
    destruct (nth_error tokens j) as [t|] eqn:Et; [|exact I].
    assert (Hlt : (j <? length tokens) = true).
    { apply Nat.ltb_lt. apply nth_error_Some. congruence. }
    rewrite Hlt in E. cbn [andb] in E.
    unfold tokenIs in E. rewrite Et in E. exact E.
Qed.

Lemma parseExpression_sound (fuel : nat) :
  forall i e j,
    parseExpression tokens fuel i = Some (e, j) ->
    (i < j /\ covers tokens (tokensOf e) i j) /\ stopsAt tokens j.
Proof.
  induction fuel as [|fuel IH]; intros i e j H; [discriminate|].
  cbn [parseExpression] in H. unfold parseLogicalExpression in H.
  assert (Hpp : sound tokens (parsePrimaryExpression tokens
                         (parseExpression tokens fuel) fuel)).
  { apply parsePrimaryExpression_sound. intros i' e' j' H'.
    apply (IH _ _ _ H'). }
  destruct (parsePrimaryExpression tokens (parseExpression tokens fuel)
              fuel i) as [[lhs k]|] eqn:El; [|discriminate].
  destruct (Hpp _ _ _ El) as [Hlt Hc].
  destruct (logicalLoop_sound _ fuel Hpp _ _ _ _ i H) as [H1 [H2 H3]];
    [lia | exact Hc|].
  split; [split; [lia | exact H2] | exact H3].
Qed.
End Covers.

(** ** The parser on a call stack *)

Section OnStack.
Variable tokens : list jsstring.

Lemma skipn_nth_error (i : nat) (t : jsstring) :
  nth_error tokens i = Some t ->
  skipn i tokens = t :: skipn (S i) tokens.
Proof.
  revert i. induction tokens as [|x l IH]; intros i H.
  - destruct i; discriminate.
  - destruct i as [|i]; cbn [nth_error skipn] in *.
    + inversion H. reflexivity.
    + apply IH. exact H.
Qed.

Lemma openParens_skipn_S (i : nat) :
  openParens (skipn (S i) tokens) <= openParens (skipn i tokens).
Proof.
  destruct (nth_error tokens i) as [t|] eqn:E.
  - rewrite (skipn_nth_error i t E). unfold openParens. cbn [filter].
    destruct (eqb t (lit "(")); cbn [length]; lia.
  - apply nth_error_None in E.
    rewrite !skipn_all2 by lia. apply le_n.
Qed.

Lemma openParens_skipn_le (i j : nat) :
  i <= j -> openParens (skipn j tokens) <= openParens (skipn i tokens).
Proof.
  induction 1 as [|j H IH]; [apply le_n|].
  pose proof (openParens_skipn_S j). lia.
Qed.

Lemma openParens_skipn_open (i : nat) :
  tokenIs tokens i "(" = true ->
  S (openParens (skipn (S i) tokens)) = openParens (skipn i tokens)
  /\ i < length tokens.
Proof.
  unfold tokenIs. intros H.
  destruct (nth_error tokens i) as [t|] eqn:E; [|discriminate].
  split; [|apply nth_error_Some; congruence].
  rewrite (skipn_nth_error i t E). unfold openParens. cbn [filter].
  rewrite H. reflexivity.
Qed.

Lemma groupLoop_agree pe pe' (n : nat) :
  forall n' index acc,
    (forall i, index <= i -> agree pe pe' i) ->
    length tokens - index < n ->
    length tokens - index < n' ->
    exists es j,
      groupLoop tokens pe n index acc = Some (es, j)
      /\ ParserOnStack.groupLoop tokens pe' n' index acc
         = Some (ParserOnStack.normal (es, j)).
Proof.
  induction n as [|n IH]; intros n' index acc Hpe Hn Hn';
    [inversion Hn|].
  destruct n' as [|n']; [inversion Hn'|].
  cbn [groupLoop ParserOnStack.groupLoop].
  destruct ((index <? length tokens) && negb (tokenIs tokens index ")"))
    eqn:E.
  - apply andb_true_iff in E. destruct E as [E _].
    apply Nat.ltb_lt in E.
    destruct (Hpe index (le_n _)) as [e [i' [He [He' Hi]]]].
    rewrite He, He'.
    apply IH; [intros i Hi'; apply Hpe; lia | lia | lia].
  - exists acc, index. split; reflexivity.
Qed.

Lemma parsePrimaryExpression_agree pe pe' (stack n n' index : nat) :
  (tokenIs tokens index "(" = true ->
   (forall i, index < i -> agree pe pe' i)
   /\ length tokens - S index < n /\ length tokens - S index < n') ->
  (tokenIs tokens index "(" = false -> 1 <= stack) ->
  agree (parsePrimaryExpression tokens pe n)
    (ParserOnStack.parsePrimaryExpression tokens pe' stack n') index.
Proof.
  intros Hopen Hrule.
  unfold agree, parsePrimaryExpression,
    ParserOnStack.parsePrimaryExpression.
  destruct (tokenIs tokens index "(").
  - destruct (Hopen eq_refl) as [Hpe [Hn Hn']].
    destruct (groupLoop_agree pe pe' n n' (S index) [])
      as [es [j [H1 H2]]]; [intros i Hi; apply Hpe; lia | lia | lia|].
    rewrite H1, H2.
    assert (Hj : S index <= j).
    { destruct (groupLoop_returns tokens pe n (S index) [])
        as [es' [j' [H1' Hj']]].
      - intros i Hi. destruct (Hpe i) as [e [i' [He [_ Hlt]]]]; [lia|].
        exists e, i'. split; [exact He | exact Hlt].
      - lia.
      - rewrite H1 in H1'. inversion H1'; subst. exact Hj'. }
    destruct ((j <? length tokens) && tokenIs tokens j ")");
      eexists _, _; (split; [reflexivity | split; [reflexivity | lia]]).
  - specialize (Hrule eq_refl).
    destruct stack as [|stack]; [inversion Hrule|].
    destruct (parseRule_advances tokens index) as [e [j [He Hj]]].
    inversion He as [He']. exists e, j. rewrite He'.
    split; [reflexivity | split; [reflexivity | exact Hj]].
Qed.

Lemma logicalLoop_agree pp pp' (n : nat) :
  forall n' lhs index,
    (forall i, index < i -> agree pp pp' i) ->
    length tokens - index < n ->
    length tokens - index < n' ->
    exists e j,
      logicalLoop tokens pp n lhs index = Some (e, j)
      /\ ParserOnStack.logicalLoop tokens pp' n' lhs index
         = Some (ParserOnStack.normal (e, j))
      /\ index <= j.
Proof.
  induction n as [|n IH]; intros n' lhs index Hpp Hn Hn';
    [inversion Hn|].
  destruct n' as [|n']; [inversion Hn'|].
  cbn [logicalLoop ParserOnStack.logicalLoop].
  destruct ((index <? length tokens)
            && (tokenIs tokens index "and" || tokenIs tokens index "or"))
    eqn:E.
  - apply andb_true_iff in E. destruct E as [E _].
    apply Nat.ltb_lt in E.
    destruct (Hpp (S index)) as [e [i' [He [He' Hi]]]]; [lia|].
    rewrite He, He'.
    destruct (IH n' (logical (if tokenIs tokens index "and"
                              then opAnd else opOr) lhs e) i')
      as [r [j [H1 [H2 H3]]]];
      [intros i Hi'; apply Hpp; lia | lia | lia|].
    exists r, j. split; [exact H1 | split; [exact H2 | lia]].
  - exists lhs, index. split; [reflexivity | split; [reflexivity | lia]].
Qed.

(** With enough room for three calls for each opening parenthesis
    ahead, and four more, the parser returns on the stack what it
    returns without one. *)
Lemma parseExpression_agree (fuel : nat) :
  forall stack index,
    length tokens - index + 2 <= fuel ->
    3 * openParens (skipn index tokens) + 4 <= stack ->
    agree (parseExpression tokens fuel)
      (ParserOnStack.parseExpression tokens stack) index.
Proof.
  induction fuel as [|fuel IH]; intros stack index Hf Hs; [lia|].
  destruct stack as [|[|[|stack]]]; try lia.
  assert (Hpp : forall i, index <= i ->
            agree
              (parsePrimaryExpression tokens (parseExpression tokens fuel)
                 fuel)
              (ParserOnStack.parsePrimaryExpression tokens
                 (ParserOnStack.parseExpression tokens stack) stack
                 (S (length tokens))) i).
  { intros i Hi. apply parsePrimaryExpression_agree.
    - intros Ho. destruct (openParens_skipn_open i Ho) as [Hc Hlt].
      pose proof (openParens_skipn_le index i Hi) as Hle.
      split; [|lia].
      intros i2 Hi2. apply IH; [lia|].
      pose proof (openParens_skipn_le (S i) i2 Hi2). lia.
    - intros _. lia. }
  unfold agree. cbn [parseExpression ParserOnStack.parseExpression].
  unfold parseLogicalExpression, ParserOnStack.parseLogicalExpression.
  destruct (Hpp index (le_n _)) as [lhs [k [H1 [H1' Hk]]]].
  rewrite H1, H1'.
  destruct (logicalLoop_agree _ _ fuel (S (length tokens)) lhs k
              (fun i Hi => Hpp i ltac:(lia)))
    as [e [j [H2 [H2' Hj]]]]; [lia | lia|].
  exists e, j. split; [exact H2 | split; [exact H2' | lia]].
Qed.
End OnStack.

Lemma parseTokens_agree (tokens : list jsstring) (stack : nat) :
  3 * openParens tokens + 5 <= stack ->
  exists e j,
    parseTokens tokens = Some e
    /\ ParserOnStack.parseTokens tokens stack
       = Some (ParserOnStack.normal e)
    /\ 0 < j
    /\ covers tokens (tokensOf e) 0 j
    /\ stopsAt tokens j.
Proof.
  intros Hs. destruct stack as [|stack]; [lia|].
  destruct (parseExpression_agree tokens (length tokens + 2) stack 0)
    as [e [j [H1 [H2 Hj]]]]; [lia | cbn [skipn]; lia|].
  destruct (parseExpression_sound tokens _ _ _ _ H1) as [[_ Hc] Hstop].
  exists e, j. unfold parseTokens, ParserOnStack.parseTokens.
  rewrite H1, H2. auto.
Qed.

(** C6.  With room on the call stack for three calls for each opening
    parenthesis of the filter and five more, [parseCustomFilter]
    returns, for a malformed filter too: [null] exactly for a blank
    filter and a tree otherwise, the same that the parser gives when
    the stack is left out.  The tree is built from the tokens that
    were read: written back as tokens it is the first [j] tokens,
    followed, where the tokens ended too early, by the empty operand
    and the closing parentheses that the parser supplies; and the
    parser stopped at [j] because the tokens ended there or the next
    one is no operator. *)
Theorem parseCustomFilter_returns (stack : nat) (filterString : jsstring) :
  3 * openParens (tokenizeFilter filterString) + 5 <= stack ->
  exists r,
    ParserOnStack.parseCustomFilter stack filterString
    = Some (ParserOnStack.normal r)
    /\ parseCustomFilter filterString = Some r
    /\ (r = None <-> blank filterString)
    /\ match r with
       | None => True
       | Some e =>
           exists j,
             0 < j
             /\ covers (tokenizeFilter filterString) (tokensOf e) 0 j
             /\ stopsAt (tokenizeFilter filterString) j
       end.
Proof.
  intros Hs.
  unfold parseCustomFilter, ParserOnStack.parseCustomFilter.
  destruct (truthy (trim filterString)) eqn:E; cbn [negb].
  - assert (Hnb : ~ blank filterString).
    { intros Hb. apply truthy_trim in Hb. congruence. }
    pose proof (tokenizeFilter_nonempty _ Hnb) as Hne.
    destruct (parseTokens_agree (tokenizeFilter filterString) stack Hs)
      as [e [j [H1 [H2 [Hj [Hc Hstop]]]]]].
    destruct (tokenizeFilter filterString) as [|t ts] eqn:Et;
      [congruence|].
    cbn [length Nat.eqb]. rewrite H1, H2.
    exists (Some e). split; [reflexivity|]. split; [reflexivity|].
    split; [split; [discriminate | intros Hb; contradiction]|].
    exists j. auto.
  - exists None. split; [reflexivity|]. split; [reflexivity|].
    split; [|exact I].
    split; [intros _; apply truthy_trim; exact E | reflexivity].
Qed.

Lemma parseCustomFilter_returns_witness :
  exists r,
    ParserOnStack.parseCustomFilter 11 (lit "(#a and (#b")
    = Some (ParserOnStack.normal r)
    /\ parseCustomFilter (lit "(#a and (#b") = Some r
    /\ (r = None <-> blank (lit "(#a and (#b"))
    /\ match r with
       | None => True
       | Some e =>
           exists j,
             0 < j
             /\ covers (tokenizeFilter (lit "(#a and (#b")) (tokensOf e) 0 j
             /\ stopsAt (tokenizeFilter (lit "(#a and (#b")) j
       end.
Proof.
  apply (parseCustomFilter_returns 11 (lit "(#a and (#b")).
  vm_compute. repeat constructor.
Defined.

Lemma tokenizeFilter_parens (n : nat) :
  tokenizeFilter (repeat 40%N n) = repeat (lit "(") n.
Proof.
  unfold tokenizeFilter, splitWs. rewrite normalized_spaced.
  assert (H : forall n,
            filter (fun token => truthy (trim token))
              (splitWsFrom [] true (flat_map spaced (repeat 40%N n)))
            = repeat (lit "(") n).
  { clear n. induction n as [|n IH]; [reflexivity|].
    cbn [repeat flat_map]. unfold spaced at 1.
    change (N.eqb 40 40) with true. cbv iota.
    change (lit " ( ") with [32%N; 40%N; 32%N]. cbn [app splitWsFrom].
    change (isWhiteSpace 32) with true. change (isWhiteSpace 40) with false.
    cbv iota. cbn [rev app filter].
    change (truthy (trim [40%N])) with true. cbv iota.
    rewrite IH. reflexivity. }
  destruct n as [|n]; [reflexivity|].
  cbn [repeat flat_map]. unfold spaced at 1.
  change (N.eqb 40 40) with true. cbv iota.
  change (lit " ( ") with [32%N; 40%N; 32%N]. cbn [app splitWsFrom].
  change (isWhiteSpace 32) with true. change (isWhiteSpace 40) with false.
  cbv iota. cbn [rev app filter].
  change (truthy (trim [])) with false.
  change (truthy (trim [40%N])) with true. cbv iota.
  rewrite H. reflexivity.
Qed.

Lemma parseExpression_deep (k : nat) :
  forall stack index,
    index < k -> stack < 3 * (k - index) ->
    ParserOnStack.parseExpression (repeat (lit "(") k) stack index
    = Some ParserOnStack.throwRangeError.
Proof.
  intros stack. induction stack as [stack IH] using lt_wf_ind.
  intros index Hi Hs.
  destruct stack as [|[|[|stack]]]; try reflexivity.
  cbn [ParserOnStack.parseExpression].
  unfold ParserOnStack.parseLogicalExpression,
    ParserOnStack.parsePrimaryExpression.
  assert (Hat : forall i, i < k ->
            nth_error (repeat (lit "(") k) i = Some (lit "("))
    by (intros i Hlt; apply nth_error_repeat; exact Hlt).
  rewrite (tokenIs_at _ _ _ "(" (Hat index Hi)).
  change (eqb (lit "(") (lit "(")) with true. cbv iota.
  rewrite repeat_length. cbn [ParserOnStack.groupLoop].
  assert (Hlt : (S index <? k) = true) by (apply Nat.ltb_lt; lia).
  rewrite repeat_length, Hlt.
  rewrite (tokenIs_at _ _ _ ")" (Hat (S index) ltac:(lia))).
  change (eqb (lit "(") (lit ")")) with false. cbn [negb andb].
  rewrite (IH stack); [reflexivity | lia | lia | lia].
Qed.

(** C6, as stated, fails.  Whatever room the stack has, a filter of
    more opening parentheses makes the parser throw; and so does a
    filter with balanced parentheses, [(((#a)))], on a stack with room
    for thirteen calls, one less than it needs. *)
Lemma parseCustomFilter_deep_nesting_throws :
  (forall stack : nat,
      ParserOnStack.parseCustomFilter stack (repeat 40%N (S stack))
      = Some ParserOnStack.throwRangeError)
  /\ ParserOnStack.parseCustomFilter 13 (lit "(((#a)))")
     = Some ParserOnStack.throwRangeError
  /\ ParserOnStack.parseCustomFilter 14 (lit "(((#a)))")
     = Some (ParserOnStack.normal
               (Some (group [group [group [tagRule "a"]]]))).
Proof.
  split; [|split; vm_compute; reflexivity].
  intros stack. unfold ParserOnStack.parseCustomFilter.
  assert (Hnb : truthy (trim (repeat 40%N (S stack))) = true).
  { destruct (truthy (trim (repeat 40%N (S stack)))) eqn:E; [reflexivity|].
    apply truthy_trim in E. inversion E as [|x l Hx Hl]. discriminate Hx. }
  rewrite Hnb, tokenizeFilter_parens. cbn [negb].
  rewrite repeat_length. cbn [Nat.eqb].
  unfold ParserOnStack.parseTokens.
  destruct stack as [|stack]; [reflexivity|].
  rewrite parseExpression_deep; [reflexivity | lia | lia].
Qed.

(** ** The task list of a day *)

Lemma endOfDay_le (tza t1 t2 : Z) (due : Date) :
  (t1 <= t2)%Z ->
  gt due (endOfDay tza (ValidDate t1)) = false ->
  gt due (endOfDay tza (ValidDate t2)) = false.
Proof.
  intros Hle. destruct due as [|x]; [reflexivity|].
  unfold endOfDay, gt, UTC, LocalTime, Day. rewrite !Z.ltb_ge.
  assert (H : ((t1 + tza) / msPerDay <= (t2 + tza) / msPerDay)%Z)
    by (apply Z.div_le_mono; [reflexivity | lia]).
  unfold msPerDay in *. lia.
Qed.

Lemma filter_incl_weaker {A : Type} (p q : A -> bool) (l : list A) :
  (forall x, p x = true -> q x = true) -> incl (filter p l) (filter q l).
Proof.
  intros H x Hx. apply filter_In in Hx. apply filter_In.
  split; [tauto | apply H; tauto].
Qed.

Lemma filter_incl_same {A : Type} (p : A -> bool) (l l' : list A) :
  incl l l' -> incl (filter p l) (filter p l').
Proof.
  intros H x Hx. apply filter_In in Hx. apply filter_In.
  split; [apply H; tauto | tauto].
Qed.

(** X5.  The task list of a day, for every filter and every status
    filter: the list is returned, every task listed for a day is listed
    for every later day, and two instants of the same local day give the
    same list. *)
Theorem renderTaskList_later_day (tza : Z) (settings : MyPluginSettings)
  (taskStatusFilter : TaskStatusFilter) (allTasks : list Task) (t1 t2 : Z) :
  (t1 <= t2)%Z ->
  exists l1 l2,
    renderTaskList tza settings taskStatusFilter allTasks (ValidDate t1)
    = Some l1
    /\ renderTaskList tza settings taskStatusFilter allTasks (ValidDate t2)
       = Some l2
    /\ incl l1 l2
    /\ (Day (LocalTime tza t1) = Day (LocalTime tza t2) -> l1 = l2).
Proof.
  intros Hle. unfold renderTaskList, filterTasks.
  destruct (parseCustomFilter_total (customFilter (taskFilter settings)))
    as [r [-> _]].
  eexists. eexists. split; [reflexivity|]. split; [reflexivity|]. split.
  - assert (H : incl
        (filter (fun task =>
           if match dueDate task with
              | Some due => gt due (endOfDay tza (ValidDate t1))
              | None => false
              end
           then false
           else match r with
                | None => true
                | Some e => evaluateExpression task e
                end) allTasks)
        (filter (fun task =>
           if match dueDate task with
              | Some due => gt due (endOfDay tza (ValidDate t2))
              | None => false
              end
           then false
           else match r with
                | None => true
                | Some e => evaluateExpression task e
                end) allTasks)).
    { apply filter_incl_weaker. intros task.
      destruct (dueDate task) as [due|]; [|tauto].
      destruct (gt due (endOfDay tza (ValidDate t1))) eqn:E1;
        [discriminate|].
      rewrite (endOfDay_le tza t1 t2 due Hle E1). tauto. }
    destruct taskStatusFilter;
      [exact H | apply filter_incl_same; exact H
       | apply filter_incl_same; exact H].
  - intros Hday. unfold endOfDay. rewrite Hday. reflexivity.
Qed.

Lemma renderTaskList_later_day_witness :
  exists l1 l2,
    renderTaskList 28800000 (settingsWith "#home") todo
      [sampleTask "water plants #home" None; payRent]
      (ValidDate 1709251200000)
    = Some l1
    /\ renderTaskList 28800000 (settingsWith "#home") todo
         [sampleTask "water plants #home" None; payRent]
         (ValidDate 1711843200000)
       = Some l2
    /\ incl l1 l2
    /\ (Day (LocalTime 28800000 1709251200000)
        = Day (LocalTime 28800000 1711843200000) -> l1 = l2).
Proof.
  apply (renderTaskList_later_day 28800000 (settingsWith "#home") todo
           [sampleTask "water plants #home" None; payRent]
           1709251200000 1711843200000).
  vm_compute. discriminate.
Defined.

(** ** Escaped patterns *)

Lemma run_cat_cons {A : Type} (a : regex) (l : list regex)
  (pre rest : jsstring) (c : captures)
  (k : jsstring -> jsstring -> captures -> option A) :
  run (cat (a :: l)) pre rest c k
  = run a pre rest c (fun pre' rest' c' => run (cat l) pre' rest' c' k).
Proof. destruct l; reflexivity. Qed.

Lemma startsWith_nil (s : jsstring) : startsWith s [] = true.
Proof. destruct s; reflexivity. Qed.

(** A sequence of literal characters matches where the input starts
    with them, and reads exactly them. *)
Lemma run_literal {A : Type} (text : jsstring) :
  forall (pre rest : jsstring) (c : captures)
         (k : jsstring -> jsstring -> captures -> option A),
    run (cat (map unit text)) pre rest c k
    = if startsWith rest text
      then k (rev text ++ pre) (skipn (length text) rest) c
      else None.
Proof.
  induction text as [|x text IH]; intros pre rest c k.
  - cbn [map cat run rev app length skipn]. rewrite startsWith_nil.
    reflexivity.
  - cbn [map]. rewrite run_cat_cons. cbn [run unit].
    destruct rest as [|y rest]; [reflexivity|].
    cbn [startsWith length skipn]. rewrite N.eqb_sym.
    destruct (N.eqb y x) eqn:E; [|reflexivity].
    apply N.eqb_eq in E. subst y. cbn [andb]. rewrite IH.
    cbn [rev]. rewrite <- app_assoc. reflexivity.
Qed.

Lemma firstn_prefix (p post : jsstring) :
  firstn (length (p ++ post) - length post) (p ++ post) = p.
Proof.
  rewrite length_app, Nat.add_sub.
  rewrite firstn_app, Nat.sub_diag, firstn_all. cbn [firstn].
  apply app_nil_r.
Qed.

Lemma searchFrom_literal (text : jsstring) :
  forall (rest pre : jsstring),
    match searchFrom (cat (map unit text)) pre rest with
    | Some m =>
        exists skipped,
          rest = skipped ++ text ++ matchRest m
          /\ matchIndex m = (length pre + length skipped)%nat
          /\ matchText m = text
          /\ (forall s' p', rest = s' ++ text ++ p' ->
                            (length skipped <= length s')%nat)
    | None => ~ contains rest text
    end.
Proof.
  assert (Hhere : forall rest pre,
            startsWith rest text = true ->
            exists post,
              rest = text ++ post
              /\ searchFrom (cat (map unit text)) pre rest
                 = Some (mkMatch (length pre) text [] (rev text ++ pre) post)).
  { intros rest pre H. pose proof H as H'.
    apply startsWith_spec in H'. destruct H' as [post Hpost].
    exists post. split; [exact Hpost|].
    destruct rest as [|y rest]; cbn [searchFrom]; rewrite run_literal, H;
      rewrite Hpost, skipn_prefix, firstn_prefix; reflexivity. }
  assert (Hnot : forall y rest pre,
            startsWith (y :: rest) text = false ->
            searchFrom (cat (map unit text)) pre (y :: rest)
            = searchFrom (cat (map unit text)) (y :: pre) rest).
  { intros y rest pre H. cbn [searchFrom]. rewrite run_literal, H.
    reflexivity. }
  induction rest as [|y rest IH]; intros pre.
  - destruct (startsWith [] text) eqn:E.
    + destruct (Hhere [] pre E) as [post [Hpost ->]]. cbn [matchRest].
      exists []. cbn [app length]. rewrite Nat.add_0_r.
      repeat split; [exact Hpost | intros; lia].
    + cbn [searchFrom]. rewrite run_literal, E.
      intros [s' [p' H]]. destruct s'; [|discriminate].
      assert (startsWith [] text = true)
        by (apply startsWith_spec; exists p'; exact H).
      congruence.
  - destruct (startsWith (y :: rest) text) eqn:E.
    + destruct (Hhere (y :: rest) pre E) as [post [Hpost ->]].
      cbn [matchRest matchIndex matchText].
      exists []. cbn [app length]. rewrite Nat.add_0_r.
      repeat split; [exact Hpost | intros; lia].
    + rewrite (Hnot y rest pre E). specialize (IH (y :: pre)).
      assert (Hhead : forall s' p',
                y :: rest = s' ++ text ++ p' ->
                exists s'', s' = y :: s'' /\ rest = s'' ++ text ++ p').
      { intros [|e s''] p' H.
        - assert (startsWith (y :: rest) text = true)
            by (apply startsWith_spec; exists p'; exact H).
          congruence.
        - inversion H; subst. exists s''. auto. }
      destruct (searchFrom (cat (map unit text)) (y :: pre) rest) as [m|].
      * destruct IH as [skipped [Hr [Hi [Ht Hmin]]]].
        exists (y :: skipped). cbn [app length].
        repeat split.
        -- rewrite Hr at 1. reflexivity.
        -- rewrite Hi. cbn [length]. lia.
        -- exact Ht.
        -- intros s' p' H. destruct (Hhead _ _ H) as [s'' [-> H']].
           cbn [length]. specialize (Hmin _ _ H'). lia.
      * intros [s' [p' H]]. destruct (Hhead _ _ H) as [s'' [_ H']].
        apply IH. exists s'', p'. exact H'.
Qed.

(** ** Escaped patterns, parsed *)

Lemma isRegExpSpecial_cases (c : N) :
  isRegExpSpecial c = true ->
  In c [46; 42; 43; 63; 94; 36; 123; 125; 40; 41; 124; 91; 93; 92]%N.
Proof.
  unfold isRegExpSpecial. intros H. apply existsb_exists in H.
  destruct H as [y [Hy E]]. apply N.eqb_eq in E. subst y. exact Hy.
Qed.

(** A character that is not special is none of the characters to
    which the pattern language gives a meaning. *)
Lemma isChar_plain (c : N) (s : string) :
  isRegExpSpecial c = false ->
  In s ["^"; "$"; "("; ")"; "*"; "+"; "?"; "{"; "["; "\"; "."; "|"]%string ->
  Pattern.isChar s c = false.
Proof.
  unfold isRegExpSpecial. intros H Hs.
  destruct (Pattern.isChar s c) eqn:E; [|reflexivity].
  assert (Ht : existsb (N.eqb c) (lit ".*+?^${}()|[]\") = true).
  { apply existsb_exists.
    cbn [In] in Hs.
    repeat (destruct Hs as [<- | Hs];
            [eexists; split; [|exact E]; cbn; tauto|]).
    contradiction. }
  congruence.
Qed.

(** No quantifier follows a character of an escaped text. *)
Lemma parseQuantifier_escaped (a : regex) (text : jsstring) :
  Pattern.parseQuantifier a (escapeRegExp text)
  = Some (a, escapeRegExp text).
Proof.
  destruct text as [|c text]; [reflexivity|].
  unfold escapeRegExp. cbn [flat_map].
  destruct (isRegExpSpecial c) eqn:E; [reflexivity|].
  cbn [app]. unfold Pattern.parseQuantifier.
  rewrite !(isChar_plain c _ E) by (cbn; tauto). reflexivity.
Qed.

(** An escaped special character and a character that is not
    special are both read as the character itself. *)
Lemma parseTerm_escaped
  (parseGroup : jsstring -> nat -> option (regex * jsstring * nat))
  (multiline : bool) (c : N) (text : jsstring) (groups : nat) :
  isRegExpSpecial c = true ->
  Pattern.parseTerm parseGroup multiline 92 (c :: escapeRegExp text) groups
  = Some (unit c, escapeRegExp text, groups).
Proof.
  intros H. apply isRegExpSpecial_cases in H.
  unfold Pattern.parseTerm.
  change (Pattern.isChar "^" 92) with false.
  change (Pattern.isChar "$" 92) with false.
  change (Pattern.isChar "(" 92) with false.
  change (Pattern.isChar "*" 92) with false.
  change (Pattern.isChar "+" 92) with false.
  change (Pattern.isChar "?" 92) with false.
  change (Pattern.isChar "{" 92) with false.
  change (Pattern.isChar "[" 92) with false.
  change (Pattern.isChar "\" 92) with true.
  cbv iota. cbn [orb].
  assert (E : Pattern.parseAtomEscape c = Some (unit c)).
  { cbn [In] in H.
    repeat (destruct H as [<- | H]; [reflexivity|]). contradiction. }
  rewrite E, parseQuantifier_escaped. reflexivity.
Qed.

Lemma parseTerm_plain
  (parseGroup : jsstring -> nat -> option (regex * jsstring * nat))
  (multiline : bool) (c : N) (text : jsstring) (groups : nat) :
  isRegExpSpecial c = false ->
  Pattern.parseTerm parseGroup multiline c (escapeRegExp text) groups
  = Some (unit c, escapeRegExp text, groups)
  /\ Pattern.isChar "|" c || Pattern.isChar ")" c = false.
Proof.
  intros H. unfold Pattern.parseTerm.
  rewrite !(isChar_plain c _ H) by (cbn; tauto).
  cbn [orb]. rewrite parseQuantifier_escaped. split; reflexivity.
Qed.

Lemma parseAlternative_escaped
  (parseGroup : jsstring -> nat -> option (regex * jsstring * nat))
  (multiline : bool) (groups : nat) (text : jsstring) :
  forall n, (length text < n)%nat ->
    Pattern.parseAlternative parseGroup multiline n (escapeRegExp text)
      groups
    = Some (map unit text, [], groups).
Proof.
  induction text as [|c text IH]; intros n Hn;
    (destruct n as [|n]; [inversion Hn|]); [reflexivity|].
  cbn [length] in Hn. apply Nat.succ_lt_mono in Hn.
  change (escapeRegExp (c :: text))
    with ((if isRegExpSpecial c then [92%N; c] else [c])
          ++ escapeRegExp text).
  destruct (isRegExpSpecial c) eqn:E; cbn [app Pattern.parseAlternative].
  - change (Pattern.isChar "|" 92 || Pattern.isChar ")" 92) with false.
    cbv iota.
    rewrite (parseTerm_escaped _ _ _ _ _ E), (IH n Hn). reflexivity.
  - destruct (parseTerm_plain parseGroup multiline c text groups E)
      as [Ht Hb].
    rewrite Hb, Ht, (IH n Hn). reflexivity.
Qed.

Lemma length_escapeRegExp (text : jsstring) :
  (length text <= length (escapeRegExp text))%nat.
Proof.
  induction text as [|c text IH]; [apply le_n|].
  change (escapeRegExp (c :: text))
    with ((if isRegExpSpecial c then [92%N; c] else [c])
          ++ escapeRegExp text).
  rewrite length_app. destruct (isRegExpSpecial c); cbn [length]; lia.
Qed.

Lemma parsePattern_escapeRegExp (multiline : bool) (text : jsstring) :
  Pattern.parsePattern multiline (escapeRegExp text)
  = Some (cat (map unit text)).
Proof.
  unfold Pattern.parsePattern.
  replace (length (escapeRegExp text) + 2)%nat
    with (S (length (escapeRegExp text) + 1)) by lia.
  cbn [Pattern.parseDisjunction].
  rewrite parseAlternative_escaped
    by (pose proof (length_escapeRegExp text); lia).
  reflexivity.
Qed.

(** X6.  [new RegExp] reads the pattern [escapeRegExp text] as the
    characters of [text] one after the other, every special character
    having lost its meaning: searching the input with it finds the
    first occurrence of [text], and it finds nothing exactly when
    [text] does not occur. *)
Theorem escapeRegExp_matches_literally (multiline : bool)
  (text input : jsstring) :
  exists r,
    Pattern.parsePattern multiline (escapeRegExp text) = Some r
    /\ match exec r input with
       | Some m =>
           firstOccurrence text input (firstn (matchIndex m) input)
             (matchRest m)
           /\ matchText m = text
       | None => ~ contains input text
       end.
Proof.
  exists (cat (map unit text)).
  split; [apply parsePattern_escapeRegExp|]. unfold exec.
  pose proof (searchFrom_literal text input []) as H.
  destruct (searchFrom (cat (map unit text)) [] input) as [m|];
    [|exact H].
  destruct H as [skipped [Hr [Hi [Ht Hmin]]]]. cbn [length Nat.add] in Hi.
  assert (Hf : firstn (matchIndex m) input = skipped).
  { rewrite Hi, Hr, firstn_app, Nat.sub_diag, firstn_all. cbn [firstn].
    apply app_nil_r. }
  rewrite Hf. split; [|exact Ht]. split; [exact Hr | exact Hmin].
Qed.

(** ** One checkbox line *)

Section TaskLine.
Context {A : Type}.

Lemma run_star_space_stop (pre rest : jsstring) (c : captures)
  (k : jsstring -> jsstring -> captures -> option A) :
  match rest with
  | [] => True
  | x :: _ => isWhiteSpace x = false
  end ->
  run (Star space) pre rest c k = k pre rest c.
Proof.
  intros H. cbn [run]. destruct rest as [|x rest]; [reflexivity|].
  cbn [length run space]. rewrite H. reflexivity.
Qed.

Lemma run_star_space_one (pre rest : jsstring) (c : captures)
  (k : jsstring -> jsstring -> captures -> option A) (x : N) (y : A) :
  isWhiteSpace x = false ->
  k (32%N :: pre) (x :: rest) c = Some y ->
  run (Star space) pre (32%N :: x :: rest) c k = Some y.
Proof.
  intros Hx Hk. cbn [run length space].
  change (isWhiteSpace 32) with true. cbv iota.
  assert (Hlt : (S (length rest) <? S (S (length rest)))%nat = true)
    by (apply Nat.ltb_lt; lia).
  rewrite Hlt, Hx, Hk. reflexivity.
Qed.

(** [.*] reads to the end of a text without line ends when the rest
    of the pattern accepts there. *)
Lemma run_star_dot_all (k : jsstring -> jsstring -> captures -> option A)
  (c : captures) (y : A) :
  forall (body pre : jsstring),
    forallb notLineTerminator body = true ->
    k (rev body ++ pre) [] c = Some y ->
    run (Star dot) pre body c k = Some y.
Proof.
  intros body pre. cbn [run].
  assert (Hn : (length body <= length body)%nat) by lia. revert Hn.
  generalize (length body) at 2 3. intros n.
  revert body pre. induction n as [|n IH]; intros body pre Hn Hb Hk.
  - destruct body as [|x body]; [exact Hk | cbn [length] in Hn; lia].
  - destruct body as [|x body]; [exact Hk|].
    cbn [forallb] in Hb. apply andb_true_iff in Hb. destruct Hb as [Hx Hb].
    cbn [run dot]. unfold notLineTerminator in Hx. rewrite Hx.
    assert (Hlt : (length body <? length (x :: body))%nat = true)
      by (apply Nat.ltb_lt; cbn [length]; lia).
    rewrite Hlt. rewrite IH; [reflexivity | | exact Hb |].
    + cbn [length] in Hn. lia.
    + cbn [rev] in Hk. rewrite <- app_assoc in Hk. exact Hk.
Qed.

Lemma run_taskRegex_nil (pre : jsstring) (c : captures)
  (k : jsstring -> jsstring -> captures -> option A) :
  run taskRegex pre [] c k = None.
Proof.
  destruct pre as [|x pre]; [reflexivity|].
  cbn. destruct (isLineTerminator x); reflexivity.
Qed.
End TaskLine.

Lemma searchFrom_unfold (r : regex) (pre rest : jsstring) :
  searchFrom r pre rest
  = match run r pre rest []
            (fun pre' rest' c' =>
               Some (mkMatch (length pre)
                       (firstn (length rest - length rest') rest)
                       c' pre' rest')) with
    | Some m => Some m
    | None =>
        match rest with
        | [] => None
        | x :: rest' => searchFrom r (x :: pre) rest'
        end
    end.
Proof. destruct rest; reflexivity. Qed.

Lemma firstn_one (x : N) (l : jsstring) :
  firstn (length (x :: l) - length l) (x :: l) = [x].
Proof.
  cbn [length]. replace (S (length l) - length l)%nat with 1%nat by lia.
  reflexivity.
Qed.

Lemma firstn_whole (l : jsstring) :
  firstn (length l - length (@nil N)) l = l.
Proof. cbn [length]. rewrite Nat.sub_0_r. apply firstn_all. Qed.

Lemma run_taskRegex_line (marker c0 : N) (body : jsstring) :
  isLineTerminator marker = false ->
  isWhiteSpace c0 = false ->
  forallb notLineTerminator (c0 :: body) = true ->
  let line := taskLine marker (c0 :: body) in
  searchFrom taskRegex [] line
  = Some (mkMatch 0 line [(2%nat, c0 :: body); (1%nat, [marker])]
            (rev line) []).
Proof.
  intros Hm Hc Hb line.
  assert (Hrun : forall k : jsstring -> jsstring -> captures
                            -> option MatchResult,
            (forall pre' c', k pre' [] c' = Some (mkMatch 0 line c' pre' [])) ->
            run taskRegex [] line [] k
            = Some (mkMatch 0 line [(2%nat, c0 :: body); (1%nat, [marker])]
                      (rev line) [])).
  { intros k Hk. unfold taskRegex, line, taskLine.
    change (lit "- [") with [45%N; 32%N; 91%N].
    change (lit "] ") with [93%N; 32%N]. cbn [app].
    rewrite run_cat_cons. cbn [run].
    rewrite run_cat_cons, run_star_space_stop by reflexivity.
    rewrite run_cat_cons. cbn [run chr lit list_ascii_of_string map].
    change (N.eqb 45 (N_of_ascii "-")) with true. cbv iota.
    rewrite run_cat_cons.
    apply run_star_space_one; [reflexivity|].
    rewrite run_cat_cons. cbn [run chr lit list_ascii_of_string map].
    change (N.eqb 91 (N_of_ascii "[")) with true. cbv iota.
    rewrite run_cat_cons. cbn [run dot]. rewrite Hm. cbn [negb].
    rewrite run_cat_cons. cbn [run chr lit list_ascii_of_string map].
    change (N.eqb 93 (N_of_ascii "]")) with true. cbv iota.
    rewrite run_cat_cons.
    apply run_star_space_one; [exact Hc|].
    rewrite run_cat_cons. cbn [run Plus dot].
    cbn [forallb] in Hb. apply andb_true_iff in Hb. destruct Hb as [Hc0 Hb].
    unfold notLineTerminator in Hc0. rewrite Hc0.
    apply run_star_dot_all; [exact Hb|].
    cbn [cat run]. rewrite Hk.
    rewrite (firstn_one marker), firstn_whole.
    f_equal. f_equal.
    cbn [rev]. rewrite <- !app_assoc. reflexivity. }
  rewrite searchFrom_unfold, Hrun; [reflexivity|].
  intros pre' c'. rewrite firstn_whole. reflexivity.
Qed.

Lemma completed_marker (marker : N) :
  eqb (toLowerCase [marker]) (lit "x") = N.eqb marker 120 || N.eqb marker 88.
Proof.
  apply eq_true_iff_eq.
  rewrite marker_completed, orb_true_iff, !N.eqb_eq. reflexivity.
Qed.

(** X7.  A file that consists of one checkbox line [- [m] text], where
    the text has no line end and does not begin with white space, gives
    exactly one task: it is completed exactly when the marker is [x] or
    [X], its text and raw text are the trimmed text, it carries the path
    of the file, and it has no due date when the text holds no due-date
    token. *)
Theorem extraction_of_task_line (path : jsstring) (marker c0 : N)
  (body : jsstring) :
  isLineTerminator marker = false ->
  isWhiteSpace c0 = false ->
  forallb notLineTerminator (c0 :: body) = true ->
  exists due,
    extractBasicTasks [(path, Some (taskLine marker (c0 :: body)))]
    = Some [mkTask (trim (c0 :: body))
              (N.eqb marker 120 || N.eqb marker 88) path due
              (trim (c0 :: body))]
    /\ (exec dueDateRegex (trim (c0 :: body)) = None -> due = None).
Proof.
  intros Hm Hc Hb.
  cbn [extractBasicTasks]. unfold execAll. cbn [execAllFrom].
  rewrite (run_taskRegex_line marker c0 body Hm Hc Hb).
  cbn [matchPre matchRest].
  assert (Hlen : exists n, length (taskLine marker (c0 :: body)) = S n).
  { unfold taskLine. cbn. eexists. reflexivity. }
  destruct Hlen as [n Hn]. rewrite Hn. cbn [execAllFrom].
  rewrite searchFrom_unfold, run_taskRegex_nil.
  cbn [flat_map app]. unfold taskOfMatch at 1.
  cbn [matchGroups capture Nat.eqb truthy andb].
  rewrite completed_marker.
  eexists. split; [reflexivity|].
  intros ->. reflexivity.
Qed.

Lemma extraction_of_task_line_witness :
  exists due,
    extractBasicTasks
      [(lit "inbox.md", Some (taskLine 88 (lit "Call the bank  ")))]
    = Some [mkTask (trim (lit "Call the bank  "))
              (N.eqb 88 120 || N.eqb 88 88) (lit "inbox.md") due
              (trim (lit "Call the bank  "))]
    /\ (exec dueDateRegex (trim (lit "Call the bank  ")) = None ->
        due = None).
Proof.
  apply (extraction_of_task_line (lit "inbox.md") 88 67
           (lit "all the bank  ")); reflexivity.
Defined.

(** ** Trimming *)

Lemma trimStart_fixed (s : jsstring) :
  match s with
  | [] => True
  | c :: _ => isWhiteSpace c = false
  end ->
  trimStart s = s.
Proof.
  destruct s as [|c s]; [reflexivity|]. cbn [trimStart]. intros ->.
  reflexivity.
Qed.

Lemma trimStart_suffix (s : jsstring) :
  exists w, s = w ++ trimStart s.
Proof.
  induction s as [|c s [w IH]]; [exists []; reflexivity|].
  cbn [trimStart]. destruct (isWhiteSpace c).
  - exists (c :: w). cbn [app]. rewrite <- IH. reflexivity.
  - exists []. reflexivity.
Qed.

Lemma trim_trimmed (s : jsstring) : trim (trim s) = trim s.
Proof.
  unfold trim at 1. unfold trimEnd at 1.
  assert (Hstart : trimStart (trim s) = trim s).
  { apply trimStart_fixed. unfold trim, trimEnd.
    pose proof (trimStart_head s) as Hh.
    destruct (trimStart_suffix (rev (trimStart s))) as [w Hw].
    apply (f_equal (@rev N)) in Hw.
    rewrite rev_involutive, rev_app_distr in Hw.
    destruct (rev (trimStart (rev (trimStart s)))) as [|c t];
      [exact I|].
    rewrite Hw in Hh. exact Hh. }
  rewrite Hstart. unfold trim at 1, trimEnd at 1.
  rewrite rev_involutive.
  rewrite (trimStart_fixed (trimStart (rev (trimStart s))))
    by apply trimStart_head.
  reflexivity.
Qed.

(** ** Extraction, file by file *)

Lemma taskOfMatch_tasks (path : jsstring) (m : MatchResult) (t : Task) :
  In t (taskOfMatch path m) ->
  text t = rawText t /\ trim (rawText t) = rawText t /\ filePath t = path.
Proof.
  unfold taskOfMatch.
  destruct (capture 1 (matchGroups m)) as [m1|]; [|intros []].
  destruct (capture 2 (matchGroups m)) as [m2|]; [|intros []].
  destruct (truthy m1 && truthy m2); [|intros []].
  intros [<- | []]. cbn [text rawText filePath].
  split; [reflexivity|]. split; [apply trim_trimmed | reflexivity].
Qed.

(** X8.  The extraction returns for every list of files and works file
    by file: the tasks of a list of files are the tasks of its first
    part followed by those of the rest. The text of each task is its raw
    text, which is trimmed, and its path is that of a file of the list
    that could be read. *)
Theorem extractBasicTasks_file_by_file (files1 files2 : list File) :
  exists tasks1 tasks2,
    extractBasicTasks files1 = Some tasks1
    /\ extractBasicTasks files2 = Some tasks2
    /\ extractBasicTasks (files1 ++ files2) = Some (tasks1 ++ tasks2)
    /\ forall t, In t tasks1 ->
         text t = rawText t
         /\ trim (rawText t) = rawText t
         /\ exists content, In (filePath t, Some content) files1.
Proof.
  destruct (extractBasicTasks_returns files2) as [tasks2 H2].
  induction files1 as [|[path [content|]] files1 IH].
  - exists [], tasks2. cbn [app extractBasicTasks].
    split; [reflexivity|]. split; [exact H2|]. split; [exact H2|].
    intros t [].
  - destruct IH as [tasks1 [tasks2' [H1 [H2' [H12 Hinv]]]]].
    rewrite H2 in H2'. inversion H2'; subst tasks2'. clear H2'.
    destruct (extractBasicTasks_returns [(path, Some content)]) as [ts Hts].
    cbn [extractBasicTasks] in Hts.
    destruct (execAll taskRegex content) as [ms|] eqn:E; [|discriminate].
    exists (flat_map (taskOfMatch path) ms ++ tasks1), tasks2.
    cbn [app extractBasicTasks]. rewrite E, H1, H12, <- app_assoc.
    split; [reflexivity|]. split; [exact H2|]. split; [reflexivity|].
    intros t H. apply in_app_or in H. destruct H as [H | H].
    + apply in_flat_map in H. destruct H as [m [_ H]].
      destruct (taskOfMatch_tasks path m t H) as [Ht [Hr Hp]].
      split; [exact Ht|]. split; [exact Hr|].
      exists content. rewrite Hp. left. reflexivity.
    + destruct (Hinv t H) as [Ht [Hr [content' Hc]]].
      split; [exact Ht|]. split; [exact Hr|].
      exists content'. right. exact Hc.
  - destruct IH as [tasks1 [tasks2' [H1 [H2' [H12 Hinv]]]]].
    exists tasks1, tasks2'. cbn [app extractBasicTasks].
    split; [exact H1|]. split; [exact H2'|]. split; [exact H12|].
    intros t H. destruct (Hinv t H) as [Ht [Hr [content' Hc]]].
    split; [exact Ht|]. split; [exact Hr|].
    exists content'. right. exact Hc.
Qed.

(** ** The task indicator of a day *)

Section IndicatorRun.
Context {A : Type}.

Lemma run_Eps (pre rest : jsstring) (c : captures)
  (k : jsstring -> jsstring -> captures -> option A) :
  run Eps pre rest c k = k pre rest c.
Proof. reflexivity. Qed.

Lemma run_Chr (p : N -> bool) (x : N) (pre rest : jsstring) (c : captures)
  (k : jsstring -> jsstring -> captures -> option A) :
  run (Chr p) pre (x :: rest) c k
  = if p x then k (x :: pre) rest c else None.
Proof. reflexivity. Qed.

Lemma run_Seq (a b : regex) (pre rest : jsstring) (c : captures)
  (k : jsstring -> jsstring -> captures -> option A) :
  run (Seq a b) pre rest c k
  = run a pre rest c (fun pre' rest' c' => run b pre' rest' c' k).
Proof. reflexivity. Qed.

Lemma run_Alt (a b : regex) (pre rest : jsstring) (c : captures)
  (k : jsstring -> jsstring -> captures -> option A) :
  run (Alt a b) pre rest c k
  = match run a pre rest c k with
    | Some x => Some x
    | None => run b pre rest c k
    end.
Proof. reflexivity. Qed.

Lemma run_Capture (n : nat) (a : regex) (pre rest : jsstring) (c : captures)
  (k : jsstring -> jsstring -> captures -> option A) :
  run (Capture n a) pre rest c k
  = run a pre rest c
      (fun pre' rest' c' =>
         k pre' rest'
           ((n, firstn (length rest - length rest') rest) :: c')).
Proof. reflexivity. Qed.

Lemma run_LineStart_nil (rest : jsstring) (c : captures)
  (k : jsstring -> jsstring -> captures -> option A) :
  run LineStart [] rest c k = k [] rest c.
Proof. reflexivity. Qed.

Lemma run_star_stop (p : N -> bool) (pre rest : jsstring) (c : captures)
  (k : jsstring -> jsstring -> captures -> option A) :
  match rest with
  | [] => True
  | x :: _ => p x = false
  end ->
  run (Star (Chr p)) pre rest c k = k pre rest c.
Proof.
  intros H. cbn [run]. destruct rest as [|x rest]; [reflexivity|].
  cbn [length run]. rewrite H. reflexivity.
Qed.

Lemma run_star_one (p : N -> bool) (pre rest : jsstring) (c : captures)
  (k : jsstring -> jsstring -> captures -> option A) (w x : N) :
  p w = true -> p x = false ->
  run (Star (Chr p)) pre (w :: x :: rest) c k
  = match k (w :: pre) (x :: rest) c with
    | Some y => Some y
    | None => k pre (w :: x :: rest) c
    end.
Proof.
  intros Hw Hx. cbn [run length]. rewrite Hw.
  assert (Hlt : (S (length rest) <? S (S (length rest)))%nat = true)
    by (apply Nat.ltb_lt; lia).
  rewrite Hlt, Hx. reflexivity.
Qed.
End IndicatorRun.

Lemma run_bracket_space {A : Type} (pre rest : jsstring) (c : captures)
  (k : jsstring -> jsstring -> captures -> option A) :
  run (cat [chr "["; Capture 2 (oneOf " xX"); chr "]"]) pre (32%N :: rest)
    c k = None.
Proof. reflexivity. Qed.

Lemma run_bracket_marker {A : Type} (marker : N) (pre rest : jsstring)
  (c : captures) (k : jsstring -> jsstring -> captures -> option A) :
  run (cat [chr "["; Capture 2 (oneOf " xX"); chr "]"]) pre
    (91%N :: marker :: 93%N :: rest) c k
  = if existsb (N.eqb marker) (lit " xX")
    then k (93%N :: marker :: 91%N :: pre) rest
           ((2%nat, firstn (length (marker :: 93%N :: rest)
                            - length (93%N :: rest))
                      (marker :: 93%N :: rest)) :: c)
    else None.
Proof.
  cbn [cat run chr oneOf lit list_ascii_of_string map].
  change (N.eqb 91 (N_of_ascii "[")) with true. cbv iota.
  destruct (existsb (N.eqb marker)
              [N_of_ascii " "; N_of_ascii "x"; N_of_ascii "X"]);
    reflexivity.
Qed.

Lemma run_indicator_line (marker : N) (body : jsstring)
  (k : jsstring -> jsstring -> captures -> option MatchResult) :
  (forall pre' rest' c', k pre' rest' c' <> None) ->
  run IndicatorRenderer.taskRegex [] (taskLine marker body) [] k = None
  <-> existsb (N.eqb marker) (lit " xX") = false.
Proof.
  intros Hk. unfold IndicatorRenderer.taskRegex, taskLine.
  change (lit "- [") with [45%N; 32%N; 91%N].
  change (lit "] ") with [93%N; 32%N]. cbn [app].
  rewrite run_cat_cons, run_LineStart_nil.
  rewrite run_cat_cons, (run_star_stop isWhiteSpace) by reflexivity.
  rewrite run_cat_cons, run_Capture. unfold Plus, Opt.
  rewrite !run_Seq, run_Chr.
  change (existsb (N.eqb 45) (lit "-*") || (48 <=? 45)%N && (45 <=? 57)%N)
    with true. cbv iota.
  rewrite run_star_stop by reflexivity. cbv beta.
  rewrite run_Alt. unfold chr at 1. rewrite run_Chr.
  change (lit ".") with [46%N]. cbv beta iota.
  change (N.eqb 32 46) with false. cbv iota.
  rewrite run_Eps, run_cat_cons.
  unfold space. rewrite (run_star_one isWhiteSpace) by reflexivity.
  rewrite run_bracket_space, run_bracket_marker.
  destruct (existsb (N.eqb marker) (lit " xX")) eqn:E.
  - split; [|discriminate]. intros H.
    match type of H with
    | match ?t with _ => _ end = None => destruct t eqn:Et
    end; [discriminate|]. exfalso. exact (Hk _ _ _ Et).
  - split; reflexivity.
Qed.

Lemma searchFrom_line_start (r : regex) :
  forall (rest pre : jsstring),
    match pre with
    | [] => False
    | x :: _ => isLineTerminator x = false
    end ->
    forallb notLineTerminator rest = true ->
    searchFrom (Seq LineStart r) pre rest = None.
Proof.
  induction rest as [|y rest IH]; intros pre Hpre Hrest;
    destruct pre as [|x pre]; try contradiction;
    rewrite searchFrom_unfold; cbn [run]; rewrite Hpre.
  - reflexivity.
  - cbn [forallb] in Hrest. apply andb_true_iff in Hrest.
    destruct Hrest as [Hy Hrest]. apply IH; [|exact Hrest].
    unfold notLineTerminator in Hy. apply negb_true_iff in Hy. exact Hy.
Qed.

(** X26.  A day gets its task mark from a checkbox line [- [m] body]
    exactly when the marker [m] is a space, [x] or [X]; a task with
    another marker, which the extraction reads as an open task, does not
    count. *)
Theorem hasTask_markers (marker : N) (body : jsstring) :
  isLineTerminator marker = false ->
  forallb notLineTerminator body = true ->
  IndicatorRenderer.hasTask (taskLine marker body) = true
  <-> marker = 32%N \/ marker = 120%N \/ marker = 88%N.
Proof.
  intros Hm Hb.
  assert (Hset : existsb (N.eqb marker) (lit " xX") = true
                 <-> marker = 32%N \/ marker = 120%N \/ marker = 88%N).
  { cbn [existsb lit list_ascii_of_string map].
    change (N_of_ascii " ") with 32%N. change (N_of_ascii "x") with 120%N.
    change (N_of_ascii "X") with 88%N.
    rewrite !orb_true_iff, !N.eqb_eq. split.
    - intros [H | [H | [H | H]]]; auto. discriminate.
    - intros [H | [H | H]]; auto. }
  rewrite <- Hset. unfold IndicatorRenderer.hasTask, exec.
  rewrite searchFrom_unfold.
  pose proof (run_indicator_line marker body
                (fun pre' rest' c' =>
                   Some (mkMatch (length (@nil N))
                           (firstn (length (taskLine marker body)
                                    - length rest')
                              (taskLine marker body)) c' pre' rest')))
    as Hrun.
  destruct (run IndicatorRenderer.taskRegex [] (taskLine marker body) [] _)
    as [m|] eqn:E.
  - split; [|reflexivity]. intros _.
    destruct (existsb (N.eqb marker) (lit " xX")); [reflexivity|].
    assert (Hn : Some m = None); [|discriminate].
    apply Hrun; [discriminate | reflexivity].
  - assert (Hf : existsb (N.eqb marker) (lit " xX") = false)
      by (apply Hrun; [discriminate | reflexivity]).
    rewrite Hf. unfold taskLine.
    change (lit "- [") with [45%N; 32%N; 91%N].
    change (lit "] ") with [93%N; 32%N]. cbn [app].
    unfold IndicatorRenderer.taskRegex.
    change (cat (LineStart :: ?l)) with (Seq LineStart (cat l)).
    rewrite searchFrom_line_start; [split; discriminate | reflexivity |].
    cbn [forallb]. unfold notLineTerminator at 1 2 3 4 5.
    rewrite Hm, Hb. reflexivity.
Qed.

Lemma hasTask_markers_witness :
  IndicatorRenderer.hasTask (taskLine 47 (lit "pay rent")) = true
  <-> 47%N = 32%N \/ 47%N = 120%N \/ 47%N = 88%N.
Proof.
  apply (hasTask_markers 47 (lit "pay rent")); reflexivity.
Defined.

(** ** A new task under its heading *)

Lemma lazyStar_now {A : Type} (a : regex) (n : nat) (pre rest : jsstring)
  (c : captures) (k : jsstring -> jsstring -> captures -> option A)
  (x : A) :
  k pre rest c = Some x ->
  TaskInsertion.lazyStar a n pre rest c k = Some x.
Proof.
  intros H. destruct n; cbn [TaskInsertion.lazyStar]; rewrite H;
    reflexivity.
Qed.

(** What a lazy run of characters hands on: some of the input read,
    the captures as they were. *)
Lemma lazyStar_reads {A : Type} (p : N -> bool) (n : nat) :
  forall (pre rest : jsstring) (c : captures)
         (k : jsstring -> jsstring -> captures -> option A) (x : A),
    TaskInsertion.lazyStar (Chr p) n pre rest c k = Some x ->
    exists g rest',
      rest = g ++ rest' /\ k (rev g ++ pre) rest' c = Some x.
Proof.
  induction n as [|n IH]; intros pre rest c k x H;
    cbn [TaskInsertion.lazyStar] in H;
    destruct (k pre rest c) as [y|] eqn:E.
  - exists [], rest. cbn [rev app]. split; [reflexivity | congruence].
  - discriminate.
  - exists [], rest. cbn [rev app]. split; [reflexivity | congruence].
  - destruct rest as [|w rest]; cbn [run] in H; [discriminate|].
    destruct (p w); [|discriminate].
    destruct (length rest <? length (w :: rest))%nat; [|discriminate].
    destruct (IH _ _ _ _ _ H) as [g [rest' [Hr Hk]]].
    exists (w :: g), rest'. split.
    + rewrite Hr. reflexivity.
    + cbn [rev]. rewrite <- app_assoc. exact Hk.
Qed.

(** The lookahead of the section pattern captures nothing. *)
Lemma run_section_end (pre rest : jsstring) (c : captures) :
  run (Alt (Seq LineStart (chr "#")) LineEnd) pre rest c
    (fun _ _ c' => Some c')
  = Some c
  \/ run (Alt (Seq LineStart (chr "#")) LineEnd) pre rest c
       (fun _ _ c' => Some c')
     = None.
Proof.
  unfold chr. cbn [run].
  destruct pre as [|u pre]; destruct rest as [|w rest];
    repeat match goal with
           | |- context [if ?b then _ else _] => destruct b
           end;
    auto.
Qed.

Lemma lookahead_section {A : Type} (pre rest : jsstring) (c : captures)
  (k : jsstring -> jsstring -> captures -> option A) (x : A) :
  TaskInsertion.lookahead (Alt (Seq LineStart (chr "#")) LineEnd)
    pre rest c k
  = Some x ->
  k pre rest c = Some x.
Proof.
  unfold TaskInsertion.lookahead.
  destruct (run_section_end pre rest c) as [E|E]; rewrite E;
    [trivial | discriminate].
Qed.

Lemma lookahead_line_end {A : Type} (pre rest : jsstring) (c : captures)
  (k : jsstring -> jsstring -> captures -> option A) :
  match rest with
  | [] => True
  | w :: _ => isLineTerminator w = true
  end ->
  TaskInsertion.lookahead (Alt (Seq LineStart (chr "#")) LineEnd)
    pre rest c k
  = k pre rest c.
Proof.
  intros H. unfold TaskInsertion.lookahead, chr. cbn [run].
  destruct rest as [|w rest].
  - destruct pre as [|u pre]; [reflexivity|].
    destruct (isLineTerminator u); reflexivity.
  - rewrite H.
    destruct pre as [|u pre];
      repeat match goal with
             | |- context [if ?b then _ else _] => destruct b
             end;
      reflexivity.
Qed.

Lemma runSection_literal {A : Type} (h pre rest : jsstring)
  (k : jsstring -> jsstring -> captures -> option A) :
  TaskInsertion.runSection (cat (map unit h)) pre rest k
  = if startsWith rest h
    then TaskInsertion.lazyStar (oneOf "sS")
           (length (skipn (length h) rest)) (rev h ++ pre)
           (skipn (length h) rest)
           [(1%nat,
             firstn (length rest - length (skipn (length h) rest)) rest)]
           (fun pre2 rest2 c2 =>
              TaskInsertion.lookahead
                (Alt (Seq LineStart (chr "#")) LineEnd) pre2 rest2
                ((2%nat,
                  firstn (length (skipn (length h) rest) - length rest2)
                    (skipn (length h) rest)) :: c2)
                k)
    else None.
Proof.
  unfold TaskInsertion.runSection. rewrite run_Capture, run_literal.
  destruct (startsWith rest h); reflexivity.
Qed.

(** A match of the section pattern at a position: the heading, then
    what the lazy group has read. *)
Lemma runSection_found (h pre rest : jsstring) (m : MatchResult) :
  TaskInsertion.runSection (cat (map unit h)) pre rest
    (fun pre' rest' c' =>
       Some (mkMatch (length pre)
               (firstn (length rest - length rest') rest) c' pre' rest'))
  = Some m ->
  exists g post,
    rest = h ++ g ++ post
    /\ matchIndex m = length pre
    /\ matchText m = h ++ g
    /\ matchGroups m = [(2%nat, g); (1%nat, h)].
Proof.
  rewrite runSection_literal.
  destruct (startsWith rest h) eqn:E; [|discriminate].
  apply startsWith_spec in E. destruct E as [r1 ->].
  rewrite skipn_prefix, firstn_prefix. intros H.
  apply lazyStar_reads in H. destruct H as [g [post [-> H]]].
  apply lookahead_section in H. exists g, post.
  injection H as <-. cbn [matchIndex matchText matchGroups].
  rewrite firstn_prefix.
  replace (h ++ g ++ post) with ((h ++ g) ++ post)
    by (symmetry; apply app_assoc).
  rewrite firstn_prefix. auto.
Qed.

(** The heading on a line of its own is matched with an empty group. *)
Lemma runSection_heading_line (h pre after : jsstring) :
  match after with
  | [] => True
  | w :: _ => isLineTerminator w = true
  end ->
  TaskInsertion.runSection (cat (map unit h)) pre (h ++ after)
    (fun pre' rest' c' =>
       Some (mkMatch (length pre)
               (firstn (length (h ++ after) - length rest') (h ++ after))
               c' pre' rest'))
  = Some (mkMatch (length pre) h [(2%nat, []); (1%nat, h)]
            (rev h ++ pre) after).
Proof.
  intros H. rewrite runSection_literal.
  assert (E : startsWith (h ++ after) h = true)
    by (apply startsWith_spec; exists after; reflexivity).
  rewrite E, skipn_prefix, firstn_prefix.
  apply lazyStar_now. rewrite (lookahead_line_end _ _ _ _ H).
  rewrite firstn_prefix, Nat.sub_diag. reflexivity.
Qed.

Lemma searchSection_found (h : jsstring) :
  forall (rest pre : jsstring) (m : MatchResult),
    TaskInsertion.searchSection (cat (map unit h)) pre rest = Some m ->
    exists skipped g post,
      rest = skipped ++ h ++ g ++ post
      /\ matchIndex m = (length pre + length skipped)%nat
      /\ matchText m = h ++ g
      /\ matchGroups m = [(2%nat, g); (1%nat, h)].
Proof.
  induction rest as [|y rest IH]; intros pre m H;
    cbn [TaskInsertion.searchSection] in H.
  - destruct (TaskInsertion.runSection _ _ _ _) as [m'|] eqn:E;
      [|discriminate].
    injection H as ->. apply runSection_found in E.
    destruct E as [g [post [Hr [Hi [Ht Hg]]]]].
    exists [], g, post. cbn [app length]. rewrite Nat.add_0_r. auto.
  - destruct (TaskInsertion.runSection _ _ _ _) as [m'|] eqn:E.
    + injection H as ->. apply runSection_found in E.
      destruct E as [g [post [Hr [Hi [Ht Hg]]]]].
      exists [], g, post. cbn [app length]. rewrite Nat.add_0_r. auto.
    + apply IH in H. destruct H as [skipped [g [post [Hr [Hi [Ht Hg]]]]]].
      exists (y :: skipped), g, post. cbn [app length].
      repeat split; [rewrite Hr; reflexivity | | exact Ht | exact Hg].
      rewrite Hi. cbn [length]. lia.
Qed.

(** The search passes over the text before the first occurrence of
    the heading. *)
Lemma searchSection_skips (h rest0 : jsstring) :
  forall (before pre : jsstring),
    (forall b1 y b2, before = b1 ++ y :: b2 ->
                     startsWith (y :: b2 ++ rest0) h = false) ->
    TaskInsertion.searchSection (cat (map unit h)) pre (before ++ rest0)
    = TaskInsertion.searchSection (cat (map unit h))
        (rev before ++ pre) rest0.
Proof.
  induction before as [|y before IH]; intros pre H; [reflexivity|].
  cbn [app TaskInsertion.searchSection].
  rewrite runSection_literal, (H [] y before eq_refl).
  rewrite IH.
  - cbn [rev]. rewrite <- app_assoc. reflexivity.
  - intros b1 z b2 E. apply (H (y :: b1) z b2). rewrite E. reflexivity.
Qed.

Lemma firstOccurrence_skips (h content before after : jsstring) :
  firstOccurrence h content before after ->
  forall b1 y b2, before = b1 ++ y :: b2 ->
                  startsWith (y :: b2 ++ h ++ after) h = false.
Proof.
  intros [Hc Hmin] b1 y b2 E.
  destruct (startsWith (y :: b2 ++ h ++ after) h) eqn:S; [|reflexivity].
  apply startsWith_spec in S. destruct S as [post S].
  assert (Hc' : content = b1 ++ h ++ post).
  { rewrite Hc, E, <- app_assoc. cbn [app]. rewrite S. reflexivity. }
  apply Hmin in Hc'. rewrite E, length_app in Hc'. cbn [length] in Hc'.
  lia.
Qed.

Lemma searchSection_heading_line (h content before after : jsstring) :
  firstOccurrence h content before after ->
  match after with
  | [] => True
  | w :: _ => isLineTerminator w = true
  end ->
  TaskInsertion.searchSection (cat (map unit h)) [] content
  = Some (mkMatch (length before) h [(2%nat, []); (1%nat, h)]
            (rev h ++ rev before ++ []) after).
Proof.
  intros Hf Ha. pose proof (firstOccurrence_skips _ _ _ _ Hf) as Hs.
  destruct Hf as [-> _].
  rewrite (searchSection_skips h (h ++ after) before [] Hs).
  assert (E : forall pre,
            TaskInsertion.searchSection (cat (map unit h)) pre (h ++ after)
            = Some (mkMatch (length pre) h [(2%nat, []); (1%nat, h)]
                      (rev h ++ pre) after)).
  { intros pre.
    pose proof (runSection_heading_line h pre after Ha) as R.
    destruct (h ++ after) as [|y r] eqn:Er;
      cbn [TaskInsertion.searchSection]; rewrite R; reflexivity. }
  rewrite E, length_app, length_rev. cbn [length]. rewrite Nat.add_0_r.
  reflexivity.
Qed.

Lemma firstn_length_prefix (p q : jsstring) :
  firstn (length p) (p ++ q) = p.
Proof.
  rewrite firstn_app, Nat.sub_diag, firstn_all. apply app_nil_r.
Qed.

Lemma headerPattern_literal (h : jsstring) :
  forallb (fun x => negb (isRegExpSpecial x)) h = true ->
  TaskInsertion.headerPattern h = Some (cat (map unit h)).
Proof.
  intros H. unfold TaskInsertion.headerPattern. rewrite H. reflexivity.
Qed.

(** X27.  When the heading stands at the end of its line, the new task
    goes on the line right below it, above the tasks that the section
    already has, for the position [last] as for [first]. *)
Theorem insertTask_under_heading
  (content before insertSection after fullTaskText : jsstring)
  (insertPosition : TaskInsertion.InsertPosition) :
  forallb (fun x => negb (isRegExpSpecial x)) insertSection = true ->
  firstOccurrence insertSection content before after ->
  match after with
  | [] => True
  | w :: _ => isLineTerminator w = true
  end ->
  TaskInsertion.insertTask content insertSection insertPosition fullTaskText
  = Some (before ++ insertSection ++ NL ++ fullTaskText ++ after).
Proof.
  intros Hl Hf Ha. unfold TaskInsertion.insertTask.
  rewrite (headerPattern_literal _ Hl).
  rewrite (searchSection_heading_line _ _ _ _ Hf Ha).
  cbn [matchGroups matchIndex matchText capture Nat.eqb].
  destruct Hf as [-> _].
  replace (before ++ insertSection ++ after)
    with ((before ++ insertSection) ++ after)
    by (symmetry; apply app_assoc).
  rewrite <- length_app, skipn_prefix.
  rewrite firstn_length_prefix. unfold NL.
  destruct insertPosition; cbn [app]; rewrite <- app_assoc; reflexivity.
Qed.

Lemma insertTask_under_heading_witness :
  TaskInsertion.insertTask
    (lit "# Note" ++ NL ++ lit "## Tasks" ++ NL ++ lit "- [ ] water plants")
    (lit "## Tasks") TaskInsertion.last (lit "- [ ] pay rent")
  = Some (lit "# Note" ++ NL ++ lit "## Tasks" ++ NL ++ lit "- [ ] pay rent"
          ++ NL ++ lit "- [ ] water plants").
Proof.
  apply (insertTask_under_heading
           (lit "# Note" ++ NL ++ lit "## Tasks" ++ NL
            ++ lit "- [ ] water plants")
           (lit "# Note" ++ NL) (lit "## Tasks")
           (NL ++ lit "- [ ] water plants") (lit "- [ ] pay rent")
           TaskInsertion.last).
  - reflexivity.
  - split; [reflexivity|].
    intros pre' post' H.
    destruct pre' as [|a0 [|a1 [|a2 [|a3 [|a4 [|a5 [|a6 pre']]]]]]];
      try (vm_compute in H; discriminate H).
    vm_compute. repeat apply le_n_S. apply Nat.le_0_l.
  - reflexivity.
Defined.

(** X28.  [createTaskInNote] never loses text of the note: the new
    content is the old one with a new line holding the task put in after
    an occurrence of the heading, or with the heading and the task added
    at the end. *)
Theorem insertTask_keeps_the_note
  (content insertSection fullTaskText : jsstring)
  (insertPosition : TaskInsertion.InsertPosition) :
  forallb (fun x => negb (isRegExpSpecial x)) insertSection = true ->
  exists above below,
    content = above ++ below
    /\ (TaskInsertion.insertTask content insertSection insertPosition
          fullTaskText
        = Some (above ++ NL ++ fullTaskText ++ below)
        /\ contains above insertSection
        \/
        TaskInsertion.insertTask content insertSection insertPosition
          fullTaskText
        = Some (above ++ NL ++ NL ++ insertSection ++ NL ++ fullTaskText)
        /\ below = []).
Proof.
  intros Hl. unfold TaskInsertion.insertTask.
  rewrite (headerPattern_literal _ Hl).
  destruct (TaskInsertion.searchSection _ _ _) as [m|] eqn:E.
  - apply searchSection_found in E.
    destruct E as [skipped [g [post [Hr [Hi [Ht Hg]]]]]].
    rewrite Hg, Hi, Ht. cbn [capture Nat.eqb length Nat.add].
    rewrite <- !length_app.
    assert (Hc1 : content = (skipped ++ insertSection) ++ g ++ post)
      by (rewrite Hr, <- app_assoc; reflexivity).
    assert (Hc2 : content = (skipped ++ insertSection ++ g) ++ post)
      by (rewrite Hr, <- !app_assoc; reflexivity).
    destruct insertPosition.
    + exists (skipped ++ insertSection), (g ++ post).
      split; [exact Hc1|]. left. split.
      * rewrite Hc1 at 1. rewrite firstn_length_prefix.
        rewrite Hc2, skipn_prefix. unfold NL.
        rewrite <- !app_assoc. reflexivity.
      * exists skipped, []. rewrite app_nil_r. reflexivity.
    + exists (skipped ++ insertSection ++ g), post.
      split; [exact Hc2|]. left. split.
      * rewrite Hc2 at 1 2. rewrite firstn_length_prefix, skipn_prefix.
        reflexivity.
      * exists skipped, g. reflexivity.
  - exists content, []. split; [symmetry; apply app_nil_r|].
    right. split; reflexivity.
Qed.

Lemma insertTask_keeps_the_note_witness :
  exists above below,
    lit "## Tasks" ++ lit "SS" ++ NL ++ lit "- [ ] water plants"
    = above ++ below
    /\ (TaskInsertion.insertTask
          (lit "## Tasks" ++ lit "SS" ++ NL ++ lit "- [ ] water plants")
          (lit "## Tasks") TaskInsertion.last (lit "- [ ] pay rent")
        = Some (above ++ NL ++ lit "- [ ] pay rent" ++ below)
        /\ contains above (lit "## Tasks")
        \/
        TaskInsertion.insertTask
          (lit "## Tasks" ++ lit "SS" ++ NL ++ lit "- [ ] water plants")
          (lit "## Tasks") TaskInsertion.last (lit "- [ ] pay rent")
        = Some (above ++ NL ++ NL ++ lit "## Tasks" ++ NL
                ++ lit "- [ ] pay rent")
        /\ below = []).
Proof.
  apply (insertTask_keeps_the_note
           (lit "## Tasks" ++ lit "SS" ++ NL ++ lit "- [ ] water plants")
           (lit "## Tasks") (lit "- [ ] pay rent") TaskInsertion.last).
  reflexivity.
Defined.

Lemma searchSection_absent (h content : jsstring) :
  ~ contains content h ->
  TaskInsertion.searchSection (cat (map unit h)) [] content = None.
Proof.
  intros Hn.
  destruct (TaskInsertion.searchSection _ _ _) as [m|] eqn:E;
    [|reflexivity].
  apply searchSection_found in E.
  destruct E as [skipped [g [post [Hr _]]]].
  exfalso. apply Hn. exists skipped, (g ++ post). exact Hr.
Qed.

(** X29.  A note in which the heading does not occur gets an empty line,
    the heading and the task at its end. *)
Theorem insertTask_without_heading
  (content insertSection fullTaskText : jsstring)
  (insertPosition : TaskInsertion.InsertPosition) :
  forallb (fun x => negb (isRegExpSpecial x)) insertSection = true ->
  ~ contains content insertSection ->
  TaskInsertion.insertTask content insertSection insertPosition fullTaskText
  = Some (content ++ NL ++ NL ++ insertSection ++ NL ++ fullTaskText).
Proof.
  intros Hl Hn. unfold TaskInsertion.insertTask.
  rewrite (headerPattern_literal _ Hl), (searchSection_absent _ _ Hn).
  reflexivity.
Qed.

Lemma insertTask_without_heading_witness :
  TaskInsertion.insertTask (lit "# Note") (lit "## Tasks")
    TaskInsertion.first (lit "- [ ] pay rent")
  = Some (lit "# Note" ++ NL ++ NL ++ lit "## Tasks" ++ NL
          ++ lit "- [ ] pay rent").
Proof.
  apply (insertTask_without_heading (lit "# Note") (lit "## Tasks")
           (lit "- [ ] pay rent") TaskInsertion.first).
  - reflexivity.
  - intros [pre [post H]].
    apply (f_equal (@length N)) in H.
    rewrite !length_app in H.
    change (length (lit "# Note")) with 6%nat in H.
    change (length (lit "## Tasks")) with 8%nat in H. lia.
Defined.

(* ================================================================== *)
(** * Further properties of the calendar *)
(* ================================================================== *)

Local Open Scope Z_scope.

Lemma month_cases (m : Z) :
  0 <= m <= 11 ->
  m = 0 \/ m = 1 \/ m = 2 \/ m = 3 \/ m = 4 \/ m = 5 \/ m = 6 \/ m = 7
  \/ m = 8 \/ m = 9 \/ m = 10 \/ m = 11.
Proof. lia. Qed.

Ltac each_month H m :=
  apply month_cases in H;
  repeat (destruct H as [H | H]; [subst m|]); [..|subst m].

Lemma MakeDay_month (y m d : Z) :
  0 <= m <= 11 ->
  MakeDay y m d = DayFromYear y + monthStart (isLeap y) m + d - 1.
Proof.
  intros H. unfold MakeDay.
  rewrite Z.div_small, Z.mod_small, Z.add_0_r by lia. reflexivity.
Qed.

Lemma monthLength_monthStart (leap : bool) (m : Z) :
  0 <= m <= 11 ->
  monthStart leap (m + 1) = monthStart leap m + monthLength leap m.
Proof.
  intros H. each_month H m; destruct leap; reflexivity.
Qed.

Lemma monthLength_range (leap : bool) (m : Z) :
  0 <= m <= 11 -> 28 <= monthLength leap m <= 31.
Proof.
  intros H. each_month H m; destruct leap; vm_compute; split; discriminate.
Qed.

Lemma civil_of_MakeDay (y m d : Z) :
  0 <= m <= 11 -> 1 <= d <= monthLength (isLeap y) m ->
  YearFromDay (MakeDay y m d) = y
  /\ MonthFromDay (MakeDay y m d) = m
  /\ DateFromDay (MakeDay y m d) = d.
Proof.
  intros Hm Hd. rewrite MakeDay_month by exact Hm.
  set (D := DayFromYear y + monthStart (isLeap y) m + d - 1).
  assert (Hy : YearFromDay D = y).
  { apply YearFromDay_unique. rewrite DayFromYear_succ. unfold D.
    revert Hd. each_month Hm m; destruct (isLeap y);
      unfold monthLength; cbn [monthStart Z.add]; simpl; lia. }
  assert (Hmo : MonthFromDay D = m).
  { unfold MonthFromDay. rewrite Hy. unfold D. revert Hd.
    each_month Hm m; destruct (isLeap y);
      unfold monthLength; simpl; intros Hd; split_ifs; bool_to_prop; lia. }
  split; [exact Hy|]. split; [exact Hmo|].
  unfold DateFromDay. rewrite Hmo, Hy. unfold D. lia.
Qed.

Lemma civil_of_day (D : Z) :
  let y := YearFromDay D in
  let m := MonthFromDay D in
  let d := DateFromDay D in
  0 <= m <= 11 /\ 1 <= d <= monthLength (isLeap y) m /\ MakeDay y m d = D.
Proof.
  intros y m d.
  pose proof (MonthFromDay_range D) as Hm. fold m in Hm.
  split; [exact Hm|].
  assert (Hd : 1 <= d <= monthLength (isLeap y) m).
  { pose proof (YearFromDay_spec D) as Hs. fold y in Hs.
    rewrite DayFromYear_succ in Hs.
    unfold d, DateFromDay, m, MonthFromDay. fold y.
    destruct (isLeap y); unfold monthLength; simpl in *;
      split_ifs; bool_to_prop; simpl; lia. }
  split; [exact Hd|].
  rewrite MakeDay_month by exact Hm. unfold d, DateFromDay. fold y m. lia.
Qed.

(** ** Setters *)

Lemma msPerDay_pos : 0 < msPerDay.
Proof. reflexivity. Qed.

Lemma Day_of_parts (a r : Z) : 0 <= r < msPerDay -> Day (a * msPerDay + r) = a.
Proof.
  intros H. unfold Day. rewrite Z.add_comm, Z.div_add by (unfold msPerDay; lia).
  rewrite Z.div_small by exact H. reflexivity.
Qed.

Lemma TimeWithinDay_range (t : Z) : 0 <= TimeWithinDay t < msPerDay.
Proof. unfold TimeWithinDay. apply Z.mod_pos_bound. reflexivity. Qed.

Lemma time_decompose (t : Z) : t = Day t * msPerDay + TimeWithinDay t.
Proof.
  unfold Day, TimeWithinDay. pose proof (Z.div_mod t msPerDay). unfold msPerDay in *. lia.
Qed.

Lemma MakeDay_date_shift (y m d k : Z) : MakeDay y m (d + k) = MakeDay y m d + k.
Proof. unfold MakeDay. ring. Qed.

(** Setting the day of the month to the current one plus [k] moves the
    Date by [k] days. *)
Lemma setDate_shift (tza t k : Z) :
  setDate tza t (getDate tza t + k) = t + k * msPerDay.
Proof.
  unfold setDate, getDate, UTC.
  set (lt := LocalTime tza t).
  rewrite MakeDay_date_shift.
  destruct (civil_of_day (Day lt)) as [_ [_ H]]. cbv zeta in H. rewrite H.
  pose proof (time_decompose lt) as Hl. unfold lt, LocalTime in *. lia.
Qed.

Lemma getDay_shift (tza t k : Z) :
  getDay tza (t + k * msPerDay) = (getDay tza t + k) mod 7.
Proof.
  unfold getDay, LocalTime, Day, WeekDayOfDay.
  replace (t + k * msPerDay + tza) with (t + tza + k * msPerDay) by ring.
  rewrite Z.div_add by (unfold msPerDay; lia).
  rewrite Zplus_mod_idemp_l. f_equal. ring.
Qed.

Lemma getDay_range (tza t : Z) : 0 <= getDay tza t <= 6.
Proof. unfold getDay. apply WeekDayOfDay_range. Qed.

(** X9.  [getWeekDates] returns the seven days of the week of [date],
    Monday first and Sunday last, each at the time of day of [date]: day
    [i] of the list is [date] moved by [i - k] whole days, where [k] is
    the number of days from the Monday to [date], and [date] itself is
    entry [k]. *)
Theorem getWeekDates_week (tza date : Z) :
  let k := (getDay tza date + 6) mod 7 in
  getWeekDates tza date
  = map (fun i => date + (Z.of_nat i - k) * msPerDay) (seq 0 7)
  /\ nth_error (getWeekDates tza date) (Z.to_nat k) = Some date
  /\ map (getDay tza) (getWeekDates tza date) = [1; 2; 3; 4; 5; 6; 0].
Proof.
  intros k.
  pose proof (getDay_range tza date) as Hr.
  assert (Hk : (if getDay tza date =? 0 then 6 else getDay tza date - 1) = k).
  { unfold k. destruct (getDay tza date =? 0) eqn:E; bool_to_prop.
    - rewrite E. reflexivity.
    - Z.div_mod_to_equations. lia. }
  assert (Hk' : 0 <= k <= 6) by (unfold k; Z.div_mod_to_equations; lia).
  assert (Hlist : getWeekDates tza date
                  = map (fun i => date + (Z.of_nat i - k) * msPerDay) (seq 0 7)).
  { unfold getWeekDates. rewrite Hk.
    replace (getDate tza date - k) with (getDate tza date + - k) by ring.
    rewrite setDate_shift. apply map_ext. intros i.
    rewrite setDate_shift. ring. }
  split; [exact Hlist|]. split.
  - rewrite Hlist, nth_error_map.
    rewrite nth_error_seq by lia.
    destruct (Z.to_nat k <? 7)%nat eqn:E;
      [|apply Nat.ltb_ge in E; lia].
    cbn [option_map Nat.add]. f_equal. rewrite Z2Nat.id by lia. ring.
  - rewrite Hlist, map_map. cbn [seq map].
    rewrite !getDay_shift.
    assert (Hd : forall i, 0 <= i <= 6 ->
               (getDay tza date + (i - k)) mod 7 = (1 + i) mod 7).
    { intros i Hi. unfold k. Z.div_mod_to_equations. lia. }
    rewrite !Hd by (cbn; lia). reflexivity.
Qed.

Lemma LocalTime_UTC (tza x : Z) : LocalTime tza (UTC tza x) = x.
Proof. unfold LocalTime, UTC. ring. Qed.

Lemma MakeDay_carry (y m d : Z) :
  MakeDay y m d = MakeDay (y + m / 12) (m mod 12) d.
Proof.
  unfold MakeDay. cbv zeta.
  rewrite Zmod_mod, (Z.div_small (m mod 12)), Z.add_0_r
    by (apply Z.mod_pos_bound; lia).
  reflexivity.
Qed.

Lemma civil_of_MakeDay_carry (y m d : Z) :
  1 <= d <= monthLength (isLeap (y + m / 12)) (m mod 12) ->
  YearFromDay (MakeDay y m d) = y + m / 12
  /\ MonthFromDay (MakeDay y m d) = m mod 12
  /\ DateFromDay (MakeDay y m d) = d.
Proof.
  intros H. rewrite MakeDay_carry. apply civil_of_MakeDay; [|exact H].
  pose proof (Z.mod_pos_bound m 12). lia.
Qed.

Lemma civil_fields (tza t : Z) :
  0 <= getMonth tza t <= 11
  /\ 1 <= getDate tza t
          <= monthLength (isLeap (getFullYear tza t)) (getMonth tza t)
  /\ MakeDay (getFullYear tza t) (getMonth tza t) (getDate tza t)
     = Day (LocalTime tza t).
Proof. apply civil_of_day. Qed.

Lemma MakeDay_last_day (y m : Z) :
  0 <= m <= 11 ->
  MakeDay y (m + 1) 0 = MakeDay y m (monthLength (isLeap y) m).
Proof.
  intros H. rewrite (MakeDay_month y m) by exact H.
  destruct (Z.eq_dec m 11) as [-> | Hne].
  - unfold MakeDay. cbn [Z.add Z.div Z.modulo]. simpl.
    rewrite DayFromYear_succ. destruct (isLeap y); simpl; lia.
  - rewrite MakeDay_month by lia.
    rewrite monthLength_monthStart by exact H. lia.
Qed.

Lemma getDaysInMonth_fullYear (tza date : Z) :
  getDaysInMonth tza date
  = monthLength (isLeap (fullYearOf (getFullYear tza date)))
      (getMonth tza date).
Proof.
  rewrite getDaysInMonth_eq.
  destruct (civil_fields tza date) as [Hm _].
  rewrite MakeDay_last_day by exact Hm.
  apply civil_of_MakeDay; [exact Hm|].
  pose proof (monthLength_range
                (isLeap (fullYearOf (getFullYear tza date))) _ Hm). lia.
Qed.

(** X10.  [getDaysInMonth], which reads the day of the month off day 0
    of the next month, is the length of the month of [date]: 31, 30, or
    for February 28 and in a leap year 29. *)
Theorem getDaysInMonth_is_month_length (tza date : Z) :
  99 < getFullYear tza date ->
  getDaysInMonth tza date
  = monthLength (isLeap (getFullYear tza date)) (getMonth tza date).
Proof.
  intros Hy. rewrite getDaysInMonth_fullYear, fullYearOf_id by exact Hy.
  reflexivity.
Qed.

Lemma getDaysInMonth_is_month_length_witness :
  getDaysInMonth 28800000 1707494400000
  = monthLength (isLeap (getFullYear 28800000 1707494400000))
      (getMonth 28800000 1707494400000).
Proof.
  apply (getDaysInMonth_is_month_length 28800000 1707494400000).
  vm_compute. reflexivity.
Defined.

Lemma TimeWithinDay_of_parts (a r : Z) :
  0 <= r < msPerDay -> TimeWithinDay (a * msPerDay + r) = r.
Proof.
  intros H. unfold TimeWithinDay.
  rewrite Z.add_comm, Z.mod_add by (unfold msPerDay; lia).
  apply Z.mod_small. exact H.
Qed.

(** The local day and the time within it of a Date put together from a
    day number and the time of day of [t]. *)
Lemma local_of_parts (tza t a : Z) :
  let r := UTC tza (a * msPerDay + TimeWithinDay (LocalTime tza t)) in
  Day (LocalTime tza r) = a
  /\ TimeWithinDay (LocalTime tza r) = TimeWithinDay (LocalTime tza t).
Proof.
  cbv zeta. rewrite LocalTime_UTC.
  pose proof (TimeWithinDay_range (LocalTime tza t)) as H.
  split; [apply Day_of_parts | apply TimeWithinDay_of_parts]; exact H.
Qed.

Lemma local_same (tza t r : Z) :
  Day (LocalTime tza r) = Day (LocalTime tza t) ->
  TimeWithinDay (LocalTime tza r) = TimeWithinDay (LocalTime tza t) ->
  r = t.
Proof.
  intros Hd Ht.
  pose proof (time_decompose (LocalTime tza r)) as H1.
  pose proof (time_decompose (LocalTime tza t)) as H2.
  rewrite Hd, Ht in H1. unfold LocalTime in *. lia.
Qed.

(** A date built from year [y], month [m] (any integer) and a day
    [d] that the month has. *)
Lemma fields_of_MakeDay (tza r y m d : Z) :
  Day (LocalTime tza r) = MakeDay y m d ->
  1 <= d <= 28 ->
  12 * getFullYear tza r + getMonth tza r = 12 * y + m
  /\ getDate tza r = d.
Proof.
  intros Hr Hd. unfold getFullYear, getMonth, getDate. rewrite Hr.
  assert (Hl : 1 <= d <= monthLength (isLeap (y + m / 12)) (m mod 12)).
  { pose proof (monthLength_range (isLeap (y + m / 12)) (m mod 12)) as H.
    pose proof (Z.mod_pos_bound m 12). lia. }
  destruct (civil_of_MakeDay_carry y m d Hl) as [-> [-> ->]].
  split; [|reflexivity]. Z.div_mod_to_equations. lia.
Qed.

Lemma handleNavigationClick_day (tza : Z) (direction : EventHandler.Direction)
  (unit : EventHandler.NavigationUnit) (t : Z) :
  let r := EventHandler.handleNavigationClick tza direction unit t in
  exists y m,
    12 * y + m = monthIndex tza t + navigationStep direction unit
    /\ Day (LocalTime tza r) = MakeDay y m (getDate tza t)
    /\ TimeWithinDay (LocalTime tza r) = TimeWithinDay (LocalTime tza t).
Proof.
  unfold EventHandler.handleNavigationClick, monthIndex, navigationStep.
  destruct unit; cbv zeta.
  - exists (getFullYear tza t
            + match direction with
              | EventHandler.prev => -1 | EventHandler.next => 1
              end), (getMonth tza t).
    split; [destruct direction; lia|].
    apply (local_of_parts tza t).
  - exists (getFullYear tza t),
      (getMonth tza t
       + match direction with
         | EventHandler.prev => -1 | EventHandler.next => 1
         end).
    split; [destruct direction; lia|].
    apply (local_of_parts tza t).
  - exists (getFullYear tza t),
      (getMonth tza t
       + match direction with
         | EventHandler.prev => -3 | EventHandler.next => 3
         end).
    split; [destruct direction; lia|].
    apply (local_of_parts tza t).
Qed.

Lemma MakeDay_monthIndex (y m y' m' d : Z) :
  12 * y + m = 12 * y' + m' -> MakeDay y m d = MakeDay y' m' d.
Proof.
  intros H. rewrite (MakeDay_carry y m), (MakeDay_carry y' m').
  replace (y' + m' / 12) with (y + m / 12) by (Z.div_mod_to_equations; lia).
  replace (m' mod 12) with (m mod 12) by (Z.div_mod_to_equations; lia).
  reflexivity.
Qed.

(** X11.  On a date up to the 28th, [handleNavigationClick] moves by
    whole months and changes nothing else: the month count goes up or
    down by 1 for [month], 3 for [quarter] and 12 for [year], and the
    day of the month and the time of day stay as they are. *)
Theorem handleNavigationClick_moves (tza : Z)
  (direction : EventHandler.Direction) (unit : EventHandler.NavigationUnit)
  (t : Z) :
  getDate tza t <= 28 ->
  let r := EventHandler.handleNavigationClick tza direction unit t in
  monthIndex tza r = monthIndex tza t + navigationStep direction unit
  /\ getDate tza r = getDate tza t
  /\ TimeWithinDay (LocalTime tza r) = TimeWithinDay (LocalTime tza t).
Proof.
  intros Hd r.
  destruct (handleNavigationClick_day tza direction unit t)
    as [y [m [Hi [Hday Ht]]]].
  fold r in Hday, Ht.
  destruct (civil_fields tza t) as [_ [Hd1 _]].
  destruct (fields_of_MakeDay tza r y m (getDate tza t) Hday) as [H1 H2];
    [lia|].
  unfold monthIndex at 1. rewrite H1, Hi. auto.
Qed.

Lemma handleNavigationClick_moves_witness :
  let r := EventHandler.handleNavigationClick 28800000 EventHandler.next
             EventHandler.quarter 1700000000000 in
  monthIndex 28800000 r
  = monthIndex 28800000 1700000000000
    + navigationStep EventHandler.next EventHandler.quarter
  /\ getDate 28800000 r = getDate 28800000 1700000000000
  /\ TimeWithinDay (LocalTime 28800000 r)
     = TimeWithinDay (LocalTime 28800000 1700000000000).
Proof.
  apply (handleNavigationClick_moves 28800000 EventHandler.next
           EventHandler.quarter 1700000000000).
  vm_compute. discriminate.
Defined.

(** X12.  On a date up to the 28th, a step in one direction followed by
    the step back in the same unit returns the very same instant. *)
Theorem handleNavigationClick_back (tza : Z)
  (direction : EventHandler.Direction) (unit : EventHandler.NavigationUnit)
  (t : Z) :
  getDate tza t <= 28 ->
  EventHandler.handleNavigationClick tza (opposite direction) unit
    (EventHandler.handleNavigationClick tza direction unit t) = t.
Proof.
  intros Hd.
  set (r := EventHandler.handleNavigationClick tza direction unit t).
  destruct (handleNavigationClick_day tza direction unit t)
    as [y [m [Hi [Hday Ht]]]].
  fold r in Hday, Ht.
  destruct (civil_fields tza t) as [_ [Hd1 Hmk]].
  destruct (fields_of_MakeDay tza r y m (getDate tza t) Hday) as [H1 H2];
    [lia|].
  destruct (handleNavigationClick_day tza (opposite direction) unit r)
    as [y' [m' [Hi' [Hday' Ht']]]].
  apply (local_same tza).
  - rewrite Hday', H2, <- Hmk. apply MakeDay_monthIndex.
    unfold monthIndex in *. rewrite Hi', H1, Hi.
    destruct direction, unit; unfold navigationStep; simpl; lia.
  - rewrite Ht'. exact Ht.
Qed.

Lemma handleNavigationClick_back_witness :
  EventHandler.handleNavigationClick 28800000
    (opposite EventHandler.next) EventHandler.month
    (EventHandler.handleNavigationClick 28800000 EventHandler.next
       EventHandler.month 1700000000000)
  = 1700000000000.
Proof.
  apply (handleNavigationClick_back 28800000 EventHandler.next
           EventHandler.month 1700000000000).
  vm_compute. discriminate.
Defined.

Lemma MakeDay_overflow (y m d : Z) :
  0 <= m <= 11 ->
  MakeDay y m d = MakeDay y (m + 1) (d - monthLength (isLeap y) m).
Proof.
  intros H.
  replace (d - monthLength (isLeap y) m)
    with (0 + (d - monthLength (isLeap y) m)) by ring.
  rewrite MakeDay_date_shift, MakeDay_last_day by exact H.
  rewrite <- MakeDay_date_shift. f_equal. ring.
Qed.

(** X13.  When the month aimed at is too short for the day of the month
    (from the 31st into a month of 30 days, from the 29th to the 31st
    into a February, from 29 February into another year), the navigation
    lands in the month after the one aimed at, on the day that is left
    over. *)
Theorem handleNavigationClick_overflow (tza : Z)
  (direction : EventHandler.Direction) (unit : EventHandler.NavigationUnit)
  (t : Z) :
  let target := monthIndex tza t + navigationStep direction unit in
  let len := monthLength (isLeap (target / 12)) (target mod 12) in
  let r := EventHandler.handleNavigationClick tza direction unit t in
  len < getDate tza t ->
  monthIndex tza r = target + 1 /\ getDate tza r = getDate tza t - len.
Proof.
  intros target len r Hlen.
  destruct (handleNavigationClick_day tza direction unit t)
    as [y [m [Hi [Hday _]]]].
  fold r target in Hday, Hi.
  destruct (civil_fields tza t) as [Hm [Hd _]].
  pose proof (monthLength_range (isLeap (getFullYear tza t)) _ Hm) as Hr.
  assert (Ht : 0 <= target mod 12 <= 11)
    by (pose proof (Z.mod_pos_bound target 12); lia).
  pose proof (monthLength_range (isLeap (target / 12)) _ Ht) as Hr'.
  fold len in Hr'.
  rewrite (MakeDay_monthIndex y m (target / 12) (target mod 12)) in Hday
    by (Z.div_mod_to_equations; lia).
  rewrite MakeDay_overflow in Hday by exact Ht. fold len in Hday.
  destruct (fields_of_MakeDay tza r _ _ _ Hday) as [H1 H2]; [lia|].
  split; [|exact H2].
  unfold monthIndex at 1. rewrite H1. Z.div_mod_to_equations. lia.
Qed.

Lemma handleNavigationClick_overflow_witness :
  monthIndex 0 (EventHandler.handleNavigationClick 0 EventHandler.next
                  EventHandler.month 1706659200000)
  = monthIndex 0 1706659200000 + 1 + 1
  /\ getDate 0 (EventHandler.handleNavigationClick 0 EventHandler.next
                  EventHandler.month 1706659200000)
     = getDate 0 1706659200000 - 29.
Proof.
  apply (handleNavigationClick_overflow 0 EventHandler.next
           EventHandler.month 1706659200000).
  vm_compute. reflexivity.
Defined.

(** ** Shifts by a year, a month and to the ends of the quarter *)

Lemma monthLength_other_year (l l' : bool) (m : Z) :
  m <> 1 -> monthLength l m = monthLength l' m.
Proof.
  intros H. unfold monthLength.
  destruct m as [|p|p]; try reflexivity.
  destruct p; try reflexivity. contradiction.
Qed.

Lemma newDate_fields (tza y m d : Z) :
  99 < y -> 0 <= m <= 11 -> 1 <= d <= monthLength (isLeap y) m ->
  getFullYear tza (newDate tza y m d) = y
  /\ getMonth tza (newDate tza y m d) = m
  /\ getDate tza (newDate tza y m d) = d.
Proof.
  intros Hy Hm Hd.
  rewrite getFullYear_newDate, getMonth_newDate, getDate_newDate,
    fullYearOf_id by exact Hy.
  apply civil_of_MakeDay; assumption.
Qed.

Lemma newDate_own_fields (tza t : Z) :
  99 < getFullYear tza t ->
  newDate tza (getFullYear tza t) (getMonth tza t) (getDate tza t)
  = startOfDay tza t.
Proof.
  intros Hy. unfold newDate, startOfDay. rewrite fullYearOf_id by exact Hy.
  destruct (civil_fields tza t) as [_ [_ ->]].
  pose proof (time_decompose (LocalTime tza t)) as H.
  unfold UTC, LocalTime in *. lia.
Qed.

(** X14.  [getNextYearDate] and [getPrevYearDate] give the same day and
    month one year later and earlier, on every day but 29 February; they
    drop the time of day, so going there and back gives local midnight
    of the day of [date]. *)
Theorem year_shift_same_day (tza date : Z) :
  100 < getFullYear tza date ->
  ~ (getMonth tza date = 1 /\ getDate tza date = 29) ->
  let y := getFullYear tza date in
  let m := getMonth tza date in
  let d := getDate tza date in
  (getFullYear tza (getNextYearDate tza date),
      getMonth tza (getNextYearDate tza date),
      getDate tza (getNextYearDate tza date)) = (y + 1, m, d)
  /\ (getFullYear tza (getPrevYearDate tza date),
      getMonth tza (getPrevYearDate tza date),
      getDate tza (getPrevYearDate tza date)) = (y - 1, m, d)
  /\ getPrevYearDate tza (getNextYearDate tza date) = startOfDay tza date
  /\ getNextYearDate tza (getPrevYearDate tza date) = startOfDay tza date.
Proof.
  intros Hy Hleap y m d.
  destruct (civil_fields tza date) as [Hm [Hd _]]. fold y m d in Hm, Hd.
  assert (Hlen : forall l, d <= monthLength l m).
  { intros l. destruct (Z.eq_dec m 1) as [E | E].
    - rewrite E in *. assert (d <> 29) by (intros E'; apply Hleap; auto).
      destruct l, (isLeap y); simpl in *; lia.
    - rewrite (monthLength_other_year l (isLeap y)) by exact E. lia. }
  assert (Hn : getFullYear tza (getNextYearDate tza date) = y + 1
               /\ getMonth tza (getNextYearDate tza date) = m
               /\ getDate tza (getNextYearDate tza date) = d).
  { apply newDate_fields; [unfold y; lia | exact Hm |].
    split; [lia | apply Hlen]. }
  assert (Hp : getFullYear tza (getPrevYearDate tza date) = y - 1
               /\ getMonth tza (getPrevYearDate tza date) = m
               /\ getDate tza (getPrevYearDate tza date) = d).
  { apply newDate_fields; [unfold y; lia | exact Hm |].
    split; [lia | apply Hlen]. }
  destruct Hn as [Hn1 [Hn2 Hn3]]. destruct Hp as [Hp1 [Hp2 Hp3]].
  split; [rewrite Hn1, Hn2, Hn3; reflexivity|].
  split; [rewrite Hp1, Hp2, Hp3; reflexivity|].
  split.
  - unfold getPrevYearDate at 1. rewrite Hn1, Hn2, Hn3.
    replace (y + 1 - 1) with y by ring.
    apply newDate_own_fields. unfold y in *. lia.
  - unfold getNextYearDate at 1. rewrite Hp1, Hp2, Hp3.
    replace (y - 1 + 1) with y by ring.
    apply newDate_own_fields. unfold y in *. lia.
Qed.

Lemma year_shift_same_day_witness :
  (getFullYear 28800000 (getNextYearDate 28800000 1700000000000),
   getMonth 28800000 (getNextYearDate 28800000 1700000000000),
   getDate 28800000 (getNextYearDate 28800000 1700000000000))
  = (getFullYear 28800000 1700000000000 + 1,
     getMonth 28800000 1700000000000, getDate 28800000 1700000000000)
  /\ (getFullYear 28800000 (getPrevYearDate 28800000 1700000000000),
      getMonth 28800000 (getPrevYearDate 28800000 1700000000000),
      getDate 28800000 (getPrevYearDate 28800000 1700000000000))
     = (getFullYear 28800000 1700000000000 - 1,
        getMonth 28800000 1700000000000, getDate 28800000 1700000000000)
  /\ getPrevYearDate 28800000 (getNextYearDate 28800000 1700000000000)
     = startOfDay 28800000 1700000000000
  /\ getNextYearDate 28800000 (getPrevYearDate 28800000 1700000000000)
     = startOfDay 28800000 1700000000000.
Proof.
  apply (year_shift_same_day 28800000 1700000000000).
  - vm_compute. reflexivity.
  - vm_compute. intros [H _]. discriminate H.
Defined.

Lemma isLeap_neighbours (y : Z) :
  isLeap y = true -> isLeap (y + 1) = false /\ isLeap (y - 1) = false.
Proof.
  unfold isLeap. intros H.
  assert (H4 : y mod 4 = 0).
  { destruct (y mod 4 =? 0) eqn:E4; [bool_to_prop; exact E4|].
    cbn [andb orb] in H. bool_to_prop. Z.div_mod_to_equations. lia. }
  assert (Hn : forall z, z mod 4 <> 0 ->
               (z mod 4 =? 0) && negb (z mod 100 =? 0) || (z mod 400 =? 0)
               = false).
  { intros z Hz.
    destruct (z mod 4 =? 0) eqn:E4; [bool_to_prop; contradiction|].
    destruct (z mod 400 =? 0) eqn:E400; [|reflexivity].
    bool_to_prop. Z.div_mod_to_equations. lia. }
  split; apply Hn; Z.div_mod_to_equations; lia.
Qed.

(** X15.  From 29 February both [getNextYearDate] and [getPrevYearDate]
    give 1 March of the other year. *)
Theorem year_shift_leap_day (tza date : Z) :
  100 < getFullYear tza date ->
  getMonth tza date = 1 -> getDate tza date = 29 ->
  (getFullYear tza (getNextYearDate tza date),
   getMonth tza (getNextYearDate tza date),
   getDate tza (getNextYearDate tza date))
  = (getFullYear tza date + 1, 2, 1)
  /\ (getFullYear tza (getPrevYearDate tza date),
      getMonth tza (getPrevYearDate tza date),
      getDate tza (getPrevYearDate tza date))
     = (getFullYear tza date - 1, 2, 1).
Proof.
  intros Hy Hm Hd.
  destruct (civil_fields tza date) as [_ [Hr _]]. rewrite Hm, Hd in Hr.
  assert (Hl : isLeap (getFullYear tza date) = true).
  { destruct (isLeap (getFullYear tza date)); [reflexivity|].
    simpl in Hr. lia. }
  destruct (isLeap_neighbours _ Hl) as [Hn Hp].
  assert (H : forall y, 99 < y -> isLeap y = false ->
              (getFullYear tza (newDate tza y 1 29),
               getMonth tza (newDate tza y 1 29),
               getDate tza (newDate tza y 1 29)) = (y, 2, 1)).
  { intros y Hy' Hf.
    rewrite getFullYear_newDate, getMonth_newDate, getDate_newDate,
      fullYearOf_id by exact Hy'.
    rewrite (MakeDay_overflow y 1 29) by lia. rewrite Hf.
    change (1 + 1) with 2. change (29 - monthLength false 1) with 1.
    destruct (civil_of_MakeDay y 2 1) as [-> [-> ->]];
      [lia | simpl; lia | reflexivity]. }
  unfold getNextYearDate, getPrevYearDate. rewrite Hm, Hd.
  split; apply H; (lia || assumption).
Qed.

Lemma year_shift_leap_day_witness :
  (getFullYear 0 (getNextYearDate 0 1709208000000),
   getMonth 0 (getNextYearDate 0 1709208000000),
   getDate 0 (getNextYearDate 0 1709208000000))
  = (getFullYear 0 1709208000000 + 1, 2, 1)
  /\ (getFullYear 0 (getPrevYearDate 0 1709208000000),
      getMonth 0 (getPrevYearDate 0 1709208000000),
      getDate 0 (getPrevYearDate 0 1709208000000))
     = (getFullYear 0 1709208000000 - 1, 2, 1).
Proof.
  apply (year_shift_leap_day 0 1709208000000); vm_compute; reflexivity.
Defined.

(** X16.  [getNextMonthDate] and [getPrevMonthDate] on a date up to the
    28th: inside a year they give the same day of the neighbouring
    month; from December [getNextMonthDate] gives January two years
    later, and from January [getPrevMonthDate] gives December two years
    earlier, because the month handed to [new Date] is already outside
    the year and the year is moved as well. *)
Theorem month_shift_fields (tza date : Z) :
  101 < getFullYear tza date -> getDate tza date <= 28 ->
  let y := getFullYear tza date in
  let m := getMonth tza date in
  let d := getDate tza date in
  (getFullYear tza (getNextMonthDate tza date),
   getMonth tza (getNextMonthDate tza date),
   getDate tza (getNextMonthDate tza date))
  = (if m =? 11 then y + 2 else y, (m + 1) mod 12, d)
  /\ (getFullYear tza (getPrevMonthDate tza date),
      getMonth tza (getPrevMonthDate tza date),
      getDate tza (getPrevMonthDate tza date))
     = (if m =? 0 then y - 2 else y, (m - 1) mod 12, d).
Proof.
  intros Hy Hd y m d.
  destruct (civil_fields tza date) as [Hm [Hd1 _]]. fold y m d in Hm, Hd1, Hd.
  assert (H : forall y' m', 99 < y' ->
              (getFullYear tza (newDate tza y' m' d),
               getMonth tza (newDate tza y' m' d),
               getDate tza (newDate tza y' m' d))
              = (y' + m' / 12, m' mod 12, d)).
  { intros y' m' Hy'.
    rewrite getFullYear_newDate, getMonth_newDate, getDate_newDate,
      fullYearOf_id by exact Hy'.
    destruct (civil_of_MakeDay_carry y' m' d) as [-> [-> ->]];
      [|reflexivity].
    pose proof (Z.mod_pos_bound m' 12).
    pose proof (monthLength_range (isLeap (y' + m' / 12)) (m' mod 12)).
    lia. }
  unfold getNextMonthDate, getPrevMonthDate. fold y m d. cbv zeta.
  split.
  - destruct (m =? 11) eqn:E; bool_to_prop;
      (rewrite H by (unfold y in *; lia));
      (apply f_equal2; [apply f_equal2|]); try reflexivity;
      Z.div_mod_to_equations; lia.
  - destruct (m =? 0) eqn:E; bool_to_prop;
      (rewrite H by (unfold y in *; lia));
      (apply f_equal2; [apply f_equal2|]); try reflexivity;
      Z.div_mod_to_equations; lia.
Qed.

Lemma month_shift_fields_witness :
  (getFullYear 0 (getNextMonthDate 0 1702641600000),
   getMonth 0 (getNextMonthDate 0 1702641600000),
   getDate 0 (getNextMonthDate 0 1702641600000))
  = (2025, 0, 15)
  /\ (getFullYear 0 (getPrevMonthDate 0 1702641600000),
      getMonth 0 (getPrevMonthDate 0 1702641600000),
      getDate 0 (getPrevMonthDate 0 1702641600000))
     = (2023, 10, 15).
Proof.
  apply (month_shift_fields 0 1702641600000); vm_compute;
    [reflexivity | discriminate].
Defined.

Lemma newDate_le (tza y m d t : Z) :
  MakeDay (fullYearOf y) m d <= Day (LocalTime tza t) ->
  newDate tza y m d <= t.
Proof.
  intros H. unfold newDate, UTC.
  pose proof (time_decompose (LocalTime tza t)) as Hl.
  pose proof (TimeWithinDay_range (LocalTime tza t)) as Hr.
  unfold LocalTime in *. unfold msPerDay in *. nia.
Qed.

Lemma newDate_gt (tza y m d t : Z) :
  Day (LocalTime tza t) <= MakeDay (fullYearOf y) m d ->
  t < newDate tza y m d + msPerDay.
Proof.
  intros H. unfold newDate, UTC.
  pose proof (time_decompose (LocalTime tza t)) as Hl.
  pose proof (TimeWithinDay_range (LocalTime tza t)) as Hr.
  unfold LocalTime in *. unfold msPerDay in *. nia.
Qed.

(** X17.  [getQuarterStartDate] is the first day of the first month of
    the quarter of [date], [getQuarterEndDate] the last day of its third
    month, both at local midnight: [date] lies between the start and the
    end of the last day, and both ends are in the quarter of [date]. *)
Theorem quarter_bounds (tza date : Z) :
  99 < getFullYear tza date ->
  let y := getFullYear tza date in
  let q := getQuarter tza date in
  let s := getQuarterStartDate tza date in
  let e := getQuarterEndDate tza date in
  s <= date < e + msPerDay
  /\ (getFullYear tza s, getMonth tza s, getDate tza s)
     = (y, 3 * (q - 1), 1)
  /\ (getFullYear tza e, getMonth tza e, getDate tza e)
     = (y, 3 * q - 1, monthLength (isLeap y) (3 * q - 1))
  /\ getQuarter tza s = q /\ getQuarter tza e = q.
Proof.
  intros Hy y q s e.
  destruct (civil_fields tza date) as [Hm [Hd Hmk]].
  pose proof (getQuarter_range tza date) as Hq. fold q in Hq.
  assert (Hqm : 3 * (q - 1) <= getMonth tza date <= 3 * q - 1).
  { unfold q, getQuarter. Z.div_mod_to_equations. lia. }
  assert (Hs : getFullYear tza s = y /\ getMonth tza s = 3 * (q - 1)
               /\ getDate tza s = 1).
  { unfold s, getQuarterStartDate. fold q y.
    replace ((q - 1) * 3) with (3 * (q - 1)) by ring.
    apply newDate_fields; [exact Hy | lia |].
    pose proof (monthLength_range (isLeap y) (3 * (q - 1))). lia. }
  assert (Hday : Day (LocalTime tza e)
                 = MakeDay y (3 * q - 1) (monthLength (isLeap y) (3 * q - 1))).
  { unfold e, getQuarterEndDate. fold q y.
    rewrite Day_LocalTime_newDate, fullYearOf_id by exact Hy.
    replace (q * 3) with (3 * q - 1 + 1) by ring.
    apply MakeDay_last_day. lia. }
  assert (He : getFullYear tza e = y /\ getMonth tza e = 3 * q - 1
               /\ getDate tza e = monthLength (isLeap y) (3 * q - 1)).
  { unfold getFullYear, getMonth, getDate. rewrite Hday.
    apply civil_of_MakeDay; [lia|].
    pose proof (monthLength_range (isLeap y) (3 * q - 1)). lia. }
  destruct Hs as [Hs1 [Hs2 Hs3]]. destruct He as [He1 [He2 He3]].
  split; [|split; [rewrite Hs1, Hs2, Hs3; reflexivity|
           split; [rewrite He1, He2, He3; reflexivity|]]].
  - fold y in Hmk, Hd. rewrite MakeDay_month in Hmk by exact Hm.
    split.
    + apply newDate_le. rewrite fullYearOf_id by exact Hy. fold y q.
      rewrite <- Hmk, MakeDay_month by lia.
      assert (Hmono : monthStart (isLeap y) ((q - 1) * 3)
                      <= monthStart (isLeap y) (getMonth tza date)).
      { revert Hqm. generalize (getMonth tza date) as m. intros m Hqm.
        assert (Hq' : q = 1 \/ q = 2 \/ q = 3 \/ q = 4) by lia.
        destruct Hq' as [-> | [-> | [-> | ->]]];
          assert (Hm' : 0 <= m <= 11) by lia;
          each_month Hm' m; try lia; destruct (isLeap y); simpl; lia. }
      lia.
    + apply newDate_gt. rewrite fullYearOf_id by exact Hy. fold y q.
      replace (q * 3) with (3 * q - 1 + 1) by ring.
      rewrite MakeDay_last_day, <- Hmk, MakeDay_month by lia.
      assert (Hmono : monthStart (isLeap y) (getMonth tza date)
                      + monthLength (isLeap y) (getMonth tza date)
                      <= monthStart (isLeap y) (3 * q - 1)
                         + monthLength (isLeap y) (3 * q - 1)).
      { revert Hqm. generalize (getMonth tza date) as m. intros m Hqm.
        assert (Hq' : q = 1 \/ q = 2 \/ q = 3 \/ q = 4) by lia.
        destruct Hq' as [-> | [-> | [-> | ->]]];
          assert (Hm' : 0 <= m <= 11) by lia;
          each_month Hm' m; try lia; destruct (isLeap y); simpl; lia. }
      lia.
  - split.
    + unfold getQuarter at 1. rewrite Hs2. Z.div_mod_to_equations. lia.
    + unfold getQuarter at 1. rewrite He2. Z.div_mod_to_equations. lia.
Qed.

Lemma quarter_bounds_witness :
  let tza := 28800000 in
  let date := 1700000000000 in
  let s := getQuarterStartDate tza date in
  let e := getQuarterEndDate tza date in
  s <= date < e + msPerDay
  /\ (getFullYear tza s, getMonth tza s, getDate tza s) = (2023, 9, 1)
  /\ (getFullYear tza e, getMonth tza e, getDate tza e) = (2023, 11, 31)
  /\ getQuarter tza s = 4 /\ getQuarter tza e = 4.
Proof.
  apply (quarter_bounds 28800000 1700000000000). vm_compute. reflexivity.
Defined.

(** ** The month grid, cell by cell *)

Lemma leadingCells_eq (tza cur : Z) :
  leadingCells tza cur = (getFirstDayOfMonth tza cur + 6) mod 7
  /\ 0 <= leadingCells tza cur <= 6.
Proof.
  unfold leadingCells, getPrevMonthDaysToShow.
  pose proof (getFirstDayOfMonth_eq tza cur) as H.
  pose proof (WeekDayOfDay_range
    (MakeDay (fullYearOf (getFullYear tza cur)) (getMonth tza cur) 1)) as Hr.
  rewrite <- H in Hr.
  destruct (getFirstDayOfMonth tza cur =? 0) eqn:E; bool_to_prop.
  - rewrite E. split; [reflexivity | lia].
  - Z.div_mod_to_equations. lia.
Qed.

Lemma newDate_date_shift (tza y m d k : Z) :
  newDate tza y m (d + k) = newDate tza y m d + k * msPerDay.
Proof. unfold newDate, UTC. rewrite MakeDay_date_shift. ring. Qed.

Lemma newDate_next_month (tza y m d : Z) :
  99 < y -> 0 <= m <= 11 ->
  newDate tza y m d = newDate tza y (m + 1) (d - monthLength (isLeap y) m).
Proof.
  intros Hy Hm. unfold newDate. rewrite fullYearOf_id by exact Hy.
  rewrite (MakeDay_overflow y m d) by exact Hm. reflexivity.
Qed.

(** Every cell of the grid but the leading cells of a January and the
    trailing cells of a December: cell [n] is the day [n - leading]
    days after the first of the month. *)
Lemma getCellDate_offset (tza cur r d : Z) :
  99 < getFullYear tza cur ->
  ~ (getMonth tza cur = 0 /\ r * 7 + d < leadingCells tza cur) ->
  ~ (getMonth tza cur = 11
     /\ leadingCells tza cur
        + monthLength (isLeap (getFullYear tza cur)) (getMonth tza cur)
        <= r * 7 + d) ->
  getCellDate tza r d cur
  = mkCell (newDate tza (getFullYear tza cur) (getMonth tza cur) 1
            + (r * 7 + d - leadingCells tza cur) * msPerDay)
      (negb ((leadingCells tza cur <=? r * 7 + d)
             && (r * 7 + d
                 <? leadingCells tza cur
                    + monthLength (isLeap (getFullYear tza cur))
                        (getMonth tza cur)))).
Proof.
  unfold leadingCells, getCellDate. cbv zeta.
  rewrite (getDaysInMonth_fullYear tza cur).
  intros Hy. rewrite (fullYearOf_id _ Hy).
  destruct (civil_fields tza cur) as [Hm _]. revert Hy Hm.
  set (y := getFullYear tza cur). set (m := getMonth tza cur).
  set (n := r * 7 + d).
  set (leading := getPrevMonthDaysToShow (getFirstDayOfMonth tza cur)).
  clearbody y m n leading.
  set (days := monthLength (isLeap y) m).
  intros Hy Hm Hjan Hdec.
  rewrite <- newDate_date_shift.
  destruct (n <? leading) eqn:E1; bool_to_prop.
  - assert (Hm0 : m <> 0) by (intros E; apply Hjan; auto).
    destruct (m =? 0) eqn:E0; bool_to_prop; [contradiction|].
    destruct (leading <=? n) eqn:E2; bool_to_prop; [lia|].
    cbn [andb negb]. f_equal.
    assert (Hp : getDaysInMonth tza (newDate tza y (m - 1) 1)
                 = monthLength (isLeap y) (m - 1)).
    { rewrite getDaysInMonth_fullYear.
      destruct (newDate_fields tza y (m - 1) 1) as [-> [-> _]];
        [exact Hy | lia | | rewrite fullYearOf_id by exact Hy; reflexivity].
      pose proof (monthLength_range (isLeap y) (m - 1)). lia. }
    rewrite Hp, (newDate_next_month tza y (m - 1)) by (exact Hy || lia).
    f_equal; lia.
  - destruct (leading <=? n) eqn:E2; bool_to_prop; [|lia].
    destruct (n <? leading + days) eqn:E3; bool_to_prop; cbn [andb negb].
    + f_equal. f_equal. lia.
    + assert (Hm11 : m <> 11) by (intros E; apply Hdec; auto).
      destruct (m =? 11) eqn:E11; bool_to_prop; [contradiction|].
      f_equal. rewrite (newDate_next_month tza y m) by (exact Hy || lia).
      f_equal. unfold days. lia.
Qed.

Lemma getFirstDayOfMonth_getDay (tza cur : Z) :
  getFirstDayOfMonth tza cur
  = getDay tza (newDate tza (getFullYear tza cur) (getMonth tza cur) 1).
Proof. reflexivity. Qed.

Lemma weekday_of_cell (f leading r d : Z) :
  leading = (f + 6) mod 7 -> 
  (f + (r * 7 + d - leading)) mod 7 = (d + 1) mod 7.
Proof. intros ->. Z.div_mod_to_equations. lia. Qed.

(** X18.  In the grid of a month from February to November, cell [n]
    (row [r], column [d], [n = 7 r + d]) holds the day that is [n -
    leading] days away from the first of the month: the cells are
    consecutive days, column [d] always holds the same weekday, Monday
    in column 0 and Sunday in column 6, and a cell is unflagged exactly
    when its day lies in the month. *)
Theorem month_grid_consecutive_days (tza cur r d : Z) :
  99 < getFullYear tza cur ->
  1 <= getMonth tza cur <= 10 ->
  let y := getFullYear tza cur in
  let m := getMonth tza cur in
  let n := r * 7 + d in
  let c := getCellDate tza r d cur in
  date c = newDate tza y m 1 + (n - leadingCells tza cur) * msPerDay
  /\ getDay tza (date c) = (d + 1) mod 7
  /\ (isOtherMonth c = false
      <-> leadingCells tza cur <= n
          < leadingCells tza cur + monthLength (isLeap y) m).
Proof.
  intros Hy Hm. cbv zeta.
  rewrite (getCellDate_offset tza cur r d Hy) by lia.
  cbn [date isOtherMonth].
  split; [reflexivity|]. split.
  - rewrite getDay_shift, <- getFirstDayOfMonth_getDay.
    apply weekday_of_cell. apply leadingCells_eq.
  - rewrite negb_false_iff, andb_true_iff, Z.leb_le, Z.ltb_lt. reflexivity.
Qed.

Lemma month_grid_consecutive_days_witness :
  let c := getCellDate 28800000 4 6 1707494400000 in
  date c
  = newDate 28800000 2024 1 1
    + (4 * 7 + 6 - leadingCells 28800000 1707494400000) * msPerDay
  /\ getDay 28800000 (date c) = (6 + 1) mod 7
  /\ (isOtherMonth c = false
      <-> leadingCells 28800000 1707494400000 <= 4 * 7 + 6
          < leadingCells 28800000 1707494400000 + monthLength (isLeap 2024) 1).
Proof.
  apply (month_grid_consecutive_days 28800000 1707494400000 4 6);
    vm_compute; [reflexivity | split; discriminate].
Defined.

(** The cells of the grid are the values of [getCellDate] at the rows
    below [rowsNeeded] and the seven columns. *)
Lemma in_getMonthDates (tza cur : Z) (c : Cell) :
  In c (concat (getMonthDates tza cur))
  <-> exists r d : nat,
        (r < Z.to_nat (getCalendarRows (leadingCells tza cur)
                         (getDaysInMonth tza cur)))%nat
        /\ (d < 7)%nat
        /\ c = getCellDate tza (Z.of_nat r) (Z.of_nat d) cur.
Proof.
  unfold getMonthDates, getCalendarMonthData, leadingCells.
  cbn [rowsNeeded].
  rewrite in_concat. split.
  - intros [row [Hrow Hc]].
    apply in_map_iff in Hrow. destruct Hrow as [r [<- Hr]].
    apply in_map_iff in Hc. destruct Hc as [d [<- Hd]].
    apply in_seq in Hr. apply in_seq in Hd.
    exists r, d. split; [lia|]. split; [lia | reflexivity].
  - intros [r [d [Hr [Hd ->]]]].
    eexists. split.
    + apply in_map_iff. exists r. split; [reflexivity|].
      apply in_seq. lia.
    + apply in_map_iff. exists d. split; [reflexivity|].
      apply in_seq. lia.
Qed.

(** A cell is unflagged exactly when it lies between the leading and
    the trailing cells, and then it holds the day of the month of its
    position. *)
Lemma getCellDate_current (tza cur r d : Z) :
  let n := r * 7 + d in
  let leading := leadingCells tza cur in
  (isOtherMonth (getCellDate tza r d cur) = false
   <-> leading <= n < leading + getDaysInMonth tza cur)
  /\ (leading <= n < leading + getDaysInMonth tza cur ->
      getCellDate tza r d cur
      = mkCell (newDate tza (getFullYear tza cur) (getMonth tza cur)
                  (n - leading + 1)) false).
Proof.
  cbv zeta. unfold leadingCells, getCellDate. cbv zeta.
  set (n := r * 7 + d).
  set (leading := getPrevMonthDaysToShow (getFirstDayOfMonth tza cur)).
  set (days := getDaysInMonth tza cur).
  clearbody n leading days.
  destruct (n <? leading) eqn:E1; bool_to_prop.
  - cbn [isOtherMonth]. split; [split; [discriminate | lia] | lia].
  - destruct (n <? leading + days) eqn:E2; bool_to_prop; cbn [isOtherMonth].
    + split; [split; [lia | reflexivity] | reflexivity].
    + split; [split; [discriminate | lia] | lia].
Qed.

(** X19.  In every month grid the cells that are not flagged as
    belonging to another month are exactly the days 1 to
    [getDaysInMonth] of the month: each of them is shown, the rows
    computed by [getCalendarRows] being enough, and nothing else is
    unflagged. *)
Theorem month_grid_shows_the_month (tza cur : Z) (c : Cell) :
  In c (concat (getMonthDates tza cur)) /\ isOtherMonth c = false
  <-> exists k,
        1 <= k <= getDaysInMonth tza cur
        /\ c = mkCell (newDate tza (getFullYear tza cur) (getMonth tza cur) k)
                 false.
Proof.
  rewrite in_getMonthDates.
  pose proof (leadingCells_eq tza cur) as [_ Hl].
  split.
  - intros [[r [d [Hr [Hd ->]]]] Hf].
    destruct (getCellDate_current tza cur (Z.of_nat r) (Z.of_nat d))
      as [H1 H2].
    apply H1 in Hf. rewrite (H2 Hf).
    eexists. split; [|reflexivity]. lia.
  - intros [k [Hk ->]]. split; [|reflexivity].
    set (n := leadingCells tza cur + k - 1).
    assert (Hn : 0 <= n) by (unfold n; lia).
    exists (Z.to_nat (n / 7)), (Z.to_nat (n mod 7)).
    pose proof (ceilDiv_spec (leadingCells tza cur + getDaysInMonth tza cur))
      as Hc.
    unfold getCalendarRows.
    split; [|split].
    + apply Z2Nat.inj_lt; [apply Z.div_pos; lia | |];
        Z.div_mod_to_equations; lia.
    + change 7%nat with (Z.to_nat 7).
      apply Z2Nat.inj_lt; Z.div_mod_to_equations; lia.
    + rewrite !Z2Nat.id by (Z.div_mod_to_equations; lia).
      destruct (getCellDate_current tza cur (n / 7) (n mod 7)) as [_ H2].
      assert (Hpos : n / 7 * 7 + n mod 7 = n)
        by (Z.div_mod_to_equations; lia).
      rewrite Hpos in H2. rewrite H2 by (unfold n; lia).
      f_equal. f_equal. unfold n. lia.
Qed.

(** ** The week rows of the month view *)

Lemma weekStartDate_offset (tza index cur : Z) :
  weekStartDate tza index cur
  = newDate tza (getFullYear tza cur) (getMonth tza cur) 1
    + (index * 7 - leadingCells tza cur) * msPerDay.
Proof.
  unfold weekStartDate, leadingCells, getPrevMonthDaysToShow,
    getFirstDayOfMonth. cbv zeta. apply newDate_date_shift.
Qed.

Lemma weekStartDate_monday (tza index cur : Z) :
  getDay tza (weekStartDate tza index cur) = 1.
Proof.
  rewrite weekStartDate_offset, getDay_shift, <- getFirstDayOfMonth_getDay.
  destruct (leadingCells_eq tza cur) as [-> _].
  pose proof (getFirstDayOfMonth_eq tza cur) as H.
  pose proof (WeekDayOfDay_range
    (MakeDay (fullYearOf (getFullYear tza cur)) (getMonth tza cur) 1))
    as Hr.
  rewrite <- H in Hr. Z.div_mod_to_equations. lia.
Qed.

Lemma adjustedDate_weekStartDate (tza index cur : Z) :
  adjustedDate tza (weekStartDate tza index cur)
  = weekStartDate tza index cur.
Proof.
  unfold adjustedDate. cbv zeta. rewrite weekStartDate_monday.
  cbn [Z.eqb]. rewrite <- Z.add_sub_assoc. change (1 - 1) with 0.
  rewrite setDate_shift. lia.
Qed.

(** X20.  The week-number cell of row [index] of the month view: the
    start of the row is the day [7 index - leading] days from the first
    of the month, it is a Monday, so the adjustment to a Monday leaves
    it as it is, and the range that a click lists runs from it to the
    Sunday six days later, at the same time of day. *)
Theorem week_row_starts_on_monday (tza index cur : Z) :
  let ws := weekStartDate tza index cur in
  ws = newDate tza (getFullYear tza cur) (getMonth tza cur) 1
       + (index * 7 - leadingCells tza cur) * msPerDay
  /\ getDay tza ws = 1
  /\ adjustedDate tza ws = ws
  /\ weekRange tza (adjustedDate tza ws) = (ws, ws + 6 * msPerDay).
Proof.
  cbv zeta.
  split; [apply weekStartDate_offset|].
  split; [apply weekStartDate_monday|].
  split; [apply adjustedDate_weekStartDate|].
  rewrite adjustedDate_weekStartDate. unfold weekRange. cbv zeta.
  rewrite setDate_shift. reflexivity.
Qed.

(** ** The grid that is drawn *)

Lemma prevMonthDays_eq (tza y m : Z) :
  100 < y -> -1 <= m <= 10 ->
  getDate tza (newDate tza y (m + 1) 0)
  = getDaysInMonth tza (newDate tza y m 1).
Proof.
  intros Hy Hm. rewrite getDaysInMonth_fullYear.
  rewrite getFullYear_newDate, getMonth_newDate, getDate_newDate,
    fullYearOf_id by lia.
  assert (Hl : 1 <= 1 <= monthLength (isLeap (y + m / 12)) (m mod 12)).
  { pose proof (Z.mod_pos_bound m 12).
    pose proof (monthLength_range (isLeap (y + m / 12)) (m mod 12)). lia. }
  destruct (civil_of_MakeDay_carry y m 1 Hl) as [-> [-> _]].
  rewrite fullYearOf_id by (Z.div_mod_to_equations; lia).
  assert (Hmm : 0 <= m mod 12 <= 11)
    by (pose proof (Z.mod_pos_bound m 12); lia).
  rewrite (MakeDay_monthIndex y (m + 1) (y + m / 12) (m mod 12 + 1) 0)
    by (Z.div_mod_to_equations; lia).
  rewrite (MakeDay_last_day (y + m / 12) (m mod 12) Hmm).
  apply civil_of_MakeDay; [exact Hmm|].
  pose proof (monthLength_range (isLeap (y + m / 12)) (m mod 12) Hmm). lia.
Qed.

Lemma buildDayCell_getCellDate (tza cur r d : Z) :
  101 < getFullYear tza cur ->
  buildDayCell tza r d (getFullYear tza cur) (getMonth tza cur)
    (getDate tza
       (newDate tza (getFullYear tza cur) (getMonth tza cur + 1) 0))
    (if getDay tza (newDate tza (getFullYear tza cur) (getMonth tza cur) 1)
        =? 0
     then 6
     else getDay tza (newDate tza (getFullYear tza cur) (getMonth tza cur) 1)
          - 1)
  = getCellDate tza r d cur.
Proof.
  intros Hy.
  destruct (civil_fields tza cur) as [Hm _].
  assert (Hp : getDate tza
                 (newDate tza
                    (if getMonth tza cur =? 0
                     then getFullYear tza cur - 1 else getFullYear tza cur)
                    (getMonth tza cur - 1 + 1) 0)
               = getDaysInMonth tza
                   (newDate tza
                      (if getMonth tza cur =? 0
                       then getFullYear tza cur - 1 else getFullYear tza cur)
                      (getMonth tza cur - 1) 1)).
  { apply prevMonthDays_eq; [destruct (getMonth tza cur =? 0); lia | lia]. }
  unfold buildDayCell, getCellDate, getPrevMonthDaysToShow,
    getFirstDayOfMonth. cbv zeta. rewrite Hp.
  unfold getDaysInMonth. reflexivity.
Qed.

(** X21.  The month grid that [buildMonthDays] draws is the grid of
    [getMonthDates]: row by row the day cells have the same dates and
    the same other-month marks, and the week cells are numbered 1, 2,
    ... from the top. *)
Theorem buildMonthDays_is_getMonthDates (tza currentDate : Z) :
  101 < getFullYear tza currentDate ->
  map snd (buildMonthDays tza currentDate) = getMonthDates tza currentDate
  /\ map fst (buildMonthDays tza currentDate)
     = map (fun row => Z.of_nat row + 1)
         (seq 0 (length (getMonthDates tza currentDate))).
Proof.
  intros Hy.
  unfold buildMonthDays, getMonthDates, getCalendarMonthData,
    getCalendarRows, getPrevMonthDaysToShow, getFirstDayOfMonth,
    getDaysInMonth.
  cbv zeta. cbn [rowsNeeded].
  rewrite !map_map, length_map, length_seq. split.
  - apply map_ext. intros row. unfold buildWeekRow. cbn [snd].
    apply map_ext. intros i.
    apply (buildDayCell_getCellDate tza currentDate (Z.of_nat row)
             (Z.of_nat i) Hy).
  - apply map_ext. intros row. reflexivity.
Qed.

Lemma buildMonthDays_is_getMonthDates_witness :
  map snd (buildMonthDays 28800000 1673740800000)
  = getMonthDates 28800000 1673740800000
  /\ map fst (buildMonthDays 28800000 1673740800000)
     = map (fun row => Z.of_nat row + 1)
         (seq 0 (length (getMonthDates 28800000 1673740800000))).
Proof.
  apply (buildMonthDays_is_getMonthDates 28800000 1673740800000).
  vm_compute. reflexivity.
Defined.

(** ** The grid that is refreshed in place *)

Lemma newDate_midnight (tza y m d : Z) :
  TimeWithinDay (LocalTime tza (newDate tza y m d)) = 0.
Proof.
  unfold newDate. rewrite LocalTime_UTC. unfold TimeWithinDay.
  apply Z.mod_mul. unfold msPerDay. lia.
Qed.

(** [new Date] of the year and the month of a local midnight [t] and
    of a day counted from the day of [t]. *)
Lemma newDate_from_fields (tza t k : Z) :
  99 < getFullYear tza t ->
  TimeWithinDay (LocalTime tza t) = 0 ->
  newDate tza (getFullYear tza t) (getMonth tza t) (getDate tza t + k)
  = t + k * msPerDay.
Proof.
  intros Hy Hmid.
  rewrite newDate_date_shift, (newDate_own_fields tza t Hy).
  unfold startOfDay. rewrite Hmid. lia.
Qed.

Lemma getFullYear_newDate_near (tza y m d : Z) :
  101 < y -> -1 <= m <= 12 -> 0 <= d <= 1 ->
  99 < getFullYear tza (newDate tza y m d).
Proof.
  intros Hy Hm Hd. rewrite getFullYear_newDate, fullYearOf_id by lia.
  pose proof (YearFromDay_spec (MakeDay y m d)) as Hs.
  rewrite MakeDay_carry in Hs |- *.
  assert (Hmm : 0 <= m mod 12 <= 11)
    by (pose proof (Z.mod_pos_bound m 12); lia).
  rewrite MakeDay_month in Hs |- * by exact Hmm.
  set (D := DayFromYear (y + m / 12) + monthStart (isLeap (y + m / 12))
                                          (m mod 12) + d - 1) in *.
  destruct (Z.le_gt_cases (YearFromDay D) 99) as [Hle | Hgt]; [|lia].
  exfalso.
  assert (H1 : DayFromYear (YearFromDay D + 1) <= DayFromYear 100).
  { destruct (Z.eq_dec (YearFromDay D + 1) 100) as [-> | Hne]; [lia|].
    apply Z.lt_le_incl, DayFromYear_lt. lia. }
  assert (H2 : DayFromYear 100 < DayFromYear (y + m / 12)).
  { apply DayFromYear_lt. Z.div_mod_to_equations. lia. }
  assert (H3 : 0 <= monthStart (isLeap (y + m / 12)) (m mod 12)).
  { revert Hmm. generalize (m mod 12). intros mm Hmm.
    each_month Hmm mm; destruct (isLeap (y + m / 12)); simpl; lia. }
  assert (HD : DayFromYear (y + m / 12) - 1 <= D) by (unfold D; lia).
  clearbody D. lia.
Qed.

Lemma seq_from (k n : nat) :
  seq k n = map (fun i => (k + i)%nat) (seq 0 n).
Proof.
  revert k. induction n as [|n IH]; intros k; [reflexivity|].
  cbn [seq map]. rewrite Nat.add_0_r. f_equal.
  rewrite (IH (S k)), (IH 1%nat), map_map.
  apply map_ext. intros i. lia.
Qed.

Lemma fillCell_at (tza cur n : Z) :
  101 < getFullYear tza cur -> 0 <= n ->
  fillCell tza (getFullYear tza cur) (getMonth tza cur)
    (monthLength (isLeap (getFullYear tza cur)) (getMonth tza cur))
    (getDate tza (newDate tza (getFullYear tza cur) (getMonth tza cur) 0))
    (getMonth tza (newDate tza (getFullYear tza cur) (getMonth tza cur) 0))
    (getFullYear tza
       (newDate tza (getFullYear tza cur) (getMonth tza cur) 0))
    (getMonth tza
       (newDate tza (getFullYear tza cur) (getMonth tza cur + 1) 1))
    (getFullYear tza
       (newDate tza (getFullYear tza cur) (getMonth tza cur + 1) 1))
    (fillStateAt
       (getDate tza
          (newDate tza (getFullYear tza cur) (getMonth tza cur) 0))
       (leadingCells tza cur)
       (monthLength (isLeap (getFullYear tza cur)) (getMonth tza cur)) n)
  = (gridCellAt (newDate tza (getFullYear tza cur) (getMonth tza cur) 1)
       (leadingCells tza cur)
       (monthLength (isLeap (getFullYear tza cur)) (getMonth tza cur)) n,
     fillStateAt
       (getDate tza
          (newDate tza (getFullYear tza cur) (getMonth tza cur) 0))
       (leadingCells tza cur)
       (monthLength (isLeap (getFullYear tza cur)) (getMonth tza cur))
       (n + 1)).
Proof.
  intros Hy Hn.
  assert (Hm : 0 <= getMonth tza cur <= 11) by (apply civil_fields).
  assert (Hl : 0 <= leadingCells tza cur <= 6) by (apply leadingCells_eq).
  pose proof (monthLength_range (isLeap (getFullYear tza cur)) _ Hm) as Hd.
  revert Hy Hm Hl Hd.
  generalize (leadingCells tza cur) as leading.
  generalize (getMonth tza cur) as M. generalize (getFullYear tza cur) as Y.
  intros Y M leading Hy Hm Hl.
  set (days := monthLength (isLeap Y) M).
  set (first := newDate tza Y M 1).
  set (last := newDate tza Y M 0).
  set (next := newDate tza Y (M + 1) 1).
  intros Hd.
  assert (Hlast : last = first + -1 * msPerDay).
  { unfold last, first. rewrite <- newDate_date_shift. reflexivity. }
  assert (Hnext : next = first + days * msPerDay).
  { unfold next, first, days.
    rewrite (newDate_next_month tza Y M) by (lia || exact Hm).
    rewrite <- newDate_date_shift. f_equal. lia. }
  assert (Hprev : forall k,
            newDate tza (getFullYear tza last) (getMonth tza last)
              (getDate tza last + k) = last + k * msPerDay).
  { intros k. apply newDate_from_fields.
    - apply getFullYear_newDate_near; [exact Hy | lia | lia].
    - apply newDate_midnight. }
  assert (Hnx : forall k,
            newDate tza (getFullYear tza next) (getMonth tza next)
              (getDate tza next + k) = next + k * msPerDay).
  { intros k. apply newDate_from_fields.
    - apply getFullYear_newDate_near; [exact Hy | lia | lia].
    - apply newDate_midnight. }
  assert (Hnd : getDate tza next = 1).
  { unfold next. rewrite getDate_newDate, fullYearOf_id by lia.
    apply civil_of_MakeDay_carry.
    pose proof (Z.mod_pos_bound (M + 1) 12).
    pose proof (monthLength_range (isLeap (Y + (M + 1) / 12))
                  ((M + 1) mod 12)). lia. }
  assert (Hcur : forall k,
            newDate tza Y M (1 + k) = first + k * msPerDay)
    by (intros k; apply newDate_date_shift).
  clearbody days first last next.
  unfold fillCell, fillStateAt, gridCellAt.
  cbn [prevMonthDay currentDay nextMonthDay].
  destruct (Z.lt_ge_cases n leading) as [H1 | H1].
  - assert (E1 : (getDate tza last - leading + 1 + Z.min n leading
                  <=? getDate tza last) = true) by (apply Z.leb_le; lia).
    assert (E2 : (leading <=? n) = false) by (apply Z.leb_gt; lia).
    rewrite E1, E2. cbn [andb negb]. f_equal.
    + f_equal.
      replace (getDate tza last - leading + 1 + Z.min n leading)
        with (getDate tza last + (n - leading + 1)) by lia.
      rewrite Hprev, Hlast. lia.
    + f_equal; lia.
  - assert (E1 : (getDate tza last - leading + 1 + Z.min n leading
                  <=? getDate tza last) = false) by (apply Z.leb_gt; lia).
    assert (E2 : (leading <=? n) = true) by (apply Z.leb_le; lia).
    rewrite E1, E2. cbn [andb].
    destruct (Z.lt_ge_cases n (leading + days)) as [H2 | H2].
    + assert (E3 : (1 + Z.max 0 (Z.min (n - leading) days) <=? days) = true)
        by (apply Z.leb_le; lia).
      assert (E4 : (n <? leading + days) = true) by (apply Z.ltb_lt; lia).
      rewrite E3, E4. cbn [negb]. f_equal.
      * f_equal.
        replace (1 + Z.max 0 (Z.min (n - leading) days))
          with (1 + (n - leading)) by lia.
        apply Hcur.
      * f_equal; lia.
    + assert (E3 : (1 + Z.max 0 (Z.min (n - leading) days) <=? days) = false)
        by (apply Z.leb_gt; lia).
      assert (E4 : (n <? leading + days) = false) by (apply Z.ltb_ge; lia).
      rewrite E3, E4. cbn [negb]. f_equal.
      * f_equal.
        replace (1 + Z.max 0 (n - leading - days))
          with (getDate tza next + (n - leading - days)) by lia.
        rewrite Hnx, Hnext. lia.
      * f_equal; lia.
Qed.

Section Fill.
Variable cell : FillState -> Cell * FillState.
Variables prevMonthDays first leading days : Z.
Hypothesis cell_at :
  forall n, 0 <= n ->
    cell (fillStateAt prevMonthDays leading days n)
    = (gridCellAt first leading days n,
       fillStateAt prevMonthDays leading days (n + 1)).

Lemma fillRow_at (k : nat) :
  forall n, 0 <= n ->
    fillRow cell k (fillStateAt prevMonthDays leading days n)
    = (map (fun i => gridCellAt first leading days (n + Z.of_nat i))
         (seq 0 k),
       fillStateAt prevMonthDays leading days (n + Z.of_nat k)).
Proof.
  induction k as [|k IH]; intros n Hn.
  - cbn [fillRow seq map]. rewrite Z.add_0_r. reflexivity.
  - cbn [fillRow]. rewrite (cell_at n Hn), IH by lia.
    cbn [seq map]. rewrite (seq_from 1 k), map_map.
    f_equal; [|f_equal; lia].
    f_equal; [f_equal; lia|].
    apply map_ext. intros i. f_equal. lia.
Qed.

Lemma fillRows_at (rows : list nat) :
  forall n, 0 <= n ->
    concat (fillRows cell rows (fillStateAt prevMonthDays leading days n))
    = map (fun i => gridCellAt first leading days (n + Z.of_nat i))
        (seq 0 (list_sum rows))
    /\ map (@length Cell)
         (fillRows cell rows (fillStateAt prevMonthDays leading days n))
       = rows.
Proof.
  induction rows as [|k rows IH]; intros n Hn.
  - split; reflexivity.
  - cbn [fillRows]. rewrite (fillRow_at k n Hn).
    destruct (IH (n + Z.of_nat k)) as [IH1 IH2]; [lia|].
    change (list_sum (k :: rows)) with (k + list_sum rows)%nat.
    cbn [concat map]. rewrite IH1, IH2. split.
    + rewrite seq_app, map_app. f_equal. cbn [Nat.add].
      rewrite (seq_from k (list_sum rows)), map_map.
      apply map_ext. intros i. f_equal. lia.
    + rewrite length_map, length_seq. reflexivity.
Qed.
End Fill.

Lemma leadingCells_unfold (tza cur : Z) :
  (if getDay tza (newDate tza (getFullYear tza cur) (getMonth tza cur) 1)
      =? 0
   then 6
   else getDay tza (newDate tza (getFullYear tza cur) (getMonth tza cur) 1)
        - 1)
  = leadingCells tza cur.
Proof.
  unfold leadingCells, getPrevMonthDaysToShow, getFirstDayOfMonth.
  reflexivity.
Qed.

Lemma getDaysInMonth_unfold (tza cur : Z) :
  getDate tza (newDate tza (getFullYear tza cur) (getMonth tza cur + 1) 0)
  = getDaysInMonth tza cur.
Proof. unfold getDaysInMonth. reflexivity. Qed.

(** X22.  [updateMonthCalendarContent] refreshes the cells of the table
    with consecutive days: counted from 0 along the rows, cell [n] gets
    the local midnight [n - leading] days from the first of the month,
    and the other-month mark exactly when that day is outside the month;
    every row keeps its cells. This holds in every month, January and
    December included. *)
Theorem updateMonthCalendarContent_cells (tza currentDate : Z)
  (rows : list nat) :
  101 < getFullYear tza currentDate ->
  concat (updateMonthCalendarContent tza currentDate rows)
  = map (fun n =>
           gridCellAt
             (newDate tza (getFullYear tza currentDate)
                (getMonth tza currentDate) 1)
             (leadingCells tza currentDate)
             (monthLength (isLeap (getFullYear tza currentDate))
                (getMonth tza currentDate))
             (Z.of_nat n))
      (seq 0 (list_sum rows))
  /\ map (@length Cell) (updateMonthCalendarContent tza currentDate rows)
     = rows.
Proof.
  intros Hy.
  destruct (leadingCells_eq tza currentDate) as [_ Hl].
  assert (Hm : 0 <= getMonth tza currentDate <= 11) by apply civil_fields.
  pose proof (monthLength_range
                (isLeap (getFullYear tza currentDate)) _ Hm) as Hd.
  unfold updateMonthCalendarContent. cbv zeta.
  rewrite leadingCells_unfold, getDaysInMonth_unfold,
    getDaysInMonth_fullYear, fullYearOf_id by lia.
  assert (H0 : forall p l d, 0 <= l -> 0 <= d ->
            mkFillState (p - l + 1) 1 1 = fillStateAt p l d 0).
  { intros p l d H1 H2. unfold fillStateAt. f_equal; lia. }
  rewrite (H0 _ (leadingCells tza currentDate)
             (monthLength (isLeap (getFullYear tza currentDate))
                (getMonth tza currentDate))) by lia.
  destruct (fillRows_at _ _ _ _ _
              (fun n Hn => fillCell_at tza currentDate n Hy Hn) rows 0
              (Z.le_refl 0)) as [H1 H2].
  rewrite H1, H2. split; [|reflexivity].
  apply map_ext. intros i. rewrite Z.add_0_l. reflexivity.
Qed.

Lemma updateMonthCalendarContent_cells_witness :
  concat (updateMonthCalendarContent 28800000 1673740800000 [7; 7]%nat)
  = map (fun n =>
           gridCellAt (newDate 28800000 2023 0 1)
             (leadingCells 28800000 1673740800000)
             (monthLength (isLeap 2023) 0) (Z.of_nat n))
      (seq 0 (list_sum [7; 7]%nat))
  /\ map (@length Cell)
       (updateMonthCalendarContent 28800000 1673740800000 [7; 7]%nat)
     = [7; 7]%nat.
Proof.
  apply (updateMonthCalendarContent_cells 28800000 1673740800000 [7; 7]%nat).
  vm_compute. reflexivity.
Defined.

(** ** The week cells *)

(** X23.  The week that [updateWeekIndicators] works out from the number
    written in a week cell is the week that a click on that cell lists:
    the same start, and the same range of seven days. *)
Theorem week_cell_dates_agree (tza currentDate rowIndex : Z) :
  let ws := weekStartDateOf tza currentDate (buildWeekNumberCell rowIndex) in
  ws = weekStartDate tza rowIndex currentDate
  /\ (ws, weekEndDateOf tza ws)
     = weekRange tza
         (adjustedDate tza (weekStartDate tza rowIndex currentDate)).
Proof.
  cbv zeta.
  assert (H : weekStartDateOf tza currentDate (buildWeekNumberCell rowIndex)
              = weekStartDate tza rowIndex currentDate).
  { rewrite weekStartDate_offset.
    unfold weekStartDateOf, buildWeekNumberCell. cbv zeta.
    rewrite leadingCells_unfold.
    replace (getDate tza
               (newDate tza (getFullYear tza currentDate)
                  (getMonth tza currentDate) 1)
             - leadingCells tza currentDate + (rowIndex + 1 - 1) * 7)
      with (getDate tza
              (newDate tza (getFullYear tza currentDate)
                 (getMonth tza currentDate) 1)
            + (rowIndex * 7 - leadingCells tza currentDate)) by lia.
    apply setDate_shift. }
  split; [exact H|].
  rewrite H, adjustedDate_weekStartDate. unfold weekEndDateOf, weekRange.
  reflexivity.
Qed.

(** ** The quarter buttons *)

Lemma monthIndex_of_MakeDay (tza r y m d : Z) :
  Day (LocalTime tza r) = MakeDay y m d ->
  1 <= d <= 31 ->
  12 * y + m <= monthIndex tza r <= 12 * y + m + 1.
Proof.
  intros Hr Hd. unfold monthIndex.
  assert (Hmm : 0 <= m mod 12 <= 11)
    by (pose proof (Z.mod_pos_bound m 12); lia).
  pose proof (monthLength_range (isLeap (y + m / 12)) _ Hmm) as Hl.
  destruct (Z.le_gt_cases d (monthLength (isLeap (y + m / 12)) (m mod 12)))
    as [Hle | Hgt].
  - unfold getFullYear, getMonth. rewrite Hr.
    destruct (civil_of_MakeDay_carry y m d) as [-> [-> _]]; [lia|].
    Z.div_mod_to_equations. lia.
  - rewrite MakeDay_carry, MakeDay_overflow in Hr by exact Hmm.
    destruct (fields_of_MakeDay tza r _ _ _ Hr) as [H1 _]; [lia|].
    rewrite H1. Z.div_mod_to_equations. lia.
Qed.

Lemma quarterIndex_monthIndex (tza t : Z) :
  quarterIndex tza t = monthIndex tza t / 3.
Proof.
  unfold quarterIndex, monthIndex.
  destruct (civil_fields tza t) as [Hm _].
  Z.div_mod_to_equations. lia.
Qed.

(** X24.  The quarter buttons move the current date into the next and
    into the previous quarter, across the ends of a year too, and keep
    its time of day. *)
Theorem quarter_click_moves (tza currentDate : Z) :
  quarterIndex tza (nextQuarterClick tza currentDate)
  = quarterIndex tza currentDate + 1
  /\ quarterIndex tza (prevQuarterClick tza currentDate)
     = quarterIndex tza currentDate - 1
  /\ TimeWithinDay (LocalTime tza (nextQuarterClick tza currentDate))
     = TimeWithinDay (LocalTime tza currentDate)
  /\ TimeWithinDay (LocalTime tza (prevQuarterClick tza currentDate))
     = TimeWithinDay (LocalTime tza currentDate).
Proof.
  destruct (civil_fields tza currentDate) as [Hm [Hd _]].
  pose proof (monthLength_range
                (isLeap (getFullYear tza currentDate)) _ Hm) as Hl.
  assert (H : forall target,
            target mod 3 = 0 ->
            quarterIndex tza (setMonth tza currentDate target)
            = (12 * getFullYear tza currentDate + target) / 3
            /\ TimeWithinDay (LocalTime tza (setMonth tza currentDate target))
               = TimeWithinDay (LocalTime tza currentDate)).
  { intros target Ht.
    destruct (local_of_parts tza currentDate
                (MakeDay (getFullYear tza currentDate) target
                   (getDate tza currentDate))) as [H1 H2].
    fold (getFullYear tza currentDate) in H1, H2.
    split; [|exact H2].
    rewrite quarterIndex_monthIndex.
    pose proof (monthIndex_of_MakeDay tza _ _ _ _ H1) as Hi.
    unfold setMonth. unfold getFullYear, getDate in *.
    Z.div_mod_to_equations. lia. }
  unfold nextQuarterClick, prevQuarterClick. cbv zeta.
  destruct (H (getMonth tza currentDate / 3 * 3 + 3)) as [H1 H2];
    [Z.div_mod_to_equations; lia|].
  destruct (H (getMonth tza currentDate / 3 * 3 - 3)) as [H3 H4];
    [Z.div_mod_to_equations; lia|].
  rewrite H1, H3. unfold quarterIndex.
  repeat split; try assumption; Z.div_mod_to_equations; lia.
Qed.

(** ** The list of a month and the due dates of the extraction *)

Lemma newDateFromString_value (y1 y2 y3 y4 s1 m1 m2 s2 d1 d2 : N) :
  let y := 1000 * digitValue y1 + 100 * digitValue y2
           + 10 * digitValue y3 + digitValue y4 in
  let m := 10 * digitValue m1 + digitValue m2 in
  let d := 10 * digitValue d1 + digitValue d2 in
  1 <= m <= 12 -> 1 <= d <= 31 ->
  newDateFromString [y1; y2; y3; y4; s1; m1; m2; s2; d1; d2]
  = ValidDate (MakeDay y (m - 1) d * msPerDay).
Proof.
  intros y m d Hm Hd. unfold newDateFromString. fold y m d.
  destruct ((1 <=? m) && (m <=? 12) && (1 <=? d) && (d <=? 31)) eqn:E;
    [reflexivity|].
  exfalso. repeat rewrite andb_false_iff in E.
  destruct E as [[[E | E] | E] | E];
    first [apply Z.leb_gt in E | apply Z.ltb_ge in E]; lia.
Qed.

(** X25.  A click on the month lists a task whose due date the
    extraction read from [YYYY-MM-DD], on day [d] of the current month,
    exactly when the offset of the zone lies between [1 - d] and [days -
    d] days: east of Greenwich the tasks due on the last day of the
    month are left out, west of it those due on the first. *)
Theorem month_click_and_utc_due_dates (tza currentDate : Z)
  (settings : MyPluginSettings) (raw path : jsstring)
  (y1 y2 y3 y4 s1 m1 m2 s2 d1 d2 : N) :
  let y := 1000 * digitValue y1 + 100 * digitValue y2
           + 10 * digitValue y3 + digitValue y4 in
  let m := 10 * digitValue m1 + digitValue m2 in
  let d := 10 * digitValue d1 + digitValue d2 in
  let days := monthLength (isLeap y) (m - 1) in
  let task :=
    mkTask raw false path
      (Some (newDateFromString [y1; y2; y3; y4; s1; m1; m2; s2; d1; d2]))
      raw in
  99 < y -> y = getFullYear tza currentDate ->
  m - 1 = getMonth tza currentDate -> 1 <= d <= days ->
  In task
    (renderTaskListByDateRange settings all [task]
       (ValidDate (fst (monthRange tza currentDate)))
       (ValidDate (snd (monthRange tza currentDate))))
  <-> (1 - d) * msPerDay <= tza <= (days - d) * msPerDay.
Proof.
  intros y m d days task Hy HY HM Hd.
  assert (Hm : 0 <= m - 1 <= 11) by (rewrite HM; apply civil_fields).
  pose proof (monthLength_range (isLeap y) _ Hm) as Hl. fold days in Hl.
  assert (Hdue : dueDate task
                 = Some (ValidDate (MakeDay y (m - 1) d * msPerDay))).
  { unfold task. cbn [dueDate]. f_equal.
    apply newDateFromString_value; fold m d; lia. }
  unfold renderTaskListByDateRange, filteredByDateRange, monthRange.
  cbv zeta. cbn [fst snd filter]. rewrite Hdue.
  rewrite <- HY, <- HM. unfold newDate, UTC.
  rewrite fullYearOf_id by exact Hy.
  rewrite (MakeDay_last_day y (m - 1) Hm). fold days.
  rewrite !(MakeDay_month y (m - 1)) by exact Hm.
  set (D := DayFromYear y + monthStart (isLeap y) (m - 1)).
  cbn [ge le].
  destruct ((D + 1 - 1) * msPerDay - tza <=? (D + d - 1) * msPerDay) eqn:E1;
    destruct ((D + d - 1) * msPerDay <=? (D + days - 1) * msPerDay - tza)
      eqn:E2; cbn [andb In]; bool_to_prop; unfold msPerDay in *;
    (split; [intros H | intros H]); try lia; try tauto; try (left; reflexivity);
    try (destruct H as [H | []]; lia).
Qed.

Lemma month_click_and_utc_due_dates_witness :
  let task :=
    mkTask (lit "pay rent") false (lit "notes/home.md")
      (Some (newDateFromString (lit "2024-03-31"))) (lit "pay rent") in
  In task
    (renderTaskListByDateRange (settingsWith "#home") all [task]
       (ValidDate (fst (monthRange 28800000 1710460800000)))
       (ValidDate (snd (monthRange 28800000 1710460800000))))
  <-> (1 - 31) * msPerDay <= 28800000 <= (31 - 31) * msPerDay.
Proof.
  apply (month_click_and_utc_due_dates 28800000 1710460800000
           (settingsWith "#home") (lit "pay rent") (lit "notes/home.md")
           50 48 50 52 45 48 51 45 51 49);
    vm_compute; try reflexivity; split; discriminate.
Defined.
